(** * ws-actual: the parsing / transformation / reconciliation core

    A shallow embedding of the JavaScript sources
      - [src/parser.js]         ([parseCurrencyValue]),
      - [src/transformer.js]    ([transformTransaction] and its helpers),
      - [src/config.js]         ([resolveAccount]),
      - [src/actual-client.js]  ([generateImportedId], [convertToImportFormat],
                                 the grouping phase of [importTransactions]),
    together with the fragment of ECMAScript they rely on (IEEE-754 doubles,
    UTF-16 strings, backtracking regular expressions, [JSON.stringify],
    SHA-256), followed by the properties proved about them. *)

From Stdlib Require Import String Ascii ZArith NArith List Bool Lia.
From Stdlib Require Import Floats.SpecFloat.
Import ListNotations.

Local Open Scope Z_scope.

(* ================================================================== *)
(** * Part I — the ECMAScript fragment                                  *)
(* ================================================================== *)

(** ** Numbers: IEEE-754 binary64, as [spec_float] *)

Module Num.

Definition number := spec_float.

Definition prec : Z := 53.
Definition emax : Z := 1024.

Definition NaN : number := S754_nan.
Definition pzero : number := S754_zero false.
Definition nzero : number := S754_zero true.

Definition mul : number -> number -> number := SFmul prec emax.
Definition neg : number -> number := SFopp.
Definition abs : number -> number := SFabs.

(** [x < y], [x >= y], [x == y] on Numbers; every comparison with NaN is
    false. *)
Definition ltb (x y : number) : bool := SFltb x y.
Definition geb (x y : number) : bool := SFleb y x.
Definition eqb (x y : number) : bool := SFeqb x y.

Definition is_nan (x : number) : bool :=
  match x with S754_nan => true | _ => false end.

Definition is_zero (x : number) : bool :=
  match x with S754_zero _ => true | _ => false end.

Definition is_finite (x : number) : bool :=
  match x with S754_zero _ | S754_finite _ _ _ => true | _ => false end.

(** The Number nearest to the integer [n] (round to nearest, ties to even). *)
Definition of_Z (n : Z) : number := binary_normalize prec emax n 0 false.

(** The Number nearest to [(-1)^s * m * 10^e10], for a decimal literal with
    digits [m >= 0]; one correctly rounded step from the exact rational. *)
Definition of_decimal (s : bool) (m : Z) (e10 : Z) : number :=
  match m with
  | Z0 => S754_zero s
  | Zpos _ =>
      if 0 <=? e10
      then binary_round prec emax s (Z.to_pos (m * 10 ^ e10)) 0
      else
        let '(q, e, l) := SFdiv_core_binary prec emax m 0 (10 ^ (- e10)) 0 in
        binary_round_aux prec emax s q e l
  | Zneg _ => S754_nan
  end.

Definition hundred : number := of_Z 100.

(** [Math.round]: non-finite and integral Numbers are returned unchanged;
    otherwise the integer [floor (x + 1/2)] (ties go towards +infinity),
    computed exactly; a zero result keeps the sign of [x]. *)
Definition Math_round (x : number) : number :=
  match x with
  | S754_finite s m e =>
      if 0 <=? e then x
      else
        let k := - e in
        let n := (2 * cond_Zopp s (Zpos m) + 2 ^ k) / 2 ^ (k + 1) in
        match n with
        | Z0 => S754_zero s
        | _ => of_Z n
        end
  | _ => x
  end.

Definition Math_abs : number -> number := abs.

(** The integer a Number denotes, when it is integral. *)
Definition to_Z (x : number) : option Z :=
  match x with
  | S754_zero _ => Some 0
  | S754_finite s m e =>
      if 0 <=? e then Some (cond_Zopp s (Zpos m * 2 ^ e))
      else if (Zpos m) mod 2 ^ (- e) =? 0
           then Some (cond_Zopp s (Zpos m / 2 ^ (- e)))
           else None
  | _ => None
  end.

End Num.

(** ** Strings: sequences of UTF-16 code units *)

Module Str.

Definition jsstr := list N.

(** The code unit of an ASCII character and the string of an ASCII literal. *)
Definition ch (a : ascii) : N := N_of_ascii a.
Definition str (s : string) : jsstr := List.map ch (list_ascii_of_string s).

Definition eqb (s t : jsstr) : bool :=
  if list_eq_dec N.eq_dec s t then true else false.

Definition is_empty (s : jsstr) : bool :=
  match s with [] => true | _ => false end.

Definition between (lo hi c : N) : bool := ((lo <=? c) && (c <=? hi))%N.

Definition is_digit (c : N) : bool := between 48 57 c.
Definition is_upper (c : N) : bool := between 65 90 c.
Definition is_lower (c : N) : bool := between 97 122 c.

(** [\w] *)
Definition is_word (c : N) : bool :=
  is_digit c || is_upper c || is_lower c || (c =? 95)%N.

(** LineTerminator: LF, CR, LS, PS. *)
Definition is_line_terminator (c : N) : bool :=
  ((c =? 10) || (c =? 13) || (c =? 8232) || (c =? 8233))%N.

(** WhiteSpace and LineTerminator, the set used by [trim] and by [\s]. *)
Definition is_space (c : N) : bool :=
  ((c =? 9) || (c =? 11) || (c =? 12) || (c =? 32) || (c =? 160)
   || (c =? 5760) || between 8192 8202 c || (c =? 8239) || (c =? 8287)
   || (c =? 12288) || (c =? 65279))%N
  || is_line_terminator c.

Fixpoint trimStart (s : jsstr) : jsstr :=
  match s with
  | c :: s' => if is_space c then trimStart s' else s
  | [] => []
  end.

Definition trimEnd (s : jsstr) : jsstr := rev (trimStart (rev s)).

Definition trim (s : jsstr) : jsstr := trimEnd (trimStart s).

Fixpoint startsWith (p s : jsstr) : bool :=
  match p, s with
  | [], _ => true
  | a :: p', b :: s' => (a =? b)%N && startsWith p' s'
  | _ :: _, [] => false
  end.

(** [s.includes(p)] *)
Fixpoint includes (s p : jsstr) : bool :=
  startsWith p s ||
  match s with
  | [] => false
  | _ :: s' => includes s' p
  end.

(** [s.substring(0, n)] *)
Definition substring0 (n : nat) (s : jsstr) : jsstr := firstn n s.

(** [parts.join(sep)] *)
Fixpoint join (sep : jsstr) (parts : list jsstr) : jsstr :=
  match parts with
  | [] => []
  | [p] => p
  | p :: ps => p ++ sep ++ join sep ps
  end.

(** [s.replace(/,/g, '')] and friends: drop every code unit satisfying [p]. *)
Definition remove_all (p : N -> bool) (s : jsstr) : jsstr :=
  filter (fun c => negb (p c)) s.

(** [s.replace(/\s+/g, ' ')]: every maximal run of white space becomes one
    space. *)
Fixpoint collapse_spaces_from (in_run : bool) (s : jsstr) : jsstr :=
  match s with
  | [] => []
  | c :: s' =>
      if is_space c
      then (if in_run then collapse_spaces_from true s'
            else 32%N :: collapse_spaces_from true s')
      else c :: collapse_spaces_from false s'
  end.

Definition collapse_spaces (s : jsstr) : jsstr := collapse_spaces_from false s.

(** ASCII lower-casing of one code unit. *)
Definition ascii_lower (c : N) : N := if is_upper c then (c + 32)%N else c.

Definition span (p : N -> bool) (s : jsstr) : jsstr * jsstr :=
  (fix go (s : jsstr) : jsstr * jsstr :=
     match s with
     | c :: s' => if p c then let '(a, b) := go s' in (c :: a, b) else ([], s)
     | [] => ([], [])
     end) s.

(** Decimal digits to their integer value, and back. *)
Definition digit_val (c : N) : Z := Z.of_N c - 48.

Definition digits_to_Z (ds : jsstr) : Z :=
  fold_left (fun acc c => 10 * acc + digit_val c) ds 0.

Fixpoint Z_to_digits_aux (fuel : nat) (n : Z) (acc : jsstr) : jsstr :=
  match fuel with
  | O => acc
  | S fuel' =>
      let acc' := Z.to_N (48 + n mod 10) :: acc in
      if n / 10 =? 0 then acc' else Z_to_digits_aux fuel' (n / 10) acc'
  end.

(** The decimal representation of a non-negative integer. *)
Definition Z_to_digits (n : Z) : jsstr :=
  Z_to_digits_aux (S (Z.to_nat (Z.log2 n))) n [].

End Str.

(** ** Numeric literals: [StringToNumber] and [parseFloat] *)

Module NumLit.
Import Str Num.

(** An optional exponent part [e[+-]?digits] at the head of [s]: its value
    and what follows it; [(0, s)] when there is none. *)
Definition scan_exponent (s : jsstr) : Z * jsstr :=
  match s with
  | c :: s1 =>
      if ((c =? ch "e") || (c =? ch "E"))%N then
        let '(sg, s2) :=
          match s1 with
          | d :: s2 =>
              if (d =? ch "+")%N then (false, s2)
              else if (d =? ch "-")%N then (true, s2)
              else (false, s1)
          | [] => (false, s1)
          end in
        let '(ds, s3) := span is_digit s2 in
        if is_empty ds then (0, s) else (cond_Zopp sg (digits_to_Z ds), s3)
      else (0, s)
  | [] => (0, s)
  end.

(** The longest prefix of [s] that is an unsigned decimal literal
    ([digits], [digits.], [digits.digits], [.digits], each with an optional
    exponent): its digits as an integer, its decimal exponent, the rest. *)
Definition scan_decimal (s : jsstr) : option (Z * Z * jsstr) :=
  let '(ip, r1) := span is_digit s in
  let '(fp, r2) :=
    match r1 with
    | c :: r1' => if (c =? ch ".")%N then span is_digit r1' else ([], r1)
    | [] => ([], r1)
    end in
  if is_empty ip && is_empty fp then None
  else
    let '(e, r3) := scan_exponent r2 in
    Some (digits_to_Z (ip ++ fp), e - Z.of_nat (length fp), r3).

Definition scan_sign (s : jsstr) : bool * jsstr :=
  match s with
  | c :: s' =>
      if (c =? ch "+")%N then (false, s')
      else if (c =? ch "-")%N then (true, s')
      else (false, s)
  | [] => (false, s)
  end.

(** The longest prefix that is a signed [StrDecimalLiteral]. *)
Definition scan_signed_decimal (s : jsstr) : option (number * jsstr) :=
  let '(sg, s1) := scan_sign s in
  if startsWith (str "Infinity") s1
  then Some (S754_infinity sg, skipn 8 s1)
  else
    match scan_decimal s1 with
    | Some (m, e, r) => Some (of_decimal sg m e, r)
    | None => None
    end.

(** [parseFloat(s)] *)
Definition parseFloat (s : jsstr) : number :=
  match scan_signed_decimal (trimStart s) with
  | Some (x, _) => x
  | None => NaN
  end.

Definition hex_val (c : N) : option Z :=
  if is_digit c then Some (Z.of_N c - 48)
  else if between 97 102 c then Some (Z.of_N c - 87)
  else if between 65 70 c then Some (Z.of_N c - 55)
  else None.

(** The value of a non-empty string of digits in base [b], if it is one. *)
Definition radix_digits (b : Z) (ds : jsstr) : option Z :=
  match ds with
  | [] => None
  | _ =>
      fold_left
        (fun acc c =>
           match acc, hex_val c with
           | Some a, Some d => if d <? b then Some (b * a + d) else None
           | _, _ => None
           end) ds (Some 0)
  end.

(** [0x..], [0o..], [0b..] literals (no sign). *)
Definition non_decimal (s : jsstr) : option number :=
  match s with
  | z :: p :: ds =>
      if (z =? ch "0")%N then
        let base :=
          if ((p =? ch "x") || (p =? ch "X"))%N then Some 16
          else if ((p =? ch "o") || (p =? ch "O"))%N then Some 8
          else if ((p =? ch "b") || (p =? ch "B"))%N then Some 2
          else None in
        match base with
        | Some b =>
            match radix_digits b ds with
            | Some n => Some (of_Z n)
            | None => None
            end
        | None => None
        end
      else None
  | _ => None
  end.

(** [StringToNumber(s)], the conversion applied by [s * 100] and [s < 0]. *)
Definition StringToNumber (s : jsstr) : number :=
  let t := trim s in
  if is_empty t then pzero
  else
    match non_decimal t with
    | Some x => x
    | None =>
        match scan_signed_decimal t with
        | Some (x, []) => x
        | _ => NaN
        end
    end.

End NumLit.

(** ** Regular expressions: the backtracking matcher of ECMAScript *)

Module Regex.
Import Str.

Inductive regex : Type :=
| Eps                                   (* the empty pattern            *)
| Chr (p : N -> bool)                   (* one code unit from a class   *)
| Seq (r1 r2 : regex)                   (* r1 r2                        *)
| Alt (r1 r2 : regex)                   (* r1 | r2, left first          *)
| Star (greedy : bool) (r : regex)      (* r* and r*?                   *)
| Group (i : nat) (r : regex)           (* the i-th capturing group     *)
| Bol                                   (* ^                            *)
| Eol.                                  (* $ (no multiline flag)        *)

Definition Opt (r : regex) : regex := Alt r Eps.          (* r?  *)
Definition Plus (g : bool) (r : regex) : regex := Seq r (Star g r).

Fixpoint Times (n : nat) (r : regex) : regex :=           (* r{n} *)
  match n with
  | O => Eps
  | S n' => Seq r (Times n' r)
  end.

Definition AtLeast (n : nat) (r : regex) : regex :=       (* r{n,} *)
  Seq (Times n r) (Star true r).

(** A literal string, compared code unit by code unit through [same]. *)
Fixpoint Lit (same : N -> N -> bool) (s : jsstr) : regex :=
  match s with
  | [] => Eps
  | c :: s' => Seq (Chr (same c)) (Lit same s')
  end.

Definition exact (a b : N) : bool := (a =? b)%N.

(** The [i] flag on an ASCII pattern character: both cases match. *)
Definition nocase (a b : N) : bool := (ascii_lower a =? ascii_lower b)%N.

(** [.], [\s], [\d] *)
Definition dot (c : N) : bool := negb (is_line_terminator c).

(** A matcher state: how many code units were consumed, what remains, and
    the captures recorded so far (latest first). *)
Record mstate := MState {
  pos : nat;
  rest : jsstr;
  caps : list (nat * jsstr)
}.

Definition capture (i : nat) (before after : mstate) : mstate :=
  MState (pos after) (rest after)
         ((i, firstn (pos after - pos before) (rest before)) :: caps after).

Definition cont := mstate -> option mstate.

(** The iterations of a star whose body is matched by [body]: an iteration
    that consumes nothing is rejected, as in RepeatMatcher; a greedy star
    tries one more iteration before it tries the continuation, a lazy one the
    other way round. *)
Section StarLoop.
Variable body : mstate -> cont -> option mstate.
Variable greedy : bool.
Variable k : cont.

Fixpoint star_loop (fuel : nat) (st : mstate) {struct fuel} : option mstate :=
  match fuel with
  | O => k st
  | S fuel' =>
      let again :=
        body st
          (fun st' =>
             if (length (rest st') <? length (rest st))%nat
             then star_loop fuel' st' else None) in
      if greedy then
        match again with
        | Some res => Some res
        | None => k st
        end
      else
        match k st with
        | Some res => Some res
        | None => again
        end
  end.
End StarLoop.

(** [rmatch r st k]: match [r] at [st], then continue with [k]; on failure
    of the continuation the next alternative of [r] is tried. *)
Fixpoint rmatch (r : regex) (st : mstate) (k : cont) {struct r}
  : option mstate :=
  match r with
  | Eps => k st
  | Chr p =>
      match rest st with
      | c :: s' => if p c then k (MState (S (pos st)) s' (caps st)) else None
      | [] => None
      end
  | Seq r1 r2 => rmatch r1 st (fun st1 => rmatch r2 st1 k)
  | Alt r1 r2 =>
      match rmatch r1 st k with
      | Some res => Some res
      | None => rmatch r2 st k
      end
  | Star greedy r1 =>
      star_loop (rmatch r1) greedy k (S (length (rest st))) st
  | Group i r1 => rmatch r1 st (fun st' => k (capture i st st'))
  | Bol => if (pos st =? 0)%nat then k st else None
  | Eol => match rest st with [] => k st | _ :: _ => None end
  end.

(** Try to match at the current position, then at each later one. *)
Fixpoint exec_from (r : regex) (p : nat) (s : jsstr) : option mstate :=
  match rmatch r (MState p s []) Some with
  | Some res => Some res
  | None =>
      match s with
      | [] => None
      | _ :: s' => exec_from r (S p) s'
      end
  end.

(** [s.match(r)] for a pattern without the [g] flag: the captures of the
    first match, or [None] for [null]. *)
Definition exec (r : regex) (s : jsstr) : option (list (nat * jsstr)) :=
  match exec_from r 0 s with
  | Some res => Some (caps res)
  | None => None
  end.

(** [match[i]]: [None] stands for [undefined]. *)
Fixpoint group (i : nat) (cs : list (nat * jsstr)) : option jsstr :=
  match cs with
  | [] => None
  | (j, v) :: cs' => if (i =? j)%nat then Some v else group i cs'
  end.

(** [r.test(s)] *)
Definition test (r : regex) (s : jsstr) : bool :=
  match exec r s with Some _ => true | None => false end.

End Regex.

(** ** Values, exceptions, and the host engine *)

Module Val.
Import Str Num.

(** The primitive values a record field can hold. *)
Inductive JsVal : Type :=
| JUndefined
| JNull
| JBool (b : bool)
| JNum (x : number)
| JStr (s : jsstr).

(** ToBoolean *)
Definition truthy (v : JsVal) : bool :=
  match v with
  | JUndefined | JNull => false
  | JBool b => b
  | JNum x => negb (is_zero x || is_nan x)
  | JStr s => negb (is_empty s)
  end.

(** [a || b] and [a && b] *)
Definition or_ (a b : JsVal) : JsVal := if truthy a then a else b.
Definition and_ (a b : JsVal) : JsVal := if truthy a then b else a.

(** ToNumber *)
Definition ToNumber (v : JsVal) : number :=
  match v with
  | JUndefined => NaN
  | JNull => pzero
  | JBool b => if b then of_Z 1 else pzero
  | JNum x => x
  | JStr s => NumLit.StringToNumber s
  end.

(** [a === b] *)
Definition strict_eq (a b : JsVal) : bool :=
  match a, b with
  | JUndefined, JUndefined => true
  | JNull, JNull => true
  | JBool x, JBool y => Bool.eqb x y
  | JNum x, JNum y => Num.eqb x y
  | JStr s, JStr t => Str.eqb s t
  | _, _ => false
  end.

(** Completion records: a value, or a thrown [TypeError]. *)
Inductive JsError : Type := TypeError.

Inductive Exc (A : Type) : Type :=
| Ok (a : A)
| Throw (e : JsError).

Arguments Ok {A} a.
Arguments Throw {A} e.

Definition bind {A B : Type} (m : Exc A) (f : A -> Exc B) : Exc B :=
  match m with
  | Ok a => f a
  | Throw e => Throw e
  end.

Definition returns {A : Type} (m : Exc A) : bool :=
  match m with Ok _ => true | Throw _ => false end.

(** What the host provides and this development does not define: Unicode
    case conversion, the printing of Numbers that are not integers of
    magnitude at most 2^53, the [Date] parser, and the compilation of
    user-supplied regular expressions. *)
Class Engine : Type := {
  (** [s.toLowerCase()]; the empty string has no character to convert *)
  toLowerCase : jsstr -> jsstr;
  toLowerCase_empty : toLowerCase [] = [];
  (** [String(x)] for a finite [x] other than an integer of magnitude at
      most 2^53: the shortest digits that read back as [x] *)
  shortestToString : number -> jsstr;
  (** [new Date(v)]: [None] when the date is invalid, otherwise
      [date.toISOString().split('T')[0]] *)
  isoDateOf : JsVal -> option jsstr;
  (** [new RegExp(source, 'i').test(s)]: [None] when the constructor
      throws a SyntaxError *)
  RegExp_i_test : jsstr -> jsstr -> option bool
}.

Section WithEngine.
Context {E : Engine}.

(** Number::toString.  The digits printed are the shortest that read back
    as the Number: for an integer of magnitude at most 2^53 they are its
    own digits; past that (where not every integer is a Number) and for
    fractions they are the host's. *)
Definition NumberToString (x : number) : jsstr :=
  match x with
  | S754_nan => str "NaN"
  | S754_zero _ => str "0"
  | S754_infinity s => (if s then str "-" else []) ++ str "Infinity"
  | S754_finite s _ _ =>
      match to_Z x with
      | Some n =>
          if Z.abs n <=? 2 ^ 53
          then (if s then str "-" else []) ++ Z_to_digits (Z.abs n)
          else shortestToString x
      | None => shortestToString x
      end
  end.

(** ToString, as applied by template literals. *)
Definition ToString (v : JsVal) : jsstr :=
  match v with
  | JUndefined => str "undefined"
  | JNull => str "null"
  | JBool b => if b then str "true" else str "false"
  | JNum x => NumberToString x
  | JStr s => s
  end.

(** [v.toLowerCase()]: only strings have the method. *)
Definition call_toLowerCase (v : JsVal) : Exc jsstr :=
  match v with
  | JStr s => Ok (toLowerCase s)
  | _ => Throw TypeError
  end.

End WithEngine.

(** [v?.trim()]: [undefined] (here [None]) for a nullish receiver. *)
Definition opt_trim (v : JsVal) : Exc (option jsstr) :=
  match v with
  | JUndefined | JNull => Ok None
  | JStr s => Ok (Some (trim s))
  | _ => Throw TypeError
  end.

(** Truthiness of the result of [v?.trim()]. *)
Definition present (o : option jsstr) : bool :=
  match o with
  | Some s => negb (is_empty s)
  | None => false
  end.

Definition text (o : option jsstr) : jsstr :=
  match o with Some s => s | None => [] end.

End Val.

Declare Scope exc_scope.
Delimit Scope exc_scope with exc.
Notation "x <- m ;; k" := (Val.bind m (fun x => k))
  (at level 61, m at next level, right associativity) : exc_scope.

(* ================================================================== *)
(** * Part II — the program                                             *)
(* ================================================================== *)

(** ** The transaction object shared by src/transformer.js and
       src/actual-client.js *)

Module Txn.
Import Val.

(** The five keys of the object literal built by [transformTransaction],
    and the keys that exist only once they are assigned: the transfer
    metadata, and what the import pipeline adds ([_accountId], [category]).
    [None] is an absent key. *)
Record ActualTransaction : Type := {
  Date : JsVal;
  Account : JsVal;
  Payee : JsVal;
  Notes : JsVal;
  Amount : JsVal;
  _isTransfer : option JsVal;
  _transferToAccount : option JsVal;
  _accountId : option JsVal;
  category : option JsVal
}.

(** Reading a key that may be absent. *)
Definition read (o : option JsVal) : JsVal :=
  match o with
  | Some v => v
  | None => JUndefined
  end.

End Txn.

(** ** src/transformer.js *)

Module Transformer.
Import Str Num Val Regex Txn.
Local Open Scope exc_scope.

(** [{isTransfer, toAccount}] *)
Record TransferInfo : Type := {
  isTransfer : JsVal;
  toAccount : JsVal
}.

(** A raw WealthSimple record; an absent key reads as [JUndefined].  The
    pre-stored [_transferInfo] is an object when present. *)
Record WsTransaction : Type := {
  account : JsVal;
  date : JsVal;
  filled : JsVal;
  submitted : JsVal;
  amount : JsVal;
  type : JsVal;
  description : JsVal;
  subheading : JsVal;
  email : JsVal;
  message : JsVal;
  filledQuantity : JsVal;
  transactionId : JsVal;
  from : JsVal;
  to : JsVal;
  _transferInfo : option TransferInfo
}.

(** The transform options; [None] when [options.isAccountMapped] is absent. *)
Record Options : Type := {
  isAccountMapped : option (JsVal -> bool)
}.

Definition no_options : Options := {| isAccountMapped := None |}.

Section WithEngine.
Context {E : Engine}.

(** [formatDateToYMD] *)
Definition formatDateToYMD (dateStr : JsVal) : JsVal :=
  if negb (truthy dateStr) then JNull
  else
    match isoDateOf dateStr with
    | None => dateStr
    | Some ymd => JStr ymd
    end.

(** The block of [transformTransaction] that computes [amountInCents]. *)
Definition amountInCents (amount : JsVal) : number :=
  if strict_eq amount (JStr []) || strict_eq amount JNull
     || strict_eq amount JUndefined
  then NaN
  else
    let rawCents := mul (ToNumber amount) hundred in
    if geb rawCents pzero then Math_round rawCents
    else neg (Math_round (neg rawCents)).

Definition debitTypes : list jsstr :=
  [str "withdrawal"; str "withdraw"; str "payment"; str "purchase";
   str "transfer_out"; str "fee"; str "interest_charge"].

Definition creditTypes : list jsstr :=
  [str "deposit"; str "transfer_in"; str "interest"; str "dividend";
   str "refund"].

(** [isDebitTransaction] *)
Definition isDebitTransaction (transaction : WsTransaction) : Exc bool :=
  ty <- call_toLowerCase (or_ (type transaction) (JStr [])) ;;
  if existsb (fun debitType => includes ty debitType) debitTypes
  then Ok true
  else if ltb (ToNumber (amount transaction)) pzero
  then Ok true
  else if existsb (fun creditType => includes ty creditType) creditTypes
  then Ok false
  else Ok false.

Definition not_a_transfer : TransferInfo :=
  {| isTransfer := JBool false; toAccount := JNull |}.

(** [detectTransfer] *)
Definition detectTransfer (wsTransaction : WsTransaction)
           (isAccountMapped : option (JsVal -> bool)) : TransferInfo :=
  if truthy (from wsTransaction) && truthy (to wsTransaction) then
    match isAccountMapped with
    | Some mapped =>
        if mapped (from wsTransaction) && mapped (to wsTransaction) then
          let targetAccount :=
            if strict_eq (account wsTransaction) (from wsTransaction)
            then to wsTransaction else from wsTransaction in
          {| isTransfer := JBool true; toAccount := targetAccount |}
        else not_a_transfer
    | None => not_a_transfer
    end
  else not_a_transfer.

(** [buildNotesFromSpec] *)
Definition buildNotesFromSpec (transaction : WsTransaction) : Exc jsstr :=
  subheading <- opt_trim (subheading transaction) ;;
  type <- opt_trim (type transaction) ;;
  let mainPart :=
    if present subheading && present type
       && negb (Str.eqb (text subheading) (text type))
    then text subheading ++ str " - " ++ text type
    else if present subheading then text subheading
    else if present type then text type
    else [] in
  email <- opt_trim (email transaction) ;;
  let mainPart :=
    if present email then mainPart ++ str " (" ++ text email ++ str ")"
    else mainPart in
  message <- opt_trim (message transaction) ;;
  filledQuantity <- opt_trim (filledQuantity transaction) ;;
  let hasMessage := present message in
  let hasQuantity := present filledQuantity in
  transactionId <- opt_trim (transactionId transaction) ;;
  let suffixParts :=
    (if hasMessage then [text message] else [])
    ++ (if hasQuantity then [text filledQuantity] else [])
    ++ (if present transactionId
        then [str "[" ++ text transactionId ++ str "]"] else []) in
  let suffix := join (str " ") suffixParts in
  if is_empty suffix then Ok mainPart
  else if hasMessage || hasQuantity
  then Ok (mainPart ++ str ": " ++ suffix)
  else Ok (mainPart ++ str " " ++ suffix).

(** [cleanPayeeName] *)
Definition cleanPayeeName (name : jsstr) : jsstr :=
  substring0 100
    (trim
       (remove_all
          (fun c => negb (is_word c || is_space c || (c =? ch "-")%N
                      || (c =? ch "&")%N || (c =? ch ".")%N
                      || (c =? 39)%N))
          (collapse_spaces name))).

Definition typeMap : list (jsstr * jsstr) :=
  [(str "deposit", str "Deposit");
   (str "withdrawal", str "Withdrawal");
   (str "transfer", str "Transfer");
   (str "transfer_in", str "Transfer In");
   (str "transfer_out", str "Transfer Out");
   (str "payment", str "Payment");
   (str "purchase", str "Purchase");
   (str "interest", str "Interest");
   (str "dividend", str "Dividend");
   (str "fee", str "Fee");
   (str "refund", str "Refund")].

(** [getPayeeByType] *)
Definition getPayeeByType (type : JsVal) : Exc JsVal :=
  lowerType <- call_toLowerCase (or_ type (JStr [])) ;;
  match find (fun kv => includes lowerType (fst kv)) typeMap with
  | Some (_, value) => Ok (JStr value)
  | None => Ok (or_ type (JStr (str "Unknown")))
  end.

Definition ws : regex := Plus true (Chr is_space).
Definition digit : regex := Chr is_digit.

(** [/^(?:transfer (?:to|from)|payment (?:to|from))\s+(.+)$/i] *)
Definition payee_pattern_1 : regex :=
  Seq Bol
   (Seq (Alt (Seq (Lit nocase (str "transfer "))
                  (Alt (Lit nocase (str "to")) (Lit nocase (str "from"))))
             (Seq (Lit nocase (str "payment "))
                  (Alt (Lit nocase (str "to")) (Lit nocase (str "from")))))
   (Seq ws
   (Seq (Group 1 (Plus true (Chr dot)))
        Eol))).

(** [/^(.+?)(?:\s+\d{4,}|\s+#\d+|\s+\*{4}\d{4})?$/] *)
Definition payee_pattern_2 : regex :=
  Seq Bol
   (Seq (Group 1 (Plus false (Chr dot)))
   (Seq (Opt (Alt (Seq ws (AtLeast 4 digit))
             (Alt (Seq ws (Seq (Chr (exact (ch "#"))) (Plus true digit)))
                  (Seq ws (Seq (Times 4 (Chr (exact (ch "*"))))
                               (Times 4 digit))))))
        Eol)).

(** [/^(.+?)(?:\s+on\s+\d{1,2}\/\d{1,2})?$/] *)
Definition payee_pattern_3 : regex :=
  Seq Bol
   (Seq (Group 1 (Plus false (Chr dot)))
   (Seq (Opt (Seq ws
             (Seq (Lit exact (str "on"))
             (Seq ws
             (Seq digit (Seq (Opt digit)
             (Seq (Chr (exact (ch "/")))
             (Seq digit (Opt digit)))))))))
        Eol)).

Definition patterns : list regex :=
  [payee_pattern_1; payee_pattern_2; payee_pattern_3].

(** The [for (const pattern of patterns)] loop of [buildPayeeName]: the
    cleaned first capture of the first pattern that matches with a
    non-empty capture; [JUndefined] when the loop ends without one. *)
Fixpoint payee_from_patterns (ps : list regex) (description : jsstr)
  : JsVal :=
  match ps with
  | [] => JUndefined
  | pattern :: ps' =>
      match exec pattern description with
      | Some m =>
          if present (group 1 m)
          then JStr (cleanPayeeName (text (group 1 m)))
          else payee_from_patterns ps' description
      | None => payee_from_patterns ps' description
      end
  end.

Definition wealthSimplePayees : list jsstr :=
  [str "Referral"; str "Interest"; str "Bonus"; str "Cash back";
   str "Reimbursement"].

(** [buildPayeeName] *)
Definition buildPayeeName (transaction : WsTransaction) : Exc JsVal :=
  payeeName <-
    (if truthy (description transaction) then
       match description transaction with
       | JStr d =>
           let payeeName := payee_from_patterns patterns d in
           if negb (truthy payeeName) then Ok (JStr (cleanPayeeName d))
           else Ok payeeName
       | _ => Throw TypeError     (* [description.match] is not a function *)
       end
     else getPayeeByType (type transaction)) ;;
  if existsb (fun p => strict_eq (JStr p) payeeName) wealthSimplePayees
  then Ok (JStr (str "WealthSimple"))
  else Ok payeeName.

(** [transformTransaction] *)
Definition transformTransaction (wsTransaction : WsTransaction)
           (options : Options) : Exc ActualTransaction :=
  let rawDate :=
    or_ (or_ (date wsTransaction) (filled wsTransaction))
        (submitted wsTransaction) in
  let transactionDate := formatDateToYMD rawDate in
  let amountInCents := amountInCents (amount wsTransaction) in
  isDebit <- isDebitTransaction wsTransaction ;;
  let finalAmount :=
    if isDebit then neg (Math_abs amountInCents)
    else Math_abs amountInCents in
  let transferInfo :=
    detectTransfer wsTransaction (isAccountMapped options) in
  let actualTransferInfo :=
    match _transferInfo wsTransaction with
    | Some stored => stored
    | None => transferInfo
    end in
  notes <-
    (if truthy (isTransfer actualTransferInfo)
        && truthy (from wsTransaction) && truthy (to wsTransaction)
     then Ok (ToString (from wsTransaction) ++ str " -> "
              ++ ToString (to wsTransaction))
     else buildNotesFromSpec wsTransaction) ;;
  payee <- buildPayeeName wsTransaction ;;
  let transformed :=
    {| Date := transactionDate;
       Account := account wsTransaction;
       Payee := payee;
       Notes := JStr notes;
       Amount := JNum finalAmount;
       _isTransfer := None;
       _transferToAccount := None;
       _accountId := None;
       category := None |} in
  if truthy (isTransfer actualTransferInfo) then
    Ok {| Date := Date transformed;
          Account := Account transformed;
          Payee := Payee transformed;
          Notes := Notes transformed;
          Amount := Amount transformed;
          _isTransfer := Some (JBool true);
          _transferToAccount := Some (toAccount actualTransferInfo);
          _accountId := _accountId transformed;
          category := category transformed |}
  else Ok transformed.

End WithEngine.

End Transformer.

(** ** SHA-256 (FIPS 180-4), UTF-8, and [JSON.stringify] *)

Module Sha256.

Definition word := Z.            (* a 32-bit word, kept in [0, 2^32) *)
Definition byte := Z.            (* an octet, in [0, 256) *)

Definition w32 (x : Z) : word := x mod 2 ^ 32.
Definition add32 (x y : word) : word := w32 (x + y).
Definition not32 (x : word) : word := Z.lxor x 0xffffffff.
Definition rotr (n : Z) (x : word) : word :=
  Z.lor (Z.shiftr x n) (w32 (Z.shiftl x (32 - n))).
Definition shr (n : Z) (x : word) : word := Z.shiftr x n.

Definition Ch (x y z : word) : word :=
  Z.lxor (Z.land x y) (Z.land (not32 x) z).
Definition Maj (x y z : word) : word :=
  Z.lxor (Z.lxor (Z.land x y) (Z.land x z)) (Z.land y z).
Definition Sigma0 (x : word) : word :=
  Z.lxor (Z.lxor (rotr 2 x) (rotr 13 x)) (rotr 22 x).
Definition Sigma1 (x : word) : word :=
  Z.lxor (Z.lxor (rotr 6 x) (rotr 11 x)) (rotr 25 x).
Definition sigma0 (x : word) : word :=
  Z.lxor (Z.lxor (rotr 7 x) (rotr 18 x)) (shr 3 x).
Definition sigma1 (x : word) : word :=
  Z.lxor (Z.lxor (rotr 17 x) (rotr 19 x)) (shr 10 x).

(** The first 64 primes. *)
Definition primes : list Z :=
  [2; 3; 5; 7; 11; 13; 17; 19; 23; 29; 31; 37; 41; 43; 47; 53; 59; 61; 67;
   71; 73; 79; 83; 89; 97; 101; 103; 107; 109; 113; 127; 131; 137; 139; 149;
   151; 157; 163; 167; 173; 179; 181; 191; 193; 197; 199; 211; 223; 227;
   229; 233; 239; 241; 251; 257; 263; 269; 271; 277; 281; 283; 293; 307;
   311].

(** The integer cube root of a number below 2^105, one bit at a time. *)
Definition cube_root (n : Z) : Z :=
  fold_left
    (fun r b => let r' := r + 2 ^ Z.of_nat b in
                if r' * r' * r' <=? n then r' else r)
    (rev (seq 0 36)) 0.

(** The round constants: the first 32 bits of the fractional parts of the
    cube roots of the first 64 primes. *)
Definition K : list word :=
  Eval vm_compute in
    List.map (fun p => w32 (cube_root (p * 2 ^ 96))) primes.

(** The initial hash value: the first 32 bits of the fractional parts of the
    square roots of the first 8 primes. *)
Definition H0 : list word :=
  Eval vm_compute in
    List.map (fun p => w32 (Z.sqrt (p * 2 ^ 64))) (firstn 8 primes).

(** Padding: a 1 bit, zeros, and the bit length on 64 bits, up to a
    multiple of 64 octets. *)
Definition be_bytes (n : nat) (x : Z) : list byte :=
  List.map (fun i => (Z.shiftr x (8 * Z.of_nat i)) mod 256) (rev (seq 0 n)).

Definition pad (msg : list byte) : list byte :=
  let l := Z.of_nat (length msg) in
  let zeros := Z.to_nat ((55 - l) mod 64) in
  msg ++ [0x80] ++ repeat 0 zeros ++ be_bytes 8 (8 * l).

Fixpoint words_of (fuel : nat) (bs : list byte) : list word :=
  match fuel, bs with
  | S fuel', b0 :: b1 :: b2 :: b3 :: bs' =>
      (((b0 * 256 + b1) * 256 + b2) * 256 + b3) :: words_of fuel' bs'
  | _, _ => []
  end.

(** The message schedule, latest word first: [W_t] from the sixteen
    before it. *)
Definition next_W (recent : list word) : word :=
  add32 (add32 (sigma1 (nth 1 recent 0)) (nth 6 recent 0))
        (add32 (sigma0 (nth 14 recent 0)) (nth 15 recent 0)).

Fixpoint extend (n : nat) (recent : list word) : list word :=
  match n with
  | O => recent
  | S n' => extend n' (next_W recent :: recent)
  end.

Definition schedule (block : list word) : list word :=
  rev (extend 48 (rev block)).

Definition round (st : list word) (kw : word * word) : list word :=
  match st with
  | [a; b; c; d; e; f; g; h] =>
      let t1 :=
        add32 (add32 (add32 h (Sigma1 e)) (add32 (Ch e f g) (fst kw)))
              (snd kw) in
      let t2 := add32 (Sigma0 a) (Maj a b c) in
      [add32 t1 t2; a; b; c; add32 d t1; e; f; g]
  | _ => st
  end.

Definition compress (h : list word) (block : list word) : list word :=
  List.map (fun p => add32 (fst p) (snd p))
    (combine h (fold_left round (combine K (schedule block)) h)).

Fixpoint blocks (fuel : nat) (ws : list word) : list (list word) :=
  match fuel, ws with
  | S fuel', _ :: _ => firstn 16 ws :: blocks fuel' (skipn 16 ws)
  | _, _ => []
  end.

(** The digest, as 32 octets. *)
Definition sha256 (msg : list byte) : list byte :=
  let padded := pad msg in
  let ws := words_of (length padded) padded in
  flat_map (be_bytes 4) (fold_left compress (blocks (length ws) ws) H0).

End Sha256.

Module Encoding.
Import Str.

Definition is_high_surrogate (c : N) : bool := between 55296 56319 c.
Definition is_low_surrogate (c : N) : bool := between 56320 57343 c.

(** The UTF-8 octets of one code point. *)
Definition utf8_code_point (cp : N) : list Z :=
  let z := Z.of_N cp in
  if z <? 128 then [z]
  else if z <? 2048 then [192 + z / 64; 128 + z mod 64]
  else if z <? 65536
  then [224 + z / 4096; 128 + (z / 64) mod 64; 128 + z mod 64]
  else [240 + z / 262144; 128 + (z / 4096) mod 64;
        128 + (z / 64) mod 64; 128 + z mod 64].

(** The UTF-8 encoding of a string; a surrogate pair is one code point, a
    lone surrogate is replaced by U+FFFD. *)
Fixpoint utf8 (s : jsstr) : list Z :=
  match s with
  | [] => []
  | c :: s' =>
      if is_high_surrogate c then
        match s' with
        | d :: s'' =>
            if is_low_surrogate d
            then utf8_code_point (65536 + (c - 55296) * 1024 + (d - 56320))
                 ++ utf8 s''
            else utf8_code_point 65533 ++ utf8 s'
        | [] => utf8_code_point 65533 ++ utf8 s'
        end
      else if is_low_surrogate c then utf8_code_point 65533 ++ utf8 s'
      else utf8_code_point c ++ utf8 s'
  end.

Definition hex_digit (d : Z) : N :=
  if d <? 10 then Z.to_N (48 + d) else Z.to_N (87 + d).

(** [digest('hex')]: two lower-case hexadecimal digits per octet. *)
Definition hex (bs : list Z) : jsstr :=
  flat_map (fun b => [hex_digit (b / 16); hex_digit (b mod 16)]) bs.

End Encoding.

Module Json.
Import Str Num Val Encoding.

Definition hex4 (c : N) : jsstr :=
  let z := Z.of_N c in
  [hex_digit (z / 4096); hex_digit ((z / 256) mod 16);
   hex_digit ((z / 16) mod 16); hex_digit (z mod 16)].

Definition unicode_escape (c : N) : jsstr := [92%N; ch "u"] ++ hex4 c.

(** The body of QuoteJSONString: short escapes, [\u00xx] for the other
    control characters, [\udxxx] for a lone surrogate, and every other
    code point as it is. *)
Fixpoint quote_body (s : jsstr) : jsstr :=
  match s with
  | [] => []
  | c :: s' =>
      if (c =? 8)%N then [92%N; ch "b"] ++ quote_body s'
      else if (c =? 9)%N then [92%N; ch "t"] ++ quote_body s'
      else if (c =? 10)%N then [92%N; ch "n"] ++ quote_body s'
      else if (c =? 12)%N then [92%N; ch "f"] ++ quote_body s'
      else if (c =? 13)%N then [92%N; ch "r"] ++ quote_body s'
      else if (c =? 34)%N then [92%N; 34%N] ++ quote_body s'
      else if (c =? 92)%N then [92%N; 92%N] ++ quote_body s'
      else if (c <? 32)%N then unicode_escape c ++ quote_body s'
      else if is_high_surrogate c then
        match s' with
        | d :: s'' =>
            if is_low_surrogate d then c :: d :: quote_body s''
            else unicode_escape c ++ quote_body s'
        | [] => unicode_escape c ++ quote_body s'
        end
      else if is_low_surrogate c then unicode_escape c ++ quote_body s'
      else c :: quote_body s'
  end.

Definition quote (s : jsstr) : jsstr := [34%N] ++ quote_body s ++ [34%N].

Section WithEngine.
Context {E : Engine}.

(** SerializeJSONProperty on a primitive: [None] for [undefined], whose
    property is left out of the enclosing object. *)
Definition serialize (v : JsVal) : option jsstr :=
  match v with
  | JUndefined => None
  | JNull => Some (str "null")
  | JBool b => Some (if b then str "true" else str "false")
  | JNum x => Some (if is_finite x then NumberToString x else str "null")
  | JStr s => Some (quote s)
  end.

Definition member (kv : jsstr * JsVal) : list jsstr :=
  match serialize (snd kv) with
  | Some text => [quote (fst kv) ++ str ":" ++ text]
  | None => []
  end.

(** [JSON.stringify] of an object whose own properties, in creation
    order, are [props]. *)
Definition stringify (props : list (jsstr * JsVal)) : jsstr :=
  str "{" ++ join (str ",") (flat_map member props) ++ str "}".

End WithEngine.

End Json.

(** ** src/parser.js *)

Module Parser.
Import Str Num Val Regex.

(** [{amount, currency}] *)
Record CurrencyValue : Type := {
  amount : JsVal;
  currency : JsVal
}.

(** The class [[+−-]]: plus, U+2212, hyphen-minus. *)
Definition is_sign (c : N) : bool :=
  ((c =? ch "+") || (c =? 8722) || (c =? ch "-"))%N.

Definition spaces : regex := Star true (Chr is_space).

(** [/^([+−-])?\s*\$?([+−-])?\s*([\d,]+(?:\.\d{2})?)\s*([A-Z]{3})?$/] *)
Definition currency_pattern : regex :=
  Seq Bol
   (Seq (Opt (Group 1 (Chr is_sign)))
   (Seq spaces
   (Seq (Opt (Chr (exact (ch "$"))))
   (Seq (Opt (Group 2 (Chr is_sign)))
   (Seq spaces
   (Seq (Group 3
          (Seq (Plus true (Chr (fun c => is_digit c || (c =? ch ",")%N)))
               (Opt (Seq (Chr (exact (ch "."))) (Times 2 (Chr is_digit))))))
   (Seq spaces
   (Seq (Opt (Group 4 (Times 3 (Chr is_upper))))
        Eol)))))))).

(** [a || b] on captures, where [None] is [undefined]. *)
Definition first_present (a b : option jsstr) : option jsstr :=
  if present a then a else b.

(** [parseCurrencyValue] (the warning it logs is not modelled). *)
Definition parseCurrencyValue (value : jsstr) : CurrencyValue :=
  match exec currency_pattern value with
  | None => {| amount := JNull; currency := JUndefined |}
  | Some m =>
      let signChar := first_present (group 1 m) (group 2 m) in
      let sign :=
        match signChar with
        | Some c =>
            if Str.eqb c [8722%N] || Str.eqb c (str "-")
            then of_Z (-1) else of_Z 1
        | None => of_Z 1
        end in
      let amount :=
        NumLit.parseFloat
          (remove_all (fun c => (c =? ch ",")%N) (text (group 3 m))) in
      let currency :=
        if present (group 4 m) then JStr (text (group 4 m))
        else JUndefined in
      {| amount := JNum (mul amount sign); currency := currency |}
  end.

End Parser.

(** ** src/config.js *)

Module Config.
Import Str Val.

(** One [[accounts]] entry; an absent field reads as the empty string. *)
Record AccountMapping : Type := {
  wsAccountName : jsstr;
  actualAccountId : jsstr
}.

(** The configuration; [accounts] is [None] when the key is missing or is
    not an array. *)
Record ConfigFile : Type := {
  accounts : option (list AccountMapping)
}.

(** The object [resolveAccount] returns. *)
Record Resolution : Type := {
  accountId : jsstr;
  accountName : jsstr;
  needsLookup : bool;
  matchType : jsstr;
  matchedPattern : jsstr
}.

(** The class of [/[.*+?^${}()|[\]\\]/]. *)
Definition is_regex_char (c : N) : bool :=
  existsb (fun d => (c =? d)%N)
    [ch "."; ch "*"; ch "+"; ch "?"; ch "^"; ch "$"; ch "{"; ch "}";
     ch "("; ch ")"; ch "|"; ch "["; ch "]"; 92%N].

Section WithEngine.
Context {E : Engine}.

(** The [for (const account of config.accounts)] loop. *)
Fixpoint resolve_in (wsAccountName : jsstr) (accts : list AccountMapping)
  : option Resolution :=
  match accts with
  | [] => None
  | account :: rest =>
      if is_empty (Config.wsAccountName account)
         || is_empty (actualAccountId account)
      then resolve_in wsAccountName rest
      else
        let pattern := Config.wsAccountName account in
        let isRegex := existsb is_regex_char pattern in
        if isRegex then
          match RegExp_i_test (str "^" ++ pattern ++ str "$")
                              wsAccountName with
          | Some true =>
              Some {| accountId := actualAccountId account;
                      accountName := wsAccountName;
                      needsLookup := false;
                      matchType := str "regex";
                      matchedPattern := pattern |}
          | Some false => resolve_in wsAccountName rest
          | None => resolve_in wsAccountName rest
          end
        else if Str.eqb (toLowerCase pattern) (toLowerCase wsAccountName)
        then
          Some {| accountId := actualAccountId account;
                  accountName := wsAccountName;
                  needsLookup := false;
                  matchType := str "exact";
                  matchedPattern := pattern |}
        else resolve_in wsAccountName rest
  end.

(** [resolveAccount]; [None] is [null]. *)
Definition resolveAccount (wsAccountName : jsstr)
           (config : option ConfigFile) : option Resolution :=
  match config with
  | None => None
  | Some cfg =>
      match accounts cfg with
      | None => None
      | Some accts => resolve_in wsAccountName accts
      end
  end.

End WithEngine.

End Config.

(** ** src/actual-client.js *)

Module ActualClient.
Import Str Num Val Txn Encoding.

(** An account of the ledger: [{id, name}]. *)
Module Acct.
Record t : Type := { id : jsstr; name : jsstr }.
End Acct.

(** A payee of the ledger: [{id, name, transfer_acct}]; [transfer_acct] is
    [None] for an ordinary payee. *)
Module TransferPayee.
Record t : Type := {
  id : jsstr;
  name : jsstr;
  transfer_acct : option jsstr
}.
End TransferPayee.

(** A [Map] with string keys, in insertion order. *)
Definition StrMap (V : Type) : Type := list (jsstr * V).

Fixpoint Map_get {V : Type} (k : jsstr) (m : StrMap V) : option V :=
  match m with
  | [] => None
  | (k', v) :: m' => if Str.eqb k k' then Some v else Map_get k m'
  end.

Fixpoint Map_set {V : Type} (k : jsstr) (v : V) (m : StrMap V) : StrMap V :=
  match m with
  | [] => [(k, v)]
  | (k', v') :: m' =>
      if Str.eqb k k' then (k, v) :: m' else (k', v') :: Map_set k v m'
  end.

(** The fields of the client the import uses. *)
Record Client : Type := {
  connected : bool;
  accountMap : StrMap Acct.t;
  transferPayeeMap : StrMap TransferPayee.t
}.

(** [findAccount]; the maps only hold string keys. *)
Definition findAccount (c : Client) (nameOrId : JsVal) : option Acct.t :=
  match nameOrId with
  | JStr k => Map_get k (accountMap c)
  | _ => None
  end.

(** [findTransferPayee] *)
Definition findTransferPayee (c : Client) (accountNameOrId : JsVal)
  : option TransferPayee.t :=
  match accountNameOrId with
  | JStr k => Map_get k (transferPayeeMap c)
  | _ => None
  end.

(** [loadAccounts], given what [api.getAccounts()] returned. *)
Definition loadAccounts (c : Client) (accounts : list Acct.t) : Client :=
  {| connected := connected c;
     accountMap :=
       fold_left
         (fun m account =>
            Map_set (Acct.id account) account
                    (Map_set (Acct.name account) account m))
         accounts [];
     transferPayeeMap := transferPayeeMap c |}.

(** [loadPayees], given what [api.getPayees()] returned. *)
Definition loadPayees (c : Client) (payees : list TransferPayee.t) : Client :=
  {| connected := connected c;
     accountMap := accountMap c;
     transferPayeeMap :=
       fold_left
         (fun m payee =>
            match TransferPayee.transfer_acct payee with
            | Some acct =>
                if is_empty acct then m
                else
                  let m1 := Map_set acct payee m in
                  match findAccount c (JStr acct) with
                  | Some account => Map_set (Acct.name account) payee m1
                  | None => m1
                  end
            | None => m
            end)
         payees [] |}.

(** The record handed to the ledger's batch import; [None] is an absent
    key. *)
Record ImportRecord : Type := {
  date : JsVal;
  amount : JsVal;
  imported_id : jsstr;
  cleared : bool;
  account : option jsstr;
  payee : option jsstr;
  payee_name : option JsVal;
  notes : option JsVal;
  import_category : option JsVal        (* the [category] key *)
}.

(** An element of a per-account list of [transactionsByAccount]. *)
Record Entry : Type := {
  original : ActualTransaction;
  import : ImportRecord;
  index : nat;
  isMirrorTransfer : bool
}.

(** What the [catch] of the grouping loop records. *)
Record Failure : Type := {
  failed_transaction : ActualTransaction;
  failed_index : nat;
  error : jsstr
}.

(** SameValueZero, the key equality of [Map]. *)
Definition same_value_zero (a b : JsVal) : bool :=
  match a, b with
  | JNum x, JNum y => (is_nan x && is_nan y) || Num.eqb x y
  | _, _ => strict_eq a b
  end.

(** [transactionsByAccount]: a [Map] from account key to entries. *)
Definition Groups : Type := list (JsVal * list Entry).

(** [if (!m.has(k)) m.set(k, []); m.get(k).push(e)] *)
Fixpoint push_entry (k : JsVal) (e : Entry) (m : Groups) : Groups :=
  match m with
  | [] => [(k, [e])]
  | (k', es) :: m' =>
      if same_value_zero k k' then (k', es ++ [e]) :: m'
      else (k', es) :: push_entry k e m'
  end.

Section WithEngine.
Context {E : Engine}.

(** [generateImportedId] *)
Definition generateImportedId (transaction : ActualTransaction) : jsstr :=
  let sortedTransaction :=
    [(str "account", Account transaction);
     (str "amount", Amount transaction);
     (str "date", Date transaction);
     (str "notes", Notes transaction);
     (str "payee", Payee transaction)] in
  let transactionString := Json.stringify sortedTransaction in
  let hash := hex (Sha256.sha256 (utf8 transactionString)) in
  str "ws_" ++ substring0 16 hash.

(** [convertToImportFormat] (verbose logging is not modelled). *)
Definition convertToImportFormat (c : Client)
           (transaction : ActualTransaction) : ImportRecord :=
  let imported_id := generateImportedId transaction in
  let account :=
    if truthy (Account transaction) then
      match findAccount c (Account transaction) with
      | Some account => Some (Acct.id account)
      | None => None
      end
    else None in
  let regular_payee_name :=
    if truthy (Payee transaction) then Some (Payee transaction)
    else None in
  let notes := Some (or_ (Notes transaction) (JStr [])) in
  let '(payee, payee_name) :=
    if truthy (read (_isTransfer transaction))
       && truthy (read (_transferToAccount transaction))
    then
      match findTransferPayee c (read (_transferToAccount transaction)) with
      | Some transferPayee =>
          (Some (TransferPayee.id transferPayee), None)
      | None => (None, regular_payee_name)
      end
    else (None, regular_payee_name) in
  {| date := Date transaction;
     amount := Amount transaction;
     imported_id := imported_id;
     cleared := false;
     account := account;
     payee := payee;
     payee_name := payee_name;
     notes := notes;
     import_category :=
       if truthy (read (category transaction))
       then Some (read (category transaction)) else None |}.

(** The body of the [forEach] callback of [importTransactions], inside
    its [try]: the account key, or the message of the error thrown. *)
Definition resolve_account_key (c : Client)
           (transaction : ActualTransaction) : JsVal + jsstr :=
  if truthy (read (_accountId transaction))
  then inl (read (_accountId transaction))
  else if negb (truthy (Account transaction))
  then inr (str "Account is required")
  else
    match findAccount c (Account transaction) with
    | None =>
        inr (str "Account not found: " ++ ToString (Account transaction))
    | Some account => inl (JStr (Acct.id account))
    end.

(** The mirror record created for the destination of a transfer. *)
Definition mirrorTransaction (transaction : ActualTransaction)
           (importTransaction : ImportRecord)
           (transferPayee : TransferPayee.t) : ImportRecord :=
  {| date := Date transaction;
     amount := JNum (neg (ToNumber (Amount transaction)));
     imported_id := imported_id importTransaction ++ str "_mirror";
     cleared := false;
     account := None;
     payee := Some (TransferPayee.id transferPayee);
     payee_name := None;
     notes := Some (or_ (Notes transaction) (JStr []));
     import_category := None |}.

(** One step of the [forEach] of [importTransactions]. *)
Definition group_step (c : Client) (st : Groups * list Failure)
           (item : nat * ActualTransaction) : Groups * list Failure :=
  let '(transactionsByAccount, errors) := st in
  let '(index, transaction) := item in
  match resolve_account_key c transaction with
  | inr message =>
      (transactionsByAccount,
       errors ++ [{| failed_transaction := transaction;
                     failed_index := index;
                     error := message |}])
  | inl accountId =>
      let importTransaction := convertToImportFormat c transaction in
      let grouped :=
        push_entry accountId
          {| original := transaction;
             import := importTransaction;
             index := index;
             isMirrorTransfer := false |}
          transactionsByAccount in
      if truthy (read (_isTransfer transaction))
         && truthy (read (_transferToAccount transaction))
      then
        match findTransferPayee c (read (_transferToAccount transaction))
        with
        | Some transferPayee =>
            (push_entry (read (_transferToAccount transaction))
               {| original := transaction;
                  import := mirrorTransaction transaction
                              importTransaction transferPayee;
                  index := index;
                  isMirrorTransfer := true |}
               grouped,
             errors)
        | None => (grouped, errors)
        end
      else (grouped, errors)
  end.

(** [transactions.forEach((transaction, index) => ...)]: each element
    with its index. *)
Fixpoint indexed_from {A : Type} (start : nat) (l : list A)
  : list (nat * A) :=
  match l with
  | [] => []
  | x :: l' => (start, x) :: indexed_from (S start) l'
  end.

Definition indexed {A : Type} (l : list A) : list (nat * A) :=
  indexed_from 0 l.

Definition group_transactions (c : Client)
           (transactions : list ActualTransaction)
  : Groups * list Failure :=
  fold_left (group_step c) (indexed transactions) ([], []).

(** The batches [importTransactions] submits, one call of the ledger's
    batch import per key and in the order of the [Map]: the account key
    and [accountTransactions.map((t) => t.import)].  [None] when the
    client is not connected and the function throws. *)
Definition import_batches (c : Client)
           (transactions : list ActualTransaction)
  : option (list (JsVal * list ImportRecord)) :=
  if negb (connected c) then None
  else
    Some (List.map (fun g => (fst g, List.map import (snd g)))
                   (fst (group_transactions c transactions))).

End WithEngine.

End ActualClient.

(** ** src/transformer.js: the functions over batches of transactions *)

Module TransformerBatch.
Import Str Num Val Txn Transformer.
Local Open Scope exc_scope.

(** [Number.isFinite(v)]: no conversion is applied. *)
Definition Number_isFinite (v : JsVal) : bool :=
  match v with
  | JNum x => is_finite x
  | _ => false
  end.

(** [array.map(f)] for a callback that may throw: the first exception ends
    the call. *)
Fixpoint map_exc {A B : Type} (f : A -> Exc B) (l : list A) : Exc (list B) :=
  match l with
  | [] => Ok []
  | x :: l' =>
      y <- f x ;;
      ys <- map_exc f l' ;;
      Ok (y :: ys)
  end.

(** A [Map] keyed by values, in insertion order; the key equality is
    SameValueZero. *)
Definition ValMap (V : Type) : Type := list (JsVal * V).

Fixpoint ValMap_get {V : Type} (k : JsVal) (m : ValMap V) : option V :=
  match m with
  | [] => None
  | (k', v) :: m' =>
      if ActualClient.same_value_zero k k' then Some v
      else ValMap_get k m'
  end.

(** [if (!m.has(k)) m.set(k, []); m.get(k).push(x)] *)
Fixpoint ValMap_push {V : Type} (k : JsVal) (x : V) (m : ValMap (list V))
  : ValMap (list V) :=
  match m with
  | [] => [(k, [x])]
  | (k', xs) :: m' =>
      if ActualClient.same_value_zero k k' then (k', xs ++ [x]) :: m'
      else (k', xs) :: ValMap_push k x m'
  end.

(** [{isValid, errors}] *)
Record Validation : Type := {
  isValid : bool;
  errors : list jsstr
}.

Section WithEngine.
Context {E : Engine}.

(** [shouldIncludeTransaction] *)
Definition excludedTypes : list jsstr :=
  [str "market sell"; str "market buy"; str "fractional buy";
   str "dividend reinvested"; str "funds converted"].

Definition shouldIncludeTransaction (transaction : WsTransaction)
  : Exc bool :=
  type <- call_toLowerCase (or_ (type transaction) (JStr [])) ;;
  Ok (negb (existsb (Str.eqb type) excludedTypes)).

(** [transformTransactions] (the warning it logs is not modelled). *)
Definition transformTransactions (wsTransactions : list WsTransaction)
           (options : Options) : Exc (list ActualTransaction) :=
  transformed <-
    map_exc (fun transaction => transformTransaction transaction options)
            wsTransactions ;;
  Ok (filter (fun transaction => Number_isFinite (Amount transaction))
             transformed).

End WithEngine.

(** [groupByAccount] *)
Definition account_key (transaction : ActualTransaction) : JsVal :=
  or_ (Account transaction) (JStr (str "Unknown")).

Definition groupByAccount (transactions : list ActualTransaction)
  : ValMap (list ActualTransaction) :=
  fold_left
    (fun grouped transaction =>
       ValMap_push (account_key transaction) transaction grouped)
    transactions [].

(** [s.split(' ')[0]]: what stands before the first space. *)
Fixpoint before_space (s : jsstr) : jsstr :=
  match s with
  | [] => []
  | c :: s' => if (c =? ch " ")%N then [] else c :: before_space s'
  end.

(** [extractTypeFromNotes] *)
Definition extractTypeFromNotes (notes : JsVal) : JsVal :=
  match notes with
  | JStr s =>
      if is_empty s then JNull
      else
        let firstWord := before_space (trim s) in
        or_ (JStr firstWord) JNull
  | _ => JNull
  end.

(** [typeof v === 'number'], [typeof v === 'string'] *)
Definition is_number (v : JsVal) : bool :=
  match v with JNum _ => true | _ => false end.

Definition is_string (v : JsVal) : bool :=
  match v with JStr _ => true | _ => false end.

(** [validateTransaction] *)
Definition validateTransaction (transaction : ActualTransaction)
  : Validation :=
  let errors :=
    (if negb (truthy (Date transaction))
     then [str "Missing transaction date"] else [])
    ++ (if negb (is_number (Amount transaction))
        then [str "Invalid amount"] else [])
    ++ (if negb (truthy (Account transaction))
        then [str "Missing account"] else [])
    ++ (if truthy (Notes transaction)
           && negb (is_string (Notes transaction))
        then [str "Notes must be a string"] else []) in
  {| isValid := (length errors =? 0)%nat; errors := errors |}.

End TransformerBatch.

(** ** src/parser.js: the rows of a scraped transaction *)

Module ParserRows.
Import Str Num Val Parser.

(** A plain object with string keys: its own properties, in order. *)
Definition Obj : Type := ActualClient.StrMap JsVal.

(** [o[k]] for a key that [Object.prototype] does not have. *)
Definition get (k : jsstr) (o : Obj) : JsVal :=
  match ActualClient.Map_get k o with
  | Some v => v
  | None => JUndefined
  end.

(** [o[k] = v] *)
Definition set (k : jsstr) (v : JsVal) (o : Obj) : Obj :=
  ActualClient.Map_set k v o.

(** [{ ...a, ...b }] *)
Definition spread (a b : Obj) : Obj :=
  fold_left (fun o kv => set (fst kv) (snd kv) o) b a.

(** A row of the details pane, [{name, value}]: the name is the text of
    the first cell, the value the text of the second, or [undefined]. *)
Record Field : Type := {
  name : jsstr;
  value : option jsstr
}.

(** What [processTransactionDetails] returns: the rows, when there are
    any, and the description and subheading of the summary line, when they
    were found. *)
Record RawData : Type := {
  fields : option (list Field);
  description : option jsstr;
  subheading : option jsstr
}.

Definition of_value (value : option jsstr) : JsVal :=
  match value with
  | Some s => JStr s
  | None => JUndefined
  end.

(** The value when it is truthy: [None] for [!value]. *)
Definition truthy_value (value : option jsstr) : option jsstr :=
  match value with
  | Some s => if is_empty s then None else Some s
  | None => None
  end.

(** What the host provides besides the engine: the part of [parseDate]
    that rests on date-fns and on the local time zone, and the properties
    every object inherits. *)
Class Host : Type := {
  (** The [YYYY-MM-DD] date [parseDate] makes of a non-empty text, [None]
      when no format fits *)
  dateOf : jsstr -> option jsstr;
  (** For the name of a property of [Object.prototype], the property key
      its value converts to *)
  inheritedKey : jsstr -> option jsstr;
  (** [Object.prototype] has the properties of the standard and no
      other *)
  inheritedKey_names :
    forall n k,
      inheritedKey n = Some k ->
      In n (List.map str
              ["constructor"; "__defineGetter__"; "__defineSetter__";
               "hasOwnProperty"; "__lookupGetter__"; "__lookupSetter__";
               "isPrototypeOf"; "propertyIsEnumerable"; "toString";
               "valueOf"; "__proto__"; "toLocaleString"]%string)
}.

Fixpoint lookup (k : jsstr) (l : list (jsstr * jsstr)) : option jsstr :=
  match l with
  | [] => None
  | (k', v) :: l' => if Str.eqb k k' then Some v else lookup k l'
  end.

Definition simpleFields : list (jsstr * jsstr) :=
  [(str "account", str "account");
   (str "from", str "from");
   (str "to", str "to");
   (str "status", str "status");
   (str "type", str "type");
   (str "email", str "email");
   (str "message", str "message");
   (str "entered quantity", str "enteredQuantity");
   (str "filled quantity", str "filledQuantity");
   (str "account number", str "accountNumber");
   (str "transaction id", str "transactionId")].

Definition dateFields : list jsstr :=
  [str "date"; str "submitted"; str "filled"].

Definition amountFields : list jsstr :=
  [str "total"; str "amount"; str "total value"; str "total cost";
   str "estimated amount"].

Section WithHost.
Context {E : Engine} {H : Host}.

(** [parseDate]: the guard, then the host. *)
Definition parseDate (value : option jsstr) : JsVal :=
  match truthy_value value with
  | None => JNull
  | Some v =>
      match dateOf v with
      | Some ymd => JStr ymd
      | None => JNull
      end
  end.

(** [simpleFields[normalizedName]]: an own property, or an inherited
    one; all of them are truthy. *)
Definition simple_field (normalizedName : jsstr) : option jsstr :=
  match lookup normalizedName simpleFields with
  | Some key => Some key
  | None => inheritedKey normalizedName
  end.

(** [parseRow] (the warnings it logs are not modelled). *)
Definition parseRow (name : jsstr) (value : option jsstr) : Obj :=
  let normalizedName := toLowerCase name in
  match simple_field normalizedName with
  | Some key => [(key, of_value value)]
  | None =>
      if existsb (Str.eqb normalizedName) dateFields then
        [(normalizedName, parseDate value)]
      else if Str.eqb normalizedName (str "original amount") then
        match truthy_value value with
        | None => []
        | Some v =>
            let parsed := parseCurrencyValue v in
            if strict_eq (amount parsed) JNull then []
            else [(str "originalAmount", amount parsed);
                  (str "originalCurrency", currency parsed)]
        end
      else if Str.eqb normalizedName (str "exchange rate") then
        match truthy_value value with
        | None => []
        | Some v => [(str "exchangeRate", JNum (NumLit.parseFloat v))]
        end
      else if existsb (Str.eqb normalizedName) amountFields then
        match truthy_value value with
        | None => []
        | Some v =>
            let parsed := parseCurrencyValue v in
            if strict_eq (amount parsed) JNull then
              [(str "amount", JNull); (str "amountCurrency", JUndefined)]
            else
              let amount :=
                if Str.eqb normalizedName (str "total cost")
                then JNum (neg (Math_abs (ToNumber (amount parsed))))
                else amount parsed in
              [(str "amount", amount);
               (str "amountCurrency", currency parsed)]
        end
      else if includes normalizedName (str "spend rewards") then
        match truthy_value value with
        | None => []
        | Some v =>
            let parsed := parseCurrencyValue v in
            if strict_eq (amount parsed) JNull then []
            else [(str "spendRewards", amount parsed);
                  (str "spendRewardsCurrency", currency parsed)]
        end
      else []
  end.

(** The [for (const field of rawData.fields)] loop of
    [parseTransaction]. *)
Definition parse_rows (fs : list Field) : Obj :=
  fold_left (fun transaction field =>
               spread transaction (parseRow (name field) (value field)))
            fs [].

(** [v ?? d] *)
Definition nullish (v d : JsVal) : JsVal :=
  match v with
  | JUndefined | JNull => d
  | _ => v
  end.

(** [parseTransaction], in the later of the two versions of the file, the
    one that records the subheading; [None] is [null]. *)
Definition parseTransaction (rawData : option RawData) : option Obj :=
  match rawData with
  | None => None
  | Some rawData =>
      match fields rawData with
      | None => None
      | Some fs =>
          let transaction := parse_rows fs in
          let transaction :=
            match truthy_value (description rawData) with
            | Some d => set (str "description") (JStr d) transaction
            | None => transaction
            end in
          let transaction :=
            match truthy_value (subheading rawData) with
            | Some s => set (str "subheading") (JStr s) transaction
            | None => transaction
            end in
          let transaction :=
            match truthy_value (subheading rawData) with
            | Some s =>
                if negb (truthy (get (str "type") transaction))
                then set (str "type") (JStr s) transaction
                else transaction
            | None => transaction
            end in
          let transaction :=
            if negb (truthy (get (str "account") transaction))
               && truthy (or_ (get (str "to") transaction)
                              (get (str "from") transaction))
            then
              set (str "account")
                  (if ltb (ToNumber
                             (nullish (get (str "amount") transaction)
                                      (JNum pzero)))
                          pzero
                   then get (str "from") transaction
                   else get (str "to") transaction)
                  transaction
            else transaction in
          if (length transaction =? 0)%nat then None else Some transaction
      end
  end.

End WithHost.

(** The record [transformTransaction] reads out of a parsed transaction.
    A pre-stored [_transferInfo] that is not an object has neither of the
    two properties read from it. *)
Definition as_record (t : Obj) : Transformer.WsTransaction :=
  {| Transformer.account := get (str "account") t;
     Transformer.date := get (str "date") t;
     Transformer.filled := get (str "filled") t;
     Transformer.submitted := get (str "submitted") t;
     Transformer.amount := get (str "amount") t;
     Transformer.type := get (str "type") t;
     Transformer.description := get (str "description") t;
     Transformer.subheading := get (str "subheading") t;
     Transformer.email := get (str "email") t;
     Transformer.message := get (str "message") t;
     Transformer.filledQuantity := get (str "filledQuantity") t;
     Transformer.transactionId := get (str "transactionId") t;
     Transformer.from := get (str "from") t;
     Transformer.to := get (str "to") t;
     Transformer._transferInfo :=
       if truthy (get (str "_transferInfo") t)
       then Some {| Transformer.isTransfer := JUndefined;
                    Transformer.toAccount := JUndefined |}
       else None |}.

End ParserRows.

(** ** src/csv-parser.js: amounts and accounts of the records of a CSV
    export *)

Module CsvParser.
Import Str Num Val Transformer.

(** [/[$,\s]/] *)
Definition is_symbol (c : N) : bool :=
  (c =? ch "$")%N || (c =? ch ",")%N || is_space c.

(** [s.replace(/[()]/g, (match) => (match === '(' ? '-' : ''))] *)
Definition replace_parens (s : jsstr) : jsstr :=
  flat_map (fun c => if (c =? ch "(")%N then [ch "-"]
                     else if (c =? ch ")")%N then []
                     else [c])
           s.

(** [a < b] on strings: the first code unit that differs decides, and a
    proper prefix comes first. *)
Fixpoint lt_units (s t : jsstr) : bool :=
  match s, t with
  | _, [] => false
  | [], _ :: _ => true
  | a :: s', b :: t' => (a <? b)%N || ((a =? b)%N && lt_units s' t')
  end.

(** [set.add(v)], on the elements of a [Set] in insertion order. *)
Definition Set_add (v : JsVal) (s : list JsVal) : list JsVal :=
  if existsb (ActualClient.same_value_zero v) s then s else s ++ [v].

Section WithEngine.
Context {E : Engine}.

(** [parseAmount] *)
Definition parseAmount (amountStr : JsVal) : number :=
  if negb (truthy amountStr) then pzero
  else
    let cleaned :=
      replace_parens (remove_all is_symbol (ToString amountStr)) in
    let amount := NumLit.parseFloat cleaned in
    if is_nan amount then pzero else amount.

(** The default comparison of [array.sort()]: [undefined] goes last, the
    other elements go by their string forms. *)
Definition sorts_before (x y : JsVal) : bool :=
  match x, y with
  | JUndefined, _ => false
  | _, JUndefined => true
  | _, _ => lt_units (ToString x) (ToString y)
  end.

(** [array.sort()].  The sort is stable, which fixes its result: each
    element in turn goes before the first element it sorts before. *)
Fixpoint insert_sorted (x : JsVal) (l : list JsVal) : list JsVal :=
  match l with
  | [] => [x]
  | y :: l' => if sorts_before x y then x :: l else y :: insert_sorted x l'
  end.

Definition sort (l : list JsVal) : list JsVal :=
  fold_left (fun sorted x => insert_sorted x sorted) l [].

(** [getUniqueAccounts] *)
Definition getUniqueAccounts (transactions : list WsTransaction)
  : list JsVal :=
  let accounts :=
    fold_left
      (fun accounts t =>
         if truthy (account t) then Set_add (account t) accounts
         else accounts)
      transactions [] in
  sort accounts.

End WithEngine.

End CsvParser.

(** ** A host for running the program on concrete inputs

    [Host.engine] is a stand-in for the engine: it agrees with ECMAScript
    on ASCII text and on the calendar dates written [YYYY-MM-DD].  It reads
    no other date (an engine may: V8 takes other formats, and rolls
    [2024-02-30] over into March), prints no Number but the integers up to
    2^53 and compiles no user-supplied regular expression; the concrete
    runs below stay where it agrees.  No theorem but those runs uses it. *)

Module Host.
Import Str Val.

Definition toLowerCase (s : jsstr) : jsstr := List.map ascii_lower s.

Definition days_in_month (y m : Z) : Z :=
  if (m =? 2) then
    (if ((y mod 4 =? 0) && negb (y mod 100 =? 0)) || (y mod 400 =? 0)
     then 29 else 28)
  else if (m =? 4) || (m =? 6) || (m =? 9) || (m =? 11) then 30
  else 31.

(** A calendar date written [YYYY-MM-DD] denotes itself; anything else is
    taken to be an invalid date, also what an engine would read. *)
Definition isoDateOf (v : JsVal) : option jsstr :=
  match v with
  | JStr ([y1; y2; y3; y4; d1; m1; m2; d2; a1; a2] as s) =>
      if forallb is_digit [y1; y2; y3; y4; m1; m2; a1; a2]
         && (d1 =? ch "-")%N && (d2 =? ch "-")%N
      then
        let y := digits_to_Z [y1; y2; y3; y4] in
        let m := digits_to_Z [m1; m2] in
        let d := digits_to_Z [a1; a2] in
        if (1 <=? m) && (m <=? 12) && (1 <=? d) && (d <=? days_in_month y m)
        then Some s else None
      else None
  | _ => None
  end.

Definition engine : Engine :=
  {| Val.toLowerCase := toLowerCase;
     Val.toLowerCase_empty := eq_refl;
     Val.shortestToString := fun _ => [];
     Val.isoDateOf := isoDateOf;
     Val.RegExp_i_test := fun _ _ => None |}.

End Host.

(** ** The rest of the host: a stand-in for date-fns, and [Object.prototype]
       as Node has it

    Like [Host.engine], [NodeHost.host] is used by the concrete runs only,
    at texts it reads as the program does. *)

Module NodeHost.
Import Str Val.

Definition months : list jsstr :=
  [str "January"; str "February"; str "March"; str "April"; str "May";
   str "June"; str "July"; str "August"; str "September"; str "October";
   str "November"; str "December"].

Fixpoint month_number (name : jsstr) (ms : list jsstr) (n : Z)
  : option Z :=
  match ms with
  | [] => None
  | m :: ms' =>
      if Str.eqb name m then Some n else month_number name ms' (n + 1)
  end.

Definition two_digits (n : Z) : jsstr :=
  if n <? 10 then ch "0" :: Z_to_digits n else Z_to_digits n.

(** A time of day written [h:mm a]: an hour from 1 to 12, the minutes,
    and am or pm. *)
Definition time_of_day (s : jsstr) : bool :=
  let '(hour, r) := span is_digit s in
  match r with
  | [colon; m1; m2; sp; a; m] =>
      (colon =? ch ":")%N && is_digit m1 && is_digit m2 && (sp =? 32)%N
      && negb (is_empty hour) && (length hour <=? 2)%nat
      && (1 <=? digits_to_Z hour) && (digits_to_Z hour <=? 12)
      && (digits_to_Z [m1; m2] <=? 59)
      && ((ascii_lower a =? ch "a")%N || (ascii_lower a =? ch "p")%N)
      && (ascii_lower m =? ch "m")%N
  | _ => false
  end.

(** Reads [MMMM d, yyyy], alone or followed by a space and a time of day;
    every other text is taken to be unreadable, also the relative dates and
    the irregular spacing [parseDate] copes with. *)
Definition dateOf (s : jsstr) : option jsstr :=
  let '(month, r1) := span (fun c => is_upper c || is_lower c) s in
  match month_number month months 1, r1 with
  | Some m, sp :: r2 =>
      let '(day, r3) := span is_digit r2 in
      match r3 with
      | comma :: sp2 :: r4 =>
          let '(year, r5) := span is_digit r4 in
          if (sp =? 32)%N && (comma =? ch ",")%N && (sp2 =? 32)%N
             && negb (is_empty day) && (length day <=? 2)%nat
             && (length year =? 4)%nat
             && (1 <=? digits_to_Z day)
             && (digits_to_Z day
                 <=? Host.days_in_month (digits_to_Z year) m)
             && match r5 with
                | [] => true
                | c :: r6 => (c =? 32)%N && time_of_day r6
                end
          then Some (year ++ str "-" ++ two_digits m ++ str "-"
                     ++ two_digits (digits_to_Z day))
          else None
      | _ => None
      end
  | _, _ => None
  end.

(** The properties of [Object.prototype], each with the property key its
    value converts to. *)
Definition native (name : string) : jsstr * jsstr :=
  (str name, str "function " ++ str name ++ str "() { [native code] }").

Definition objectPrototype : list (jsstr * jsstr) :=
  [(str "constructor", str "function Object() { [native code] }");
   native "__defineGetter__"; native "__defineSetter__";
   native "hasOwnProperty"; native "__lookupGetter__";
   native "__lookupSetter__"; native "isPrototypeOf";
   native "propertyIsEnumerable"; native "toString"; native "valueOf";
   (str "__proto__", str "[object Object]");
   native "toLocaleString"].

Definition inheritedKey (n : jsstr) : option jsstr :=
  ParserRows.lookup n objectPrototype.

Lemma lookup_In (n k : jsstr) (l : list (jsstr * jsstr)) :
  ParserRows.lookup n l = Some k -> In n (List.map fst l).
Proof.
  induction l as [|[k' v] l IH]; simpl; [discriminate|].
  unfold Str.eqb. destruct (list_eq_dec N.eq_dec n k') as [-> | _].
  - intros _. left. reflexivity.
  - intros H. right. apply IH, H.
Qed.

Definition host : ParserRows.Host :=
  {| ParserRows.dateOf := dateOf;
     ParserRows.inheritedKey := inheritedKey;
     ParserRows.inheritedKey_names :=
       fun n k H => lookup_In n k objectPrototype H |}.

End NodeHost.

(* ================================================================== *)
(** * Part III — the vocabulary of the specification                    *)
(* ================================================================== *)

(** ** What a pattern matches *)

Module RegexSem.
Import Str Regex.

(** [steps r st st']: the pattern [r] matches from the state [st] and leaves
    the state [st']; the relation the backtracking matcher searches. *)
Inductive steps : regex -> mstate -> mstate -> Prop :=
| steps_eps st :
    steps Eps st st
| steps_chr p c s n cs :
    p c = true ->
    steps (Chr p) (MState n (c :: s) cs) (MState (S n) s cs)
| steps_seq r1 r2 st st1 st2 :
    steps r1 st st1 -> steps r2 st1 st2 -> steps (Seq r1 r2) st st2
| steps_alt_l r1 r2 st st' :
    steps r1 st st' -> steps (Alt r1 r2) st st'
| steps_alt_r r1 r2 st st' :
    steps r2 st st' -> steps (Alt r1 r2) st st'
| steps_star_done g r st :
    steps (Star g r) st st
| steps_star_more g r st st1 st2 :
    steps r st st1 ->
    (length (rest st1) < length (rest st))%nat ->
    steps (Star g r) st1 st2 ->
    steps (Star g r) st st2
| steps_group i r st st' :
    steps r st st' -> steps (Group i r) st (capture i st st')
| steps_bol st :
    pos st = 0%nat -> steps Bol st st
| steps_eol st :
    rest st = [] -> steps Eol st st.

(** From [st] to [st'] exactly the code units [w] were consumed, and no
    capture was recorded. *)
Definition consumed (st : mstate) (w : jsstr) (st' : mstate) : Prop :=
  rest st = w ++ rest st'
  /\ pos st' = (pos st + length w)%nat
  /\ caps st' = caps st.

(** The same, with the capture [(i, w)] recorded on top. *)
Definition recorded (i : nat) (st : mstate) (w : jsstr) (st' : mstate)
  : Prop :=
  rest st = w ++ rest st'
  /\ pos st' = (pos st + length w)%nat
  /\ caps st' = (i, w) :: caps st.

(** The captures after an optional group: nothing is recorded when the
    group did not take part. *)
Definition optional_capture (i : nat) (w : jsstr)
           (cs : list (nat * jsstr)) : list (nat * jsstr) :=
  if is_empty w then cs else (i, w) :: cs.

Definition maybe_recorded (i : nat) (st : mstate) (w : jsstr) (st' : mstate)
  : Prop :=
  rest st = w ++ rest st'
  /\ pos st' = (pos st + length w)%nat
  /\ caps st' = optional_capture i w (caps st).

(** Nothing, or one code unit of the class [p]. *)
Definition optional (p : N -> bool) (w : jsstr) : bool :=
  match w with
  | [] => true
  | [c] => p c
  | _ => false
  end.

End RegexSem.

Module Spec.
Import Str Num Val Txn Transformer RegexSem.

(** *** Field types *)

(** A text field holds a string, [null], or nothing. *)
Definition is_text (v : JsVal) : bool :=
  match v with
  | JUndefined | JNull | JStr _ => true
  | JBool _ | JNum _ => false
  end.

(** The amount may also be a number. *)
Definition is_amount (v : JsVal) : bool :=
  match v with
  | JNum _ => true
  | _ => is_text v
  end.

(** Every field of the raw record is a string, a number (amount only),
    [null] or absent. *)
Definition well_typed (r : WsTransaction) : bool :=
  forallb is_text
    [account r; date r; filled r; submitted r; type r; description r;
     subheading r; email r; message r; filledQuantity r; transactionId r;
     from r; to r]
  && is_amount (amount r).

(** A field that is absent, [null], or the empty string. *)
Definition blank (v : JsVal) : bool :=
  match v with
  | JUndefined | JNull => true
  | JStr s => is_empty s
  | _ => false
  end.

Definition all_blank (r : WsTransaction) : bool :=
  forallb blank
    [account r; date r; filled r; submitted r; amount r; type r;
     description r; subheading r; email r; message r; filledQuantity r;
     transactionId r; from r; to r].

(** The string a text field holds; empty when it holds none. *)
Definition text_of (v : JsVal) : jsstr :=
  match v with
  | JStr s => s
  | _ => []
  end.

(** *** Transfers *)

(** The transfer information [transformTransaction] acts on: the
    pre-stored one when the record carries it, else what [detectTransfer]
    finds. *)
Definition effective_transfer (r : WsTransaction) (o : Options)
  : TransferInfo :=
  match _transferInfo r with
  | Some stored => stored
  | None => detectTransfer r (isAccountMapped o)
  end.

Definition transfer_detected (r : WsTransaction) (o : Options) : bool :=
  truthy (isTransfer (effective_transfer r o)).

(** The transfer condition in the words of the specification: [from] and
    [to] both present, not equal, and both accepted by the predicate; no
    transfer without a predicate. *)
Definition transfer_as_specified (r : WsTransaction) (o : Options) : bool :=
  truthy (from r) && truthy (to r) && negb (strict_eq (from r) (to r))
  && match isAccountMapped o with
     | Some mapped => mapped (from r) && mapped (to r)
     | None => false
     end.



(** The output carries the transfer keys. *)
Definition marked (t : ActualTransaction) : bool :=
  match _isTransfer t, _transferToAccount t with
  | Some (JBool true), Some _ => true
  | _, _ => false
  end.

Definition unmarked (t : ActualTransaction) : bool :=
  match _isTransfer t, _transferToAccount t with
  | None, None => true
  | _, _ => false
  end.

(** *** Debit / credit *)

Inductive Direction : Type := Debit | Credit.

Definition has_keyword (lowerType : jsstr) (keywords : list jsstr) : bool :=
  existsb (fun k => includes lowerType k) keywords.

(** The classification, in the order the specification gives it. *)
Definition classify (lowerType : jsstr) (rawAmount : number) : Direction :=
  if has_keyword lowerType debitTypes then Debit
  else if ltb rawAmount pzero then Debit
  else if has_keyword lowerType creditTypes then Credit
  else Credit.

Definition signed (d : Direction) (cents : number) : number :=
  match d with
  | Debit => neg (Math_abs cents)
  | Credit => Math_abs cents
  end.

(** The lower-cased type of a record. *)
Definition lower_type {E : Engine} (r : WsTransaction) : jsstr :=
  toLowerCase (text_of (type r)).

(** *** Rounding *)

(** The amount is missing: [''], [null] or [undefined]. *)
Definition missing_amount (v : JsVal) : bool :=
  match v with
  | JUndefined | JNull => true
  | JStr s => is_empty s
  | _ => false
  end.

(** Round half away from zero, as the specification words it: standard
    rounding for a non-negative value, and negate, round, negate for a
    negative one. *)
Definition round_half_away (rawCents : number) : number :=
  if geb rawCents pzero then Math_round rawCents
  else neg (Math_round (neg rawCents)).

(** [n] is the integer nearest to [m * 2^e], the larger one on a tie. *)
Definition nearest_ties_up (n : Z) (m : positive) (e : Z) : Prop :=
  if 0 <=? e then n = Zpos m * 2 ^ e
  else (2 * n - 1) * 2 ^ (- e) <= 2 * Zpos m < (2 * n + 1) * 2 ^ (- e).

(** The dollars-to-cents conversion of a numeric amount. *)
Definition cents (d : number) : number := amountInCents (JNum d).

(** The double nearest to 10.555. *)
Definition d10_555 : number := of_decimal false 10555 (-3).

(** *** Notes *)

(** A field with its surrounding white space removed. *)
Definition trimmed (v : JsVal) : jsstr := trim (text_of v).

Definition nonempty (s : jsstr) : bool := negb (is_empty s).

(** The notes of an ordinary record, following the specification, each
    field taken trimmed and present when it is then non-empty. *)
Definition notes_of (r : WsTransaction) : jsstr :=
  let subheading := trimmed (subheading r) in
  let type := trimmed (type r) in
  let email := trimmed (email r) in
  let message := trimmed (message r) in
  let quantity := trimmed (filledQuantity r) in
  let id := trimmed (transactionId r) in
  let main :=
    if nonempty subheading && nonempty type
       && negb (Str.eqb subheading type)
    then subheading ++ str " - " ++ type
    else if nonempty subheading then subheading
    else type in
  let main :=
    if nonempty email then main ++ str " (" ++ email ++ str ")" else main in
  let bracketed := str "[" ++ id ++ str "]" in
  if nonempty message || nonempty quantity then
    main ++ str ": "
    ++ join (str " ")
         (filter nonempty
            [message; quantity; if nonempty id then bracketed else []])
  else if nonempty id then main ++ str " " ++ bracketed
  else main.

(** The same text with the fields read as they are, untrimmed: the literal
    reading of the specification. *)
Definition notes_untrimmed (r : WsTransaction) : jsstr :=
  let subheading := text_of (subheading r) in
  let type := text_of (type r) in
  let email := text_of (email r) in
  let message := text_of (message r) in
  let quantity := text_of (filledQuantity r) in
  let id := text_of (transactionId r) in
  let main :=
    if nonempty subheading && nonempty type
       && negb (Str.eqb subheading type)
    then subheading ++ str " - " ++ type
    else if nonempty subheading then subheading
    else type in
  let main :=
    if nonempty email then main ++ str " (" ++ email ++ str ")" else main in
  let bracketed := str "[" ++ id ++ str "]" in
  if nonempty message || nonempty quantity then
    main ++ str ": "
    ++ join (str " ")
         (filter nonempty
            [message; quantity; if nonempty id then bracketed else []])
  else if nonempty id then main ++ str " " ++ bracketed
  else main.

(** The notes of a transfer. *)
Definition transfer_notes (r : WsTransaction) : jsstr :=
  text_of (from r) ++ str " -> " ++ text_of (to r).

(** *** Concrete records *)

Definition txt (s : string) : JsVal := JStr (str s).

(** The record with no key at all. *)
Definition empty_record : WsTransaction :=
  {| account := JUndefined; date := JUndefined; filled := JUndefined;
     submitted := JUndefined; amount := JUndefined; type := JUndefined;
     description := JUndefined; subheading := JUndefined;
     email := JUndefined; message := JUndefined;
     filledQuantity := JUndefined; transactionId := JUndefined;
     from := JUndefined; to := JUndefined; _transferInfo := None |}.

(** [{account, from, to, amount: '500.00'}] *)
Definition transfer_record (account from to : string) : WsTransaction :=
  {| account := txt account; date := JUndefined; filled := JUndefined;
     submitted := JUndefined; amount := txt "500.00"; type := JUndefined;
     description := JUndefined; subheading := JUndefined;
     email := JUndefined; message := JUndefined;
     filledQuantity := JUndefined; transactionId := JUndefined;
     from := txt from; to := txt to; _transferInfo := None |}.


(** [{type, amount}] *)
Definition typed_record (type : string) (amount : JsVal) : WsTransaction :=
  {| account := JUndefined; date := JUndefined; filled := JUndefined;
     submitted := JUndefined; amount := amount; type := txt type;
     description := JUndefined; subheading := JUndefined;
     email := JUndefined; message := JUndefined;
     filledQuantity := JUndefined; transactionId := JUndefined;
     from := JUndefined; to := JUndefined; _transferInfo := None |}.

(** The salary deposit of the specification's scenario. *)
Definition salary_record : WsTransaction :=
  {| account := JUndefined; date := txt "2024-01-15";
     filled := txt "2024-01-16T10:01:00Z"; submitted := JUndefined;
     amount := txt "100.50"; type := txt "deposit";
     description := txt "Salary deposit"; subheading := JUndefined;
     email := txt "u@x.com"; message := txt "Biweekly";
     filledQuantity := JUndefined; transactionId := txt "t1";
     from := JUndefined; to := JUndefined; _transferInfo := None |}.

(** An [isAccountMapped] that knows the listed account names. *)
Definition mapped_among (names : list string) : Options :=
  {| isAccountMapped :=
       Some (fun v => existsb (fun n => strict_eq v (txt n)) names) |}.

(** *** Account resolution *)

(** An entry the resolver considers: both of its fields are present. *)
Definition usable (a : Config.AccountMapping) : bool :=
  negb (is_empty (Config.wsAccountName a))
  && negb (is_empty (Config.actualAccountId a)).

Definition is_regex_pattern (pattern : jsstr) : bool :=
  existsb Config.is_regex_char pattern.

(** A pattern matches a name: exactly and case-insensitively when it has no
    regex metacharacter, as the case-insensitive regex [^pattern$]
    otherwise. *)
Definition pattern_matches {E : Engine} (pattern name : jsstr) : bool :=
  if is_regex_pattern pattern then
    match RegExp_i_test (str "^" ++ pattern ++ str "$") name with
    | Some true => true
    | _ => false
    end
  else Str.eqb (toLowerCase pattern) (toLowerCase name).

(** What is returned for the entry [a] matching [name]. *)
Definition resolution_of (a : Config.AccountMapping) (name : jsstr)
  : Config.Resolution :=
  {| Config.accountId := Config.actualAccountId a;
     Config.accountName := name;
     Config.needsLookup := false;
     Config.matchType :=
       if is_regex_pattern (Config.wsAccountName a)
       then str "regex" else str "exact";
     Config.matchedPattern := Config.wsAccountName a |}.

Definition config_of (accts : list Config.AccountMapping)
  : option Config.ConfigFile :=
  Some {| Config.accounts := Some accts |}.

(** An entry without an account id, followed by one that has it. *)
Definition cash_accounts : list Config.AccountMapping :=
  [ {| Config.wsAccountName := str "Cash";
       Config.actualAccountId := [] |};
    {| Config.wsAccountName := str "cash";
       Config.actualAccountId := str "acc-2" |} ].

(** *** Currency text *)

(** The grammar of the specification:
    [[sign]? $? [sign]? digits[,digits]*[.dd]? [CCY]?], with optional
    white space between its parts. *)
Definition currency_grammar : Regex.regex :=
  let digits := Regex.Plus true (Regex.Chr is_digit) in
  Regex.Seq Regex.Bol
   (Regex.Seq (Regex.Opt (Regex.Chr Parser.is_sign))
   (Regex.Seq Parser.spaces
   (Regex.Seq (Regex.Opt (Regex.Chr (Regex.exact (ch "$"))))
   (Regex.Seq (Regex.Opt (Regex.Chr Parser.is_sign))
   (Regex.Seq Parser.spaces
   (Regex.Seq digits
   (Regex.Seq (Regex.Star true
                 (Regex.Seq (Regex.Chr (Regex.exact (ch ","))) digits))
   (Regex.Seq (Regex.Opt
                 (Regex.Seq (Regex.Chr (Regex.exact (ch ".")))
                            (Regex.Times 2 (Regex.Chr is_digit))))
   (Regex.Seq Parser.spaces
   (Regex.Seq (Regex.Opt (Regex.Times 3 (Regex.Chr is_upper)))
              Regex.Eol)))))))))).

(** A reading of a text as a currency amount, part by part: a sign, white
    space, the dollar glyph, a second sign, white space, the run of digits
    and commas, the decimals, white space, the currency code. *)
Record Reading : Type := {
  sign1 : jsstr;
  gap1 : jsstr;
  dollar : jsstr;
  sign2 : jsstr;
  gap2 : jsstr;
  run : jsstr;
  decimals : jsstr;
  gap3 : jsstr;
  code : jsstr
}.

Definition reading_text (r : Reading) : jsstr :=
  sign1 r ++ gap1 r ++ dollar r ++ sign2 r ++ gap2 r ++ run r ++ decimals r
  ++ gap3 r ++ code r.

Definition is_digit_or_comma (c : N) : bool := is_digit c || (c =? ch ",")%N.

(** Nothing, or a dot and two digits. *)
Definition is_decimals (s : jsstr) : bool :=
  match s with
  | [] => true
  | [p; d1; d2] => (p =? ch ".")%N && is_digit d1 && is_digit d2
  | _ => false
  end.

(** Nothing, or three capital letters. *)
Definition is_code (s : jsstr) : bool :=
  is_empty s || ((length s =? 3)%nat && forallb is_upper s).

(** The parts are what the pattern of the code allows: the run is a
    non-empty arrangement of digits and commas, the decimals are a dot and
    two digits, the code is three capital letters. *)
Definition well_formed (r : Reading) : bool :=
  optional Parser.is_sign (sign1 r)
  && forallb is_space (gap1 r)
  && optional (Regex.exact (ch "$")) (dollar r)
  && optional Parser.is_sign (sign2 r)
  && forallb is_space (gap2 r)
  && negb (is_empty (run r)) && forallb is_digit_or_comma (run r)
  && is_decimals (decimals r)
  && forallb is_space (gap3 r)
  && is_code (code r).

(** The text [value] reads as [r]. *)
Definition reads_as (value : jsstr) (r : Reading) : Prop :=
  value = reading_text r /\ well_formed r = true.

(** What stands before the run of digits, and the first sign in it. *)
Definition lead (r : Reading) : jsstr :=
  sign1 r ++ gap1 r ++ dollar r ++ sign2 r ++ gap2 r.

Definition sign_text (r : Reading) : jsstr :=
  if is_empty (sign1 r) then sign2 r else sign1 r.

(** The sign of a reading: that of its first sign. *)
Definition reading_sign (r : Reading) : number :=
  let signChar := sign_text r in
  if Str.eqb signChar [8722%N] || Str.eqb signChar (str "-")
  then of_Z (-1) else of_Z 1.

(** The digits of a reading: the run without its commas, then the
    decimals. *)
Definition reading_digits (r : Reading) : jsstr :=
  remove_all (fun c => (c =? ch ",")%N) (run r ++ decimals r).

Definition reading_currency (r : Reading) : JsVal :=
  if is_empty (code r) then JUndefined else JStr (code r).

(** The number a reading with a digit in its run denotes: its digits as an
    integer, scaled by the number of decimals. *)
Definition reading_number (r : Reading) : number :=
  of_decimal false
    (digits_to_Z (filter is_digit (run r) ++ skipn 1 (decimals r)))
    (- Z.of_nat (length (skipn 1 (decimals r)))).

(** The signed numeric value of a reading, with its currency code. *)
Definition reading_value (r : Reading) : Parser.CurrencyValue :=
  {| Parser.amount := JNum (mul (reading_number r) (reading_sign r));
     Parser.currency := reading_currency r |}.

(** The characters that can stand before the run of digits. *)
Definition is_lead (c : N) : bool :=
  Parser.is_sign c || is_space c || (c =? ch "$")%N.

(** A text starts outside the class [p]: it is empty, or its first code
    unit is not in [p]. *)
Definition starts_outside (p : N -> bool) (s : jsstr) : bool :=
  match s with
  | [] => true
  | c :: _ => negb (p c)
  end.

(** The captures a reading leaves, latest first. *)
Definition reading_captures (r : Reading) : list (nat * jsstr) :=
  optional_capture 4 (code r)
    ((3%nat, run r ++ decimals r)
       :: optional_capture 2 (sign2 r) (optional_capture 1 (sign1 r) [])).

(** "− $50.00", with U+2212 *)
Definition minus_fifty_before : jsstr := [8722%N] ++ str " $50.00".

(** "$-50.00" *)
Definition minus_fifty_after : jsstr := str "$-50.00".

(** "1,234.56 CAD", part by part *)
Definition canadian_reading : Reading :=
  {| sign1 := []; gap1 := []; dollar := []; sign2 := []; gap2 := [];
     run := str "1,234"; decimals := str ".56"; gap3 := str " ";
     code := str "CAD" |}.

(** *** Import identifiers *)

Definition is_lower_hex (c : N) : bool := is_digit c || between 97 102 c.

(** The five properties hashed, in their fixed order. *)
Definition hashed_properties (t : ActualTransaction)
  : list (jsstr * JsVal) :=
  [(str "account", Account t); (str "amount", Amount t);
   (str "date", Date t); (str "notes", Notes t); (str "payee", Payee t)].

(** The transaction of the test-suite. *)
Definition test_transaction : ActualTransaction :=
  {| Date := txt "2024-01-15";
     Account := txt "Test Account";
     Payee := txt "Test Payee";
     Notes := txt "Test transaction";
     Amount := JNum (of_Z 10000);
     _isTransfer := None;
     _transferToAccount := None;
     _accountId := None;
     category := None |}.

(** *** Transfer mirroring *)

(** All the entries of the groups, in the order of the [Map]. *)
Definition all_entries (g : ActualClient.Groups) : list ActualClient.Entry :=
  flat_map snd g.

(** The mirror entries created for the transaction at [i]. *)
Definition is_mirror_of (i : nat) (e : ActualClient.Entry) : bool :=
  ActualClient.isMirrorTransfer e && (ActualClient.index e =? i)%nat.

(** The primary entries created for the transaction at [i]. *)
Definition is_primary_of (i : nat) (e : ActualClient.Entry) : bool :=
  negb (ActualClient.isMirrorTransfer e)
  && (ActualClient.index e =? i)%nat.

(** The entry [e] is filed under the key [k]. *)
Definition filed_under (k : JsVal) (e : ActualClient.Entry)
           (g : ActualClient.Groups) : Prop :=
  exists k' es,
    In (k', es) g /\ ActualClient.same_value_zero k k' = true /\ In e es.

(** The transaction is a transfer for the import: both keys are truthy. *)
Definition is_transfer (t : ActualTransaction) : bool :=
  truthy (read (_isTransfer t)) && truthy (read (_transferToAccount t)).

(** A ledger with a checking and a savings account and the transfer payee
    of each. *)
Definition checking : ActualClient.Acct.t :=
  {| ActualClient.Acct.id := str "acc_checking";
     ActualClient.Acct.name := str "Checking" |}.

Definition savings : ActualClient.Acct.t :=
  {| ActualClient.Acct.id := str "acc_savings";
     ActualClient.Acct.name := str "Savings" |}.

Definition to_checking : ActualClient.TransferPayee.t :=
  {| ActualClient.TransferPayee.id := str "payee_transfer_checking";
     ActualClient.TransferPayee.name := str "Transfer : Checking";
     ActualClient.TransferPayee.transfer_acct := Some (str "acc_checking") |}.

Definition to_savings : ActualClient.TransferPayee.t :=
  {| ActualClient.TransferPayee.id := str "payee_transfer_savings";
     ActualClient.TransferPayee.name := str "Transfer : Savings";
     ActualClient.TransferPayee.transfer_acct := Some (str "acc_savings") |}.

Definition ledger : ActualClient.Client :=
  ActualClient.loadPayees
    (ActualClient.loadAccounts
       {| ActualClient.connected := true;
          ActualClient.accountMap := [];
          ActualClient.transferPayeeMap := [] |}
       [checking; savings])
    [to_checking; to_savings].

(** A transfer of 500.00 out of Checking into Savings, as the pipeline
    hands it to the import. *)
Definition transfer_out : ActualTransaction :=
  {| Date := txt "2024-01-15";
     Account := txt "Checking";
     Payee := txt "Transfer";
     Notes := txt "Checking -> Savings";
     Amount := JNum (of_Z (-50000));
     _isTransfer := Some (JBool true);
     _transferToAccount := Some (txt "acc_savings");
     _accountId := Some (txt "acc_checking");
     category := None |}.

End Spec.

(** Split a conjunction of boolean tests into its conjuncts. *)
Ltac split_andb H :=
  repeat match type of H with
         | (_ && _) = true =>
             let H1 := fresh "Hf" in
             apply andb_prop in H; destruct H as [H1 H]; split_andb H1
         end.

(** Comparisons of code units settled by arithmetic. *)
Ltac settle_comparisons :=
  repeat match goal with
  | |- context [(?a =? ?b)%N] =>
      first [ rewrite (proj2 (N.eqb_neq a b)) by lia
            | rewrite (proj2 (N.eqb_eq a b)) by lia ]
  | |- context [(?a <=? ?b)%N] =>
      first [ rewrite (proj2 (N.leb_gt a b)) by lia
            | rewrite (proj2 (N.leb_le a b)) by lia ]
  end.

Ltac unfold_classes :=
  unfold Spec.is_lead, Spec.is_digit_or_comma, Parser.is_sign, Str.is_space,
    Str.is_line_terminator, Str.is_digit, Str.is_upper, Str.between,
    Regex.exact, Str.ch;
  cbn [N_of_ascii N_of_digits N.add N.mul Pos.add Pos.mul Pos.succ].

(** ** The vocabulary of the properties of the rest of the program *)

Module Laws.
Import Str Num Val Txn Transformer.

(** A whole number of cents: a Number that is an integer. *)
Definition whole (v : JsVal) : bool :=
  match v with
  | JNum x => match to_Z x with Some _ => true | None => false end
  | _ => false
  end.

(** The raw amount converts to a finite number of cents: it is not
    missing, and a hundred times its numeric value is finite. *)
Definition countable (r : WsTransaction) : bool :=
  negb (Spec.missing_amount (amount r))
  && is_finite (mul (ToNumber (amount r)) hundred).

(** The transactions of a list filed under the key [k]. *)
Definition filed_as (k : JsVal) (l : list ActualTransaction)
  : list ActualTransaction :=
  filter (fun t =>
            ActualClient.same_value_zero k (TransformerBatch.account_key t))
         l.

(** No two entries of a [Map] have the same key. *)
Definition distinct_keys {V : Type} (m : TransformerBatch.ValMap V) : Prop :=
  ForallOrdPairs
    (fun a b => ActualClient.same_value_zero (fst a) (fst b) = false) m.

(** The code units a cleaned payee name is made of: letters, digits, the
    underscore, the plain space, and [- & . ']. *)
Definition payee_char (c : N) : bool :=
  is_word c || (c =? 32)%N || (c =? ch "-")%N || (c =? ch "&")%N
  || (c =? ch ".")%N || (c =? 39)%N.

(** A cleaned payee name: at most 100 code units, all of them payee
    characters, the first not a space. *)
Definition clean_name (s : jsstr) : Prop :=
  (length s <= 100)%nat
  /\ forallb payee_char s = true
  /\ Spec.starts_outside is_space s = true.

(** A deposit with a date and an account but no amount. *)
Definition deposit_without_amount : WsTransaction :=
  {| account := Spec.txt "Cash"; date := Spec.txt "2024-01-15";
     filled := JUndefined; submitted := JUndefined;
     amount := JUndefined; type := Spec.txt "deposit";
     description := JUndefined; subheading := JUndefined;
     email := JUndefined; message := JUndefined;
     filledQuantity := JUndefined; transactionId := JUndefined;
     from := JUndefined; to := JUndefined; _transferInfo := None |}.

(** A record with nothing but the description
    "Payment to  Acme, Inc. #42". *)
Definition acme_payment : WsTransaction :=
  {| account := JUndefined; date := JUndefined; filled := JUndefined;
     submitted := JUndefined; amount := JUndefined; type := JUndefined;
     description := Spec.txt "Payment to  Acme, Inc. #42";
     subheading := JUndefined; email := JUndefined; message := JUndefined;
     filledQuantity := JUndefined; transactionId := JUndefined;
     from := JUndefined; to := JUndefined; _transferInfo := None |}.

(** *** Parsed rows *)

(** The object has the key. *)
Definition mentions (k : jsstr) (o : ParserRows.Obj) : bool :=
  match ActualClient.Map_get k o with
  | Some _ => true
  | None => false
  end.

(** The keys under which a parsed transaction holds a number. *)
Definition numeric_keys : list jsstr :=
  [str "amount"; str "originalAmount"; str "exchangeRate";
   str "spendRewards"].

(** What a parsed transaction holds under a key: a string, [null] or
    [undefined], or a number under one of the numeric keys. *)
Definition entry_ok (kv : jsstr * JsVal) : bool :=
  Spec.is_text (snd kv)
  || (TransformerBatch.is_number (snd kv)
      && existsb (Str.eqb (fst kv)) numeric_keys).

(** The row is not recognised, or holds nothing to record. *)
Definition silent {E : Engine} {H : ParserRows.Host} (f : ParserRows.Field)
  : bool :=
  match ParserRows.parseRow (ParserRows.name f) (ParserRows.value f) with
  | [] => true
  | _ :: _ => false
  end.

(** There is nothing to record: no row is recognised, and the summary line
    gave neither a description nor a subheading. *)
Definition nothing_to_record {E : Engine} {H : ParserRows.Host}
           (rawData : ParserRows.RawData) (fs : list ParserRows.Field)
  : bool :=
  forallb silent fs
  && match ParserRows.truthy_value (ParserRows.description rawData) with
     | None => true
     | Some _ => false
     end
  && match ParserRows.truthy_value (ParserRows.subheading rawData) with
     | None => true
     | Some _ => false
     end.

(** The rows of the first scraped transaction of the test-suite. *)
Definition coffee_shop : ParserRows.RawData :=
  {| ParserRows.fields :=
       Some [ {| ParserRows.name := str "Account";
                 ParserRows.value := Some (str "WealthSimple Cash") |};
              {| ParserRows.name := str "Date";
                 ParserRows.value :=
                   Some (str "January 15, 2024 10:30 am") |};
              {| ParserRows.name := str "Amount";
                 ParserRows.value := Some (8722%N :: str " $50.00") |};
              {| ParserRows.name := str "Status";
                 ParserRows.value := Some (str "Completed") |} ];
     ParserRows.description := Some (str "Coffee Shop");
     ParserRows.subheading := None |}.

(** The rows of a purchase of shares. *)
Definition share_purchase : ParserRows.RawData :=
  {| ParserRows.fields :=
       Some [ {| ParserRows.name := str "Account";
                 ParserRows.value := Some (str "TFSA") |};
              {| ParserRows.name := str "Type";
                 ParserRows.value := Some (str "Market buy") |};
              {| ParserRows.name := str "Total cost";
                 ParserRows.value := Some (str "$10.00") |} ];
     ParserRows.description := Some (str "AAPL");
     ParserRows.subheading := None |}.

(** *** The ledger client *)

(** The account answers to the key: by its name or by its id. *)
Definition answers_to (k : jsstr) (a : ActualClient.Acct.t) : bool :=
  Str.eqb k (ActualClient.Acct.name a) || Str.eqb k (ActualClient.Acct.id a).

(** The payee is the transfer payee of the key: its transfer account has
    that id, or is known to the client and has that name. *)
Definition transfers_to (c : ActualClient.Client) (k : jsstr)
           (p : ActualClient.TransferPayee.t) : bool :=
  match ActualClient.TransferPayee.transfer_acct p with
  | Some acct =>
      negb (is_empty acct)
      && (Str.eqb k acct
          || match ActualClient.findAccount c (JStr acct) with
             | Some account => Str.eqb k (ActualClient.Acct.name account)
             | None => false
             end)
  | None => false
  end.

(** What the grouping loop of the import reports for a transaction it
    cannot file. *)
Definition failure_of {E : Engine} (c : ActualClient.Client)
           (item : nat * ActualTransaction) : list ActualClient.Failure :=
  match ActualClient.resolve_account_key c (snd item) with
  | inr message =>
      [{| ActualClient.failed_transaction := snd item;
          ActualClient.failed_index := fst item;
          ActualClient.error := message |}]
  | inl _ => []
  end.

(** The transaction is filed (its account resolves), and is mirrored (it
    is a transfer whose destination has a transfer payee). *)
Definition filed {E : Engine} (c : ActualClient.Client)
           (t : ActualTransaction) : bool :=
  match ActualClient.resolve_account_key c t with
  | inl _ => true
  | inr _ => false
  end.

Definition mirrored {E : Engine} (c : ActualClient.Client)
           (t : ActualTransaction) : bool :=
  filed c t && Spec.is_transfer t
  && match ActualClient.findTransferPayee
             c (read (_transferToAccount t)) with
     | Some _ => true
     | None => false
     end.

(** *** CSV records *)

(** From first to last, no element sorts after a later one: their string
    forms ascend. *)
Definition ascending {E : Engine} (l : list JsVal) : Prop :=
  ForallOrdPairs
    (fun a b => CsvParser.lt_units (ToString b) (ToString a) = false) l.

(** The text has no parenthesis. *)
Definition plain (d : jsstr) : bool :=
  forallb (fun c => negb ((c =? ch "(")%N || (c =? ch ")")%N)) d.

(** What is left of a text without [$], [,] and white space. *)
Definition bare (d : jsstr) : jsstr := remove_all CsvParser.is_symbol d.

(** The text is an unsigned amount: bare, it does not start with a sign,
    and [parseFloat] reads a number off it. *)
Definition unsigned_amount (d : jsstr) : bool :=
  match bare d with
  | c :: _ => negb ((c =? ch "+")%N || (c =? ch "-")%N)
  | [] => false
  end
  && negb (is_nan (NumLit.parseFloat (bare d))).

(** The word has no plain space. *)
Definition spaceless (w : jsstr) : bool :=
  forallb (fun c => negb (c =? 32)%N) w.

End Laws.

(* ================================================================== *)
(** * Part IV — properties                                              *)
(* ================================================================== *)

Import Str Num Val Txn Transformer Spec.
Local Open Scope exc_scope.

(** ** Text fields never make a helper throw *)

Section TransformerFacts.
Context {E : Engine}.

Lemma or_empty_text (v : JsVal) :
  is_text v = true -> or_ v (JStr []) = JStr (text_of v).
Proof.
  destruct v as [| | b | x | s]; simpl; try discriminate; try reflexivity.
  intros _. unfold or_. simpl. destruct s; reflexivity.
Qed.

Lemma call_toLowerCase_text (v : JsVal) :
  is_text v = true ->
  call_toLowerCase (or_ v (JStr [])) = Ok (toLowerCase (text_of v)).
Proof.
  intros H. rewrite (or_empty_text v H). reflexivity.
Qed.

Lemma isDebitTransaction_text (r : WsTransaction) :
  is_text (type r) = true ->
  isDebitTransaction r =
  Ok (match classify (lower_type r) (ToNumber (amount r)) with
      | Debit => true
      | Credit => false
      end).
Proof.
  intros H. unfold isDebitTransaction, classify, lower_type, has_keyword.
  rewrite (call_toLowerCase_text _ H). cbn [bind].
  destruct (existsb _ debitTypes); [reflexivity|].
  destruct (ltb _ _); [reflexivity|].
  destruct (existsb _ creditTypes); reflexivity.
Qed.

Lemma opt_trim_text (v : JsVal) :
  is_text v = true ->
  opt_trim v = Ok (match v with JStr s => Some (trim s) | _ => None end).
Proof.
  destruct v; simpl; try discriminate; reflexivity.
Qed.

Lemma present_trimmed (v : JsVal) :
  is_text v = true ->
  present (match v with JStr s => Some (trim s) | _ => None end)
  = nonempty (trimmed v)
  /\ text (match v with JStr s => Some (trim s) | _ => None end)
     = trimmed v.
Proof.
  destruct v; simpl; try discriminate; intros _; split; reflexivity.
Qed.

Lemma buildNotesFromSpec_text (r : WsTransaction) :
  is_text (subheading r) = true -> is_text (type r) = true ->
  is_text (email r) = true -> is_text (message r) = true ->
  is_text (filledQuantity r) = true -> is_text (transactionId r) = true ->
  buildNotesFromSpec r = Ok (notes_of r).
Proof.
  intros Hs Ht He Hm Hq Hi. unfold buildNotesFromSpec, notes_of.
  rewrite (opt_trim_text _ Hs), (opt_trim_text _ Ht), (opt_trim_text _ He),
    (opt_trim_text _ Hm), (opt_trim_text _ Hq), (opt_trim_text _ Hi).
  cbn [bind].
  destruct (present_trimmed _ Hs) as [-> ->].
  destruct (present_trimmed _ Ht) as [-> ->].
  destruct (present_trimmed _ He) as [-> ->].
  destruct (present_trimmed _ Hm) as [-> ->].
  destruct (present_trimmed _ Hq) as [-> ->].
  destruct (present_trimmed _ Hi) as [-> ->].
  generalize (trimmed (subheading r)) (trimmed (type r)) (trimmed (email r)).
  intros sub ty em.
  set (main := if nonempty em then _ else _).
  destruct (trimmed (message r)) as [|m0 m];
    destruct (trimmed (filledQuantity r)) as [|q0 q];
    destruct (trimmed (transactionId r)) as [|i0 i];
    subst main; cbn; destruct ty, sub, em; reflexivity.
Qed.

Lemma getPayeeByType_text (ty : JsVal) :
  is_text ty = true -> exists s, getPayeeByType ty = Ok (JStr s).
Proof.
  intros H. unfold getPayeeByType.
  rewrite (call_toLowerCase_text _ H). cbn [bind].
  destruct (find _ typeMap) as [[k v]|].
  - eexists; reflexivity.
  - destruct ty as [| | b | x | s]; try discriminate;
      try (eexists; reflexivity).
    destruct s; eexists; reflexivity.
Qed.

Lemma payee_from_patterns_shape (ps : list Regex.regex) (d : jsstr) :
  payee_from_patterns ps d = JUndefined
  \/ exists s, payee_from_patterns ps d = JStr s.
Proof.
  induction ps as [|p ps IH]; simpl.
  - left; reflexivity.
  - destruct (Regex.exec p d) as [m|]; [|exact IH].
    destruct (present _); [right; eexists; reflexivity | exact IH].
Qed.

Lemma buildPayeeName_text (r : WsTransaction) :
  is_text (description r) = true -> is_text (type r) = true ->
  exists s, buildPayeeName r = Ok (JStr s).
Proof.
  intros Hd Ht. unfold buildPayeeName.
  destruct (truthy (description r)) eqn:Htr.
  - destruct (description r) as [| | b | x | d]; try discriminate.
    cbv zeta.
    destruct (payee_from_patterns_shape patterns d) as [-> | [s ->]].
    + cbn [truthy negb bind].
      destruct (existsb _ _); eexists; reflexivity.
    + destruct (negb _); cbn [bind];
        destruct (existsb _ _); eexists; reflexivity.
  - destruct (getPayeeByType_text _ Ht) as [s ->]. cbn [bind].
    destruct (existsb _ _); eexists; reflexivity.
Qed.

(** Everything [transformTransaction] returns, read off its body. *)
Lemma transformTransaction_inv (r : WsTransaction) (o : Options)
      (out : ActualTransaction) :
  transformTransaction r o = Ok out ->
  exists isDebit notes payee,
    isDebitTransaction r = Ok isDebit
    /\ (if transfer_detected r o && truthy (from r) && truthy (to r)
        then Ok (ToString (from r) ++ str " -> " ++ ToString (to r))
        else buildNotesFromSpec r) = Ok notes
    /\ buildPayeeName r = Ok payee
    /\ out =
       {| Date := formatDateToYMD
                    (or_ (or_ (date r) (filled r)) (submitted r));
          Account := account r;
          Payee := payee;
          Notes := JStr notes;
          Amount :=
            JNum (if isDebit
                  then neg (Math_abs (amountInCents (amount r)))
                  else Math_abs (amountInCents (amount r)));
          _isTransfer :=
            if transfer_detected r o then Some (JBool true) else None;
          _transferToAccount :=
            if transfer_detected r o
            then Some (toAccount (effective_transfer r o)) else None;
          _accountId := None;
          category := None |}.
Proof.
  unfold transformTransaction, transfer_detected, effective_transfer.
  destruct (isDebitTransaction r) as [isDebit|]; [|discriminate].
  cbn [bind].
  set (ti := match _transferInfo r with
             | Some stored => stored
             | None => detectTransfer r (isAccountMapped o)
             end).
  destruct (if truthy (isTransfer ti) && truthy (from r) && truthy (to r)
            then _ else _) as [notes|] eqn:Hn; [|discriminate].
  cbn [bind].
  destruct (buildPayeeName r) as [payee|]; [|discriminate].
  cbn [bind]. intros H.
  exists isDebit, notes, payee.
  repeat split; try reflexivity.
  destruct (truthy (isTransfer ti)); inversion H; reflexivity.
Qed.

End TransformerFacts.

(** ** Facts about blank and well-typed fields *)

Lemma blank_falsy (v : JsVal) : blank v = true -> truthy v = false.
Proof.
  destruct v as [| | b | x | s]; simpl; try discriminate; try reflexivity.
  destruct s; [reflexivity | discriminate].
Qed.

Lemma blank_text_of (v : JsVal) : blank v = true -> text_of v = [].
Proof.
  destruct v as [| | b | x | s]; simpl; try discriminate; try reflexivity.
  destruct s; [reflexivity | discriminate].
Qed.

Lemma blank_is_text (v : JsVal) : blank v = true -> is_text v = true.
Proof. destruct v; simpl; try discriminate; reflexivity. Qed.

Lemma missing_amount_tests (v : JsVal) :
  strict_eq v (JStr []) || strict_eq v JNull || strict_eq v JUndefined
  = missing_amount v.
Proof.
  destruct v as [| | b | x | s]; try reflexivity.
  destruct s; reflexivity.
Qed.

Lemma amountInCents_missing (v : JsVal) :
  missing_amount v = true -> amountInCents v = NaN.
Proof.
  intros H. unfold amountInCents. rewrite missing_amount_tests, H. reflexivity.
Qed.

Lemma amountInCents_present (v : JsVal) :
  missing_amount v = false ->
  amountInCents v = round_half_away (mul (ToNumber v) hundred).
Proof.
  intros H. unfold amountInCents. rewrite missing_amount_tests, H. reflexivity.
Qed.

Lemma trimmed_blank (v : JsVal) : blank v = true -> trimmed v = [].
Proof. intros H. unfold trimmed. rewrite (blank_text_of _ H). reflexivity. Qed.

Lemma text_truthy_ToString {E : Engine} (v : JsVal) :
  is_text v = true -> truthy v = true -> ToString v = text_of v.
Proof. destruct v; simpl; try discriminate; reflexivity. Qed.

Lemma or_text (a b : JsVal) :
  is_text a = true -> is_text b = true -> is_text (or_ a b) = true.
Proof. intros Ha Hb. unfold or_. destruct (truthy a); assumption. Qed.

Lemma formatDateToYMD_text {E : Engine} (v : JsVal) :
  is_text v = true -> is_text (formatDateToYMD v) = true.
Proof.
  intros H. unfold formatDateToYMD.
  destruct (negb (truthy v)); [reflexivity|].
  destruct (isoDateOf v); [reflexivity | assumption].
Qed.

Lemma marked_or_unmarked (r : WsTransaction) (o : Options) :
  let out_isTransfer :=
    if transfer_detected r o then Some (JBool true) else None in
  let out_target :=
    if transfer_detected r o
    then Some (toAccount (effective_transfer r o)) else None in
  forall out,
    _isTransfer out = out_isTransfer -> _transferToAccount out = out_target ->
    if transfer_detected r o then marked out = true else unmarked out = true.
Proof.
  cbv zeta. intros out H1 H2. unfold marked, unmarked. rewrite H1, H2.
  destruct (transfer_detected r o); reflexivity.
Qed.

(** ** C10: [transformTransaction] is total on well-typed records *)

(** C10 — For every raw record whose fields are each a string, a number
    (the amount), [null] or absent, [transformTransaction] does not throw; the
    object it returns has the keys Date, Account, Payee, Notes and Amount
    (Payee and Notes strings, Amount a Number), has no other key but
    [_isTransfer] and [_transferToAccount], and has those two exactly when a
    transfer is detected.  When every field is absent or empty, Date is
    [null], Amount is NaN and Payee is the string "Unknown". *)
Theorem transformTransaction_total {E : Engine}
        (r : WsTransaction) (o : Options) :
  well_typed r = true ->
  exists out,
    transformTransaction r o = Ok out
    /\ (exists payee, Payee out = JStr payee)
    /\ (exists notes, Notes out = JStr notes)
    /\ (exists x, Amount out = JNum x)
    /\ Account out = account r
    /\ is_text (Date out) = true
    /\ _accountId out = None
    /\ category out = None
    /\ (if transfer_detected r o
        then marked out = true else unmarked out = true)
    /\ (all_blank r = true ->
        Date out = JNull /\ Amount out = JNum NaN
        /\ Payee out = JStr (str "Unknown") /\ Notes out = JStr []).
Proof.
  intros Hwt. unfold well_typed in Hwt. cbn [forallb] in Hwt.
  split_andb Hwt.
  destruct (buildPayeeName_text r) as [payee Hpayee]; try assumption.
  pose proof (isDebitTransaction_text r) as Hdebit.
  pose proof (buildNotesFromSpec_text r) as Hnotes.
  assert (Hrun : exists notes,
             (if transfer_detected r o && truthy (from r) && truthy (to r)
              then Ok (ToString (from r) ++ str " -> " ++ ToString (to r))
              else buildNotesFromSpec r) = Ok notes
             /\ (truthy (from r) = false -> notes = notes_of r)).
  { destruct (transfer_detected r o && truthy (from r) && truthy (to r))
      eqn:Hc.
    - eexists; split; [reflexivity|].
      intros Hfrom. rewrite Hfrom in Hc.
      rewrite andb_false_r in Hc. discriminate.
    - exists (notes_of r). split; [|reflexivity]. apply Hnotes; assumption. }
  destruct Hrun as [notes [Hrun Hplain]].
  assert (Hout : exists out, transformTransaction r o = Ok out).
  { unfold transformTransaction.
    rewrite Hdebit by assumption. cbn [bind].
    fold (effective_transfer r o). fold (transfer_detected r o).
    rewrite Hrun. cbn [bind]. rewrite Hpayee. cbn [bind].
    destruct (transfer_detected r o); eexists; reflexivity. }
  destruct Hout as [out Hout]. exists out. split; [exact Hout|].
  destruct (transformTransaction_inv _ _ _ Hout)
    as (isDebit & notes' & payee' & Hd & Hn & Hp & ->).
  rewrite Hrun in Hn. rewrite Hpayee in Hp.
  injection Hn as <-. injection Hp as <-.
  cbn [Payee Notes Amount Account Date _accountId category].
  repeat split.
  - eexists; reflexivity.
  - eexists; reflexivity.
  - eexists; reflexivity.
  - apply formatDateToYMD_text. repeat apply or_text; assumption.
  - apply (marked_or_unmarked r o); reflexivity.
  - rename H into Hb. unfold formatDateToYMD, or_.
    unfold all_blank in Hb. cbn [forallb] in Hb. split_andb Hb.
    repeat match goal with
           | Hx : blank ?v = true |- _ =>
               rewrite (blank_falsy v Hx); clear Hx
           end.
    reflexivity.
  - rename H into Hb.
    unfold all_blank in Hb. cbn [forallb] in Hb. split_andb Hb.
    rewrite amountInCents_missing.
    + destruct isDebit; reflexivity.
    + match goal with
      | Hx : blank (amount r) = true |- _ => revert Hx
      end.
      destruct (amount r); simpl; intros; congruence.
  - rename H into Hb.
    unfold all_blank in Hb. cbn [forallb] in Hb. split_andb Hb.
    assert (Hdesc : truthy (description r) = false)
      by (apply blank_falsy; assumption).
    assert (Hty : text_of (type r) = [])
      by (apply blank_text_of; assumption).
    assert (Htyf : truthy (type r) = false)
      by (apply blank_falsy; assumption).
    unfold buildPayeeName in Hpayee. rewrite Hdesc in Hpayee.
    unfold getPayeeByType in Hpayee.
    rewrite call_toLowerCase_text in Hpayee by assumption.
    rewrite Hty, toLowerCase_empty in Hpayee.
    unfold or_ in Hpayee. rewrite Htyf in Hpayee.
    cbn in Hpayee. injection Hpayee as <-. reflexivity.
  - rename H into Hb.
    unfold all_blank in Hb. cbn [forallb] in Hb. split_andb Hb.
    assert (Hfrom : truthy (from r) = false)
      by (apply blank_falsy; assumption).
    rewrite (Hplain Hfrom). unfold notes_of.
    repeat match goal with
           | Hx : blank ?v = true |- _ =>
               rewrite ?(trimmed_blank v Hx); clear Hx
           end.
    reflexivity.
Qed.

Lemma transformTransaction_total_witness :
  well_typed empty_record = true
  /\ exists out,
       transformTransaction (E := Host.engine) empty_record no_options = Ok out
       /\ Date out = JNull /\ Amount out = JNum NaN
       /\ Payee out = JStr (str "Unknown") /\ unmarked out = true.
Proof.
  split; [reflexivity|].
  destruct (transformTransaction_total (E := Host.engine)
              empty_record no_options eq_refl)
    as (out & Hrun & _ & _ & _ & _ & _ & _ & _ & Hmark & Hblank).
  destruct (Hblank eq_refl) as (Hd & Ha & Hp & _).
  exists out. repeat split; assumption.
Defined.

(** A field that is not a string makes the call throw: the precondition of
    the totality theorem cannot be dropped. *)
Example transformTransaction_throws_on_numeric_type :
  transformTransaction (E := Host.engine)
    {| account := JUndefined; date := JUndefined; filled := JUndefined;
       submitted := JUndefined; amount := JUndefined;
       type := JNum (of_Z 5);
       description := JUndefined; subheading := JUndefined;
       email := JUndefined; message := JUndefined;
       filledQuantity := JUndefined; transactionId := JUndefined;
       from := JUndefined; to := JUndefined; _transferInfo := None |}
    no_options
  = Throw TypeError.
Proof. reflexivity. Qed.

(** ** C2: transfer detection *)

Section TransferFacts.
Context {E : Engine}.



Lemma marked_iff_detected (r : WsTransaction) (o : Options)
      (out : ActualTransaction) :
  transformTransaction r o = Ok out ->
  marked out = transfer_detected r o
  /\ unmarked out = negb (transfer_detected r o)
  /\ _transferToAccount out =
     (if transfer_detected r o
      then Some (toAccount (effective_transfer r o)) else None)
  /\ _isTransfer out =
     (if transfer_detected r o then Some (JBool true) else None).
Proof.
  intros H.
  destruct (transformTransaction_inv _ _ _ H) as (b & n & p & _ & _ & _ & ->).
  unfold marked, unmarked. cbn.
  destruct (transfer_detected r o); repeat split; reflexivity.
Qed.


End TransferFacts.




(** A record whose [from] and [to] are the same mapped account is marked, as
    a transfer to itself: [detectTransfer] does not compare the two, where
    the import does ([from !== to]) before it treats a record as a transfer.
    The amended claim says nothing of such a record. *)
Example transfer_to_itself_is_marked :
  let r := transfer_record "Checking" "Checking" "Checking" in
  let o := mapped_among ["Checking"; "Savings"]%string in
  transfer_as_specified r o = false
  /\ exists out,
       transformTransaction (E := Host.engine) r o = Ok out
       /\ marked out = true
       /\ _transferToAccount out = Some (txt "Checking").
Proof.
  cbv zeta. split; [reflexivity|].
  eexists. split; [vm_compute; reflexivity|].
  split; reflexivity.
Qed.

(** The second half of the specification's scenario: with [to] unmapped the
    record is not marked. *)
Example unmapped_leg_is_not_a_transfer :
  exists out,
    transformTransaction (E := Host.engine)
      (transfer_record "Checking" "Checking" "Savings")
      (mapped_among ["Checking"]%string) = Ok out
    /\ unmarked out = true.
Proof. eexists. split; [vm_compute; reflexivity | reflexivity]. Qed.

(** ** C3: the sign of the amount *)

Section SignFacts.
Context {E : Engine}.

Lemma isDebitTransaction_inv (r : WsTransaction) (b : bool) :
  isDebitTransaction r = Ok b ->
  exists lowerType,
    call_toLowerCase (or_ (type r) (JStr [])) = Ok lowerType
    /\ b = match classify lowerType (ToNumber (amount r)) with
           | Debit => true
           | Credit => false
           end.
Proof.
  unfold isDebitTransaction, classify, has_keyword.
  destruct (call_toLowerCase _) as [ty|]; [|discriminate].
  cbn [bind]. intros H. exists ty. split; [reflexivity|].
  destruct (existsb _ debitTypes); [congruence|].
  destruct (ltb _ _); [congruence|].
  destruct (existsb _ creditTypes); congruence.
Qed.

End SignFacts.

(** [-abs(x)] is never above zero, and is below zero unless [x] is a zero or
    NaN. *)
Lemma neg_abs_not_positive (x : number) :
  ltb pzero (neg (Math_abs x)) = false.
Proof. destruct x as [s | s | | s m e]; reflexivity. Qed.

Lemma neg_abs_negative (x : number) :
  is_zero x = false -> is_nan x = false -> ltb (neg (Math_abs x)) pzero = true.
Proof. destruct x as [s | s | | s m e]; simpl; try discriminate; reflexivity. Qed.

(** C3 — For every raw record that [transformTransaction] accepts, the final
    Amount is [-abs(cents)] when the record is classified a debit and
    [+abs(cents)] otherwise, where the classification is taken in this order
    on the lower-cased type: debit if it contains a debit keyword; else debit
    if the raw amount is negative; else credit if it contains a credit
    keyword; else credit.  Hence a debit keyword gives [-abs(cents)] whatever
    the literal sign, and a negative raw amount gives [-abs(cents)] even on a
    credit keyword; [-abs(cents)] is never positive and is negative unless
    the cents are zero or NaN. *)
Theorem amount_sign_follows_classification {E : Engine}
        (r : WsTransaction) (o : Options) (out : ActualTransaction) :
  transformTransaction r o = Ok out ->
  exists lowerType,
    call_toLowerCase (or_ (type r) (JStr [])) = Ok lowerType
    /\ (is_text (type r) = true -> lowerType = lower_type r)
    /\ Amount out =
       JNum (signed (classify lowerType (ToNumber (amount r)))
                    (amountInCents (amount r)))
    /\ (has_keyword lowerType debitTypes = true ->
        Amount out = JNum (neg (Math_abs (amountInCents (amount r)))))
    /\ (ltb (ToNumber (amount r)) pzero = true ->
        Amount out = JNum (neg (Math_abs (amountInCents (amount r)))))
    /\ (has_keyword lowerType debitTypes = false ->
        ltb (ToNumber (amount r)) pzero = false ->
        Amount out = JNum (Math_abs (amountInCents (amount r))))
    /\ ltb pzero (neg (Math_abs (amountInCents (amount r)))) = false
    /\ (is_zero (amountInCents (amount r)) = false ->
        is_nan (amountInCents (amount r)) = false ->
        ltb (neg (Math_abs (amountInCents (amount r)))) pzero = true).
Proof.
  intros H.
  destruct (transformTransaction_inv _ _ _ H) as (b & n & p & Hd & _ & _ & ->).
  destruct (isDebitTransaction_inv _ _ Hd) as (ty & Hty & ->).
  exists ty. split; [exact Hty|].
  split.
  { intros Htext. rewrite call_toLowerCase_text in Hty by assumption.
    unfold lower_type. congruence. }
  cbn [Amount]. unfold classify, signed.
  repeat split.
  - destruct (has_keyword ty debitTypes); [reflexivity|].
    destruct (ltb _ pzero); [reflexivity|].
    destruct (has_keyword ty creditTypes); reflexivity.
  - intros ->. reflexivity.
  - intros ->. destruct (has_keyword ty debitTypes); reflexivity.
  - intros -> ->. destruct (has_keyword ty creditTypes); reflexivity.
  - apply neg_abs_not_positive.
  - apply neg_abs_negative.
Qed.

(** [type = "payment"], [amount = "50.00"]: the debit keyword overrides the
    positive literal, and the Amount is -5000. *)
Lemma amount_sign_follows_classification_witness :
  exists out,
    transformTransaction (E := Host.engine)
      (typed_record "payment" (txt "50.00")) no_options = Ok out
    /\ Amount out = JNum (of_Z (-5000)).
Proof.
  eexists. split; [vm_compute; reflexivity|].
  match goal with
  | |- Amount ?out = _ =>
      destruct (amount_sign_follows_classification (E := Host.engine)
                  (typed_record "payment" (txt "50.00")) no_options
                  out eq_refl)
        as (ty & Hty & _ & _ & Hdebit & _)
  end.
  injection Hty as <-.
  rewrite (Hdebit eq_refl). reflexivity.
Defined.

(** A negative "deposit": the explicit sign wins over the credit keyword. *)
Example negative_deposit_stays_negative :
  exists out,
    transformTransaction (E := Host.engine)
      (typed_record "deposit" (txt "-100.00")) no_options = Ok out
    /\ Amount out = JNum (of_Z (-10000)).
Proof. eexists. split; vm_compute; reflexivity. Qed.

(** ** C7: the notes *)

(** C7, as stated, fails: the fields enter the notes trimmed, not as they
    are.  A type with a leading space gives the notes "deposit". *)
Lemma notes_are_built_from_trimmed_fields :
  let r := typed_record " deposit" JUndefined in
  notes_untrimmed r = str " deposit"
  /\ exists out,
       transformTransaction (E := Host.engine) r no_options = Ok out
       /\ Notes out = JStr (str "deposit")
       /\ Notes out <> JStr (notes_untrimmed r).
Proof.
  cbv zeta. split; [reflexivity|].
  eexists. split; [vm_compute; reflexivity|].
  split; [reflexivity | discriminate].
Qed.

(** C7 (amended) — For a well-typed record the Notes string is exactly: for a
    detected transfer whose [from] and [to] are present, "{from} -> {to}"
    with both taken as they are; otherwise, with subheading, type, email,
    message, filledQuantity and transactionId each trimmed and counted as
    present when non-empty after trimming: the main part
    "{subheading} - {type}" when both are present and different, else
    whichever is present; then " ({email})" when the email is present; then,
    only when message or filledQuantity is present, ": " followed by message,
    filledQuantity and "[{transactionId}]" joined by spaces; and when neither
    is present but the transactionId is, " [{transactionId}]" with no
    colon. *)
Theorem notes_synthesis {E : Engine}
        (r : WsTransaction) (o : Options) (out : ActualTransaction) :
  well_typed r = true ->
  transformTransaction r o = Ok out ->
  Notes out =
  JStr (if marked out && truthy (from r) && truthy (to r)
        then transfer_notes r
        else notes_of r).
Proof.
  intros Hwt H.
  destruct (marked_iff_detected _ _ _ H) as (Hm & _).
  destruct (transformTransaction_inv _ _ _ H) as (b & n & p & _ & Hn & _ & Hout).
  rewrite Hm. rewrite Hout at 1. cbn [Notes]. f_equal.
  unfold well_typed in Hwt. cbn [forallb] in Hwt. split_andb Hwt.
  destruct (transfer_detected r o && truthy (from r) && truthy (to r)) eqn:Hc.
  - apply andb_prop in Hc. destruct Hc as [Hc Hto].
    apply andb_prop in Hc. destruct Hc as [_ Hfrom].
    rewrite !text_truthy_ToString in Hn by assumption.
    unfold transfer_notes. congruence.
  - rewrite buildNotesFromSpec_text in Hn by assumption. congruence.
Qed.

(** The salary deposit of the specification: the notes contain
    "(u@x.com): Biweekly" and end with "[t1]". *)
Lemma notes_synthesis_witness :
  well_typed salary_record = true
  /\ exists out,
       transformTransaction (E := Host.engine) salary_record no_options = Ok out
       /\ Notes out = JStr (str "deposit (u@x.com): Biweekly [t1]")
       /\ Date out = txt "2024-01-15"
       /\ Amount out = JNum (of_Z 10050)
       /\ Payee out = txt "Salary deposit".
Proof.
  split; [reflexivity|].
  eexists. split; [vm_compute; reflexivity|].
  split; [|repeat split; reflexivity].
  match goal with
  | |- Notes ?out = _ =>
      rewrite (notes_synthesis (E := Host.engine) salary_record no_options
                 out eq_refl eq_refl)
  end.
  reflexivity.
Defined.

(** A transfer carries the flat arrow notes and nothing else. *)
Example transfer_notes_are_flat :
  exists out,
    transformTransaction (E := Host.engine)
      (transfer_record "Checking" "Checking" "Savings")
      (mapped_among ["Checking"; "Savings"]%string) = Ok out
    /\ Notes out = txt "Checking -> Savings".
Proof. eexists. split; vm_compute; reflexivity. Qed.

(** ** Facts about binary64 arithmetic *)

Lemma neg_involutive (x : number) : neg (neg x) = x.
Proof. destruct x as [s | s | | s m e]; simpl; rewrite ?negb_involutive; reflexivity. Qed.

Lemma binary_round_aux_neg (s : bool) (m e : Z) (l : location) :
  binary_round_aux prec emax (negb s) m e l
  = neg (binary_round_aux prec emax s m e l).
Proof.
  unfold binary_round_aux.
  destruct (shr_fexp prec emax m e l) as [mrs' e'].
  destruct (shr_fexp prec emax _ e' loc_Exact) as [mrs'' e''].
  destruct (shr_m mrs'') as [|p|p]; try reflexivity.
  destruct (e'' <=? emax - prec); reflexivity.
Qed.

Lemma xorb_negb_l (a b : bool) : xorb (negb a) b = negb (xorb a b).
Proof. destruct a, b; reflexivity. Qed.

(** Multiplication commutes with negation of the left factor. *)
Lemma mul_neg_l (x y : number) : mul (neg x) y = neg (mul x y).
Proof.
  unfold mul, neg.
  destruct x as [sx | sx | | sx mx ex], y as [sy | sy | | sy my ey];
    simpl; rewrite ?xorb_negb_l; try reflexivity.
  apply binary_round_aux_neg.
Qed.

(** Rounding half away from zero commutes with negation. *)
Lemma round_half_away_neg (r : number) :
  round_half_away (neg r) = neg (round_half_away r).
Proof.
  destruct r as [s | s | | s m e].
  - destruct s; reflexivity.
  - destruct s; reflexivity.
  - reflexivity.
  - destruct s.
    + unfold round_half_away. cbn [neg SFopp negb geb SFleb SFcompare pzero].
      rewrite neg_involutive. reflexivity.
    + unfold round_half_away. cbn [neg SFopp negb geb SFleb SFcompare pzero].
      reflexivity.
Qed.

Lemma cents_round_half_away (d : number) :
  cents d = round_half_away (mul d hundred).
Proof. unfold cents. apply amountInCents_present. reflexivity. Qed.

(** The conversion is odd: the cents of [-d] are the negated cents of [d]. *)
Lemma cents_neg (d : number) : cents (neg d) = neg (cents d).
Proof.
  rewrite !cents_round_half_away, mul_neg_l. apply round_half_away_neg.
Qed.

(** A shift to the right keeps a non-negative mantissa non-negative, so
    rounding a non-negative mantissa never gives NaN. *)
Lemma shr_1_nonneg (mrs : shr_record) :
  0 <= shr_m mrs -> 0 <= shr_m (shr_1 mrs).
Proof.
  destruct mrs as [m r s]. simpl.
  destruct m as [|p|p]; simpl; intros H; try lia.
  - destruct p; simpl; lia.
Qed.

Lemma iter_shr_1_nonneg (p : positive) :
  forall mrs, 0 <= shr_m mrs -> 0 <= shr_m (iter_pos shr_1 p mrs).
Proof.
  induction p as [p IH | p IH |]; intros mrs H; simpl.
  - apply IH, IH, shr_1_nonneg, H.
  - apply IH, IH, H.
  - apply shr_1_nonneg, H.
Qed.

Lemma shr_fexp_nonneg (m e : Z) (l : location) :
  0 <= m -> 0 <= shr_m (fst (shr_fexp prec emax m e l)).
Proof.
  intros H. unfold shr_fexp, shr.
  assert (H0 : 0 <= shr_m (shr_record_of_loc m l)).
  { destruct l as [|c]; [exact H | destruct c; exact H]. }
  destruct (fexp prec emax (Zdigits2 m + e) - e) as [|p|p]; simpl;
    try exact H0.
  apply iter_shr_1_nonneg, H0.
Qed.

Lemma round_nearest_even_nonneg (m : Z) (l : location) :
  0 <= m -> 0 <= round_nearest_even m l.
Proof.
  intros H. destruct l as [|c]; simpl; [exact H|].
  destruct c; try destruct (Z.even m); lia.
Qed.

Lemma binary_round_aux_not_nan (s : bool) (m e : Z) (l : location) :
  0 <= m -> is_nan (binary_round_aux prec emax s m e l) = false.
Proof.
  intros H. unfold binary_round_aux.
  pose proof (shr_fexp_nonneg m e l H) as H1.
  destruct (shr_fexp prec emax m e l) as [mrs' e']. simpl in H1.
  pose proof (shr_fexp_nonneg _ e' loc_Exact
                (round_nearest_even_nonneg _ (loc_of_shr_record mrs') H1))
    as H2.
  destruct (shr_fexp prec emax _ e' loc_Exact) as [mrs'' e'']. simpl in H2.
  destruct (shr_m mrs'') as [|p|p]; try reflexivity.
  - destruct (e'' <=? emax - prec); reflexivity.
  - lia.
Qed.

Lemma of_Z_not_nan (n : Z) : is_nan (of_Z n) = false.
Proof.
  unfold of_Z, binary_normalize.
  destruct n as [|p|p]; [reflexivity| |];
    unfold binary_round;
    destruct (shl_align _ _ _) as [mz ez];
    apply binary_round_aux_not_nan; lia.
Qed.

Lemma Math_round_nan (x : number) :
  is_nan (Math_round x) = is_nan x.
Proof.
  destruct x as [s | s | | s m e]; try reflexivity.
  unfold Math_round. destruct (0 <=? e); [reflexivity|].
  destruct ((2 * cond_Zopp s (Z.pos m) + 2 ^ (- e)) / 2 ^ (- e + 1)) eqn:Hn;
    [reflexivity | |]; rewrite of_Z_not_nan; reflexivity.
Qed.

Lemma neg_nan (x : number) : is_nan (neg x) = is_nan x.
Proof. destruct x; reflexivity. Qed.

Lemma round_half_away_nan (r : number) :
  is_nan (round_half_away r) = is_nan r.
Proof.
  unfold round_half_away. destruct (geb r pzero).
  - apply Math_round_nan.
  - rewrite neg_nan, Math_round_nan, neg_nan. reflexivity.
Qed.

Lemma mul_hundred_nan (d : number) : is_nan (mul d hundred) = is_nan d.
Proof.
  destruct d as [s | s | | s m e]; try reflexivity.
  change hundred with (S754_finite false 7036874417766400 (-46)).
  unfold mul, SFmul. apply binary_round_aux_not_nan. lia.
Qed.

Lemma cents_nan (d : number) : is_nan (cents d) = is_nan d.
Proof.
  rewrite cents_round_half_away, round_half_away_nan. apply mul_hundred_nan.
Qed.

(** [x == x] holds for every Number but NaN. *)
Lemma eqb_refl_not_nan (x : number) : is_nan x = false -> Num.eqb x x = true.
Proof.
  destruct x as [s | s | | s m e]; simpl; try discriminate; intros _.
  - reflexivity.
  - unfold Num.eqb, SFeqb, SFcompare. destruct s; reflexivity.
  - unfold Num.eqb, SFeqb, SFcompare.
    destruct s; rewrite Z.compare_refl, Pos.compare_cont_refl; reflexivity.
Qed.

(** *** Integers below 2^53 are Numbers *)

Lemma digits2_pos_iter_xO (k p : positive) :
  digits2_pos (Pos.iter xO p k) = (digits2_pos p + k)%positive.
Proof.
  induction k as [|k IH] using Pos.peano_ind.
  - simpl. lia.
  - rewrite Pos.iter_succ. simpl. rewrite IH. lia.
Qed.

Lemma Zpos_iter_xO (k p : positive) :
  Zpos (Pos.iter xO p k) = Zpos p * 2 ^ Zpos k.
Proof.
  induction k as [|k IH] using Pos.peano_ind.
  - simpl. lia.
  - rewrite Pos.iter_succ, Pos2Z.inj_succ, Z.pow_succ_r by lia.
    rewrite Pos2Z.inj_xO, IH. ring.
Qed.

Lemma digits2_pos_bounds (p : positive) :
  2 ^ (Zpos (digits2_pos p) - 1) <= Zpos p < 2 ^ Zpos (digits2_pos p).
Proof.
  induction p as [p IH | p IH |]; simpl digits2_pos.
  - rewrite Pos2Z.inj_succ.
    replace (Z.succ (Zpos (digits2_pos p)) - 1) with
      (Z.succ (Zpos (digits2_pos p) - 1)) by lia.
    rewrite !Z.pow_succ_r by lia. lia.
  - rewrite Pos2Z.inj_succ.
    replace (Z.succ (Zpos (digits2_pos p)) - 1) with
      (Z.succ (Zpos (digits2_pos p) - 1)) by lia.
    rewrite !Z.pow_succ_r by lia. lia.
  - simpl. lia.
Qed.

Lemma digits2_pos_le_53 (p : positive) :
  Zpos p < 2 ^ 53 -> Zpos (digits2_pos p) <= 53.
Proof.
  intros H. destruct (digits2_pos_bounds p) as [Hlo _].
  destruct (Z_le_gt_dec (Zpos (digits2_pos p)) 53) as [Hle | Hgt]; [exact Hle|].
  exfalso.
  assert (2 ^ 53 <= 2 ^ (Zpos (digits2_pos p) - 1))
    by (apply Z.pow_le_mono_r; lia).
  lia.
Qed.

(** A 53-bit mantissa with an exponent in range is rounded to itself. *)
Lemma binary_round_aux_exact (s : bool) (m : positive) (e : Z) :
  Zpos (digits2_pos m) = 53 -> -1074 <= e <= 971 ->
  binary_round_aux prec emax s (Zpos m) e loc_Exact = S754_finite s m e.
Proof.
  intros Hd He.
  assert (Hshift : forall l,
             shr_fexp prec emax (Zpos m) e l
             = (shr_record_of_loc (Zpos m) l, e)).
  { intros l. unfold shr_fexp, fexp, emin, prec, emax. simpl Zdigits2.
    rewrite Hd.
    replace (Z.max (53 + e - 53) (3 - 1024 - 53) - e) with 0 by lia.
    reflexivity. }
  unfold binary_round_aux. rewrite Hshift. simpl shr_m.
  simpl loc_of_shr_record. simpl round_nearest_even.
  rewrite Hshift. simpl shr_m.
  unfold emax, prec.
  destruct (Z.leb_spec e (1024 - 53)); [reflexivity | lia].
Qed.

Lemma of_Z_exact (p : positive) :
  Zpos p < 2 ^ 53 -> to_Z (of_Z (Zpos p)) = Some (Zpos p).
Proof.
  intros Hp. pose proof (digits2_pos_le_53 p Hp) as Hd.
  assert (Hd1 : 1 <= Zpos (digits2_pos p)) by lia.
  unfold of_Z, binary_normalize, binary_round, shl_align.
  unfold fexp, emin, prec, emax.
  replace (Z.max (Zpos (digits2_pos p) + 0 - 53) (3 - 1024 - 53))
    with (Zpos (digits2_pos p) - 53) by lia.
  destruct (Zpos (digits2_pos p) - 53 - 0) as [|k|k] eqn:Hk; try lia.
  - replace (Zpos (digits2_pos p) - 53) with 0 by lia.
    change (binary_round_aux 53 1024 false (Zpos p) 0 loc_Exact)
      with (binary_round_aux prec emax false (Zpos p) 0 loc_Exact).
    rewrite binary_round_aux_exact by lia.
    simpl. f_equal. lia.
  - change (binary_round_aux 53 1024 false (Zpos (Pos.iter xO p k))
              (Zpos (digits2_pos p) - 53) loc_Exact)
      with (binary_round_aux prec emax false (Zpos (Pos.iter xO p k))
              (Zpos (digits2_pos p) - 53) loc_Exact).
    rewrite binary_round_aux_exact.
    + unfold to_Z.
      replace (Zpos (digits2_pos p) - 53) with (Zneg k) by lia.
      simpl Z.leb. cbv iota.
      replace (- Zneg k) with (Zpos k) by reflexivity.
      rewrite Zpos_iter_xO.
      rewrite Z.mod_mul by (apply Z.pow_nonzero; lia).
      simpl Z.eqb. cbv iota.
      rewrite Z.div_mul by (apply Z.pow_nonzero; lia).
      reflexivity.
    + rewrite digits2_pos_iter_xO. lia.
    + lia.
Qed.

Lemma to_Z_neg (x : number) (n : Z) :
  to_Z x = Some n -> to_Z (neg x) = Some (- n).
Proof.
  destruct x as [s | s | | s m e]; simpl; try discriminate.
  - intros H. injection H as <-. reflexivity.
  - destruct (0 <=? e).
    + intros H. injection H as <-. f_equal. destruct s; simpl; lia.
    + destruct (Zpos m mod 2 ^ (- e) =? 0); [|discriminate].
      intros H. injection H as <-. f_equal. destruct s; simpl; lia.
Qed.

(** [Math.round] of a non-negative finite Number is the nearest integer,
    the larger one on a tie. *)
Lemma Math_round_nearest (m : positive) (e : Z) :
  Zpos m < 2 ^ 53 ->
  exists n, 0 <= n
            /\ nearest_ties_up n m e
            /\ to_Z (Math_round (S754_finite false m e)) = Some n.
Proof.
  intros Hm. unfold Math_round, nearest_ties_up.
  destruct (Z.leb_spec 0 e) as [He | He].
  - exists (Zpos m * 2 ^ e). repeat split.
    + apply Z.mul_nonneg_nonneg; [lia | apply Z.pow_nonneg; lia].
    + unfold to_Z. destruct (Z.leb_spec 0 e); [reflexivity | lia].
  - set (k := - e). assert (Hk : 1 <= k) by lia.
    simpl cond_Zopp.
    assert (Hpow : 0 < 2 ^ k) by (apply Z.pow_pos_nonneg; lia).
    assert (Hpow1 : 2 ^ (k + 1) = 2 * 2 ^ k)
      by (rewrite Z.pow_add_r by lia; lia).
    assert (Hpow2 : 2 <= 2 ^ k).
    { change 2 with (2 ^ 1) at 1. apply Z.pow_le_mono_r; lia. }
    set (n := (2 * Zpos m + 2 ^ k) / 2 ^ (k + 1)).
    pose proof (Z.div_mod (2 * Zpos m + 2 ^ k) (2 ^ (k + 1))) as Hdm.
    pose proof (Z.mod_pos_bound (2 * Zpos m + 2 ^ k) (2 ^ (k + 1))) as Hmb.
    fold n in Hdm. rewrite Hpow1 in Hdm, Hmb.
    assert (Hn0 : 0 <= n) by (apply Z.div_pos; lia).
    assert (Hspec : (2 * n - 1) * 2 ^ k <= 2 * Zpos m < (2 * n + 1) * 2 ^ k)
      by nia.
    assert (Hn53 : n < 2 ^ 53).
    { assert (2 * n * 2 ^ k <= 2 * Zpos m + 2 ^ k) by nia.
      assert (2 * n * 2 <= 2 * Zpos m + 2) by nia.
      lia. }
    exists n. split; [exact Hn0|]. split; [exact Hspec|].
    destruct n as [|p|p] eqn:Hn; try lia.
    + reflexivity.
    + apply of_Z_exact. exact Hn53.
Qed.

(** Rounding half away from zero, on a finite Number: the magnitude of the
    result is the integer nearest to the magnitude of the argument, the
    larger one on a tie, and the sign is kept. *)
Lemma round_half_away_nearest (s : bool) (m : positive) (e : Z) :
  Zpos m < 2 ^ 53 ->
  exists n, 0 <= n
            /\ nearest_ties_up n m e
            /\ to_Z (round_half_away (S754_finite s m e))
               = Some (cond_Zopp s n).
Proof.
  intros Hm. destruct (Math_round_nearest m e Hm) as (n & Hn0 & Hnear & Hz).
  exists n. split; [exact Hn0|]. split; [exact Hnear|].
  destruct s.
  - unfold round_half_away.
    cbn [geb SFleb SFcompare pzero neg SFopp negb].
    apply to_Z_neg in Hz. exact Hz.
  - exact Hz.
Qed.

(** ** C4: the amount in cents *)

(** C4 — In [transformTransaction] a raw amount that is the empty string,
    [null] or [undefined] yields the Amount NaN.  Any other raw amount [d]
    is converted by rounding [100 * d] half away from zero: [Math.round] of
    it when it is non-negative, and negate, round, negate back when it is
    not; on a finite value the magnitude of the result is the integer nearest
    to the magnitude of [100 * d], the larger one on a tie, and the sign is
    that of [100 * d]; the Amount is then that number or its negation.  The
    conversion of 10.555 is 1056 and that of -10.555 is -1056, where
    [Math.round] alone would give -1055. *)
Theorem amount_conversion {E : Engine}
        (r : WsTransaction) (o : Options) (out : ActualTransaction) :
  transformTransaction r o = Ok out ->
  (missing_amount (amount r) = true -> Amount out = JNum NaN)
  /\ (missing_amount (amount r) = false ->
      let rawCents := mul (ToNumber (amount r)) hundred in
      amountInCents (amount r) = round_half_away rawCents
      /\ (geb rawCents pzero = true ->
          amountInCents (amount r) = Math_round rawCents)
      /\ (geb rawCents pzero = false ->
          amountInCents (amount r) = neg (Math_round (neg rawCents)))
      /\ (Amount out = JNum (Math_abs (round_half_away rawCents))
          \/ Amount out = JNum (neg (Math_abs (round_half_away rawCents))))
      /\ (forall s m e,
            rawCents = S754_finite s m e -> Zpos m < 2 ^ 53 ->
            exists n, 0 <= n
                      /\ nearest_ties_up n m e
                      /\ to_Z (amountInCents (amount r))
                         = Some (cond_Zopp s n)))
  /\ cents d10_555 = of_Z 1056
  /\ cents (neg d10_555) = of_Z (-1056)
  /\ Math_round (mul (neg d10_555) hundred) = of_Z (-1055).
Proof.
  intros H.
  destruct (transformTransaction_inv _ _ _ H)
    as (b & n & p & _ & _ & _ & ->).
  cbn [Amount]. split; [|split; [|repeat split; reflexivity]].
  - intros Hmiss. rewrite (amountInCents_missing _ Hmiss).
    destruct b; reflexivity.
  - intros Hpres. cbv zeta.
    pose proof (amountInCents_present _ Hpres) as Hc.
    split; [exact Hc|]. split; [|split; [|split]].
    + intros Hge. rewrite Hc. unfold round_half_away. rewrite Hge.
      reflexivity.
    + intros Hge. rewrite Hc. unfold round_half_away. rewrite Hge.
      reflexivity.
    + rewrite Hc. destruct b; [right | left]; reflexivity.
    + intros s m e Hr Hm. rewrite Hc, Hr.
      apply round_half_away_nearest. exact Hm.
Qed.

(** The amount "10.555" of the test-suite: the cents are 1056. *)
Lemma amount_conversion_witness :
  exists out,
    transformTransaction (E := Host.engine)
      (typed_record "deposit" (txt "10.555")) no_options = Ok out
    /\ Amount out = JNum (of_Z 1056)
    /\ to_Z (amountInCents (txt "10.555")) = Some 1056.
Proof.
  eexists. split; [vm_compute; reflexivity|].
  split; [reflexivity|].
  match goal with
  | |- _ = ?rhs =>
      destruct (amount_conversion (E := Host.engine)
                  (typed_record "deposit" (txt "10.555")) no_options
                  _ eq_refl)
        as (_ & Hpresent & _)
  end.
  destruct (Hpresent eq_refl) as (_ & _ & _ & _ & Hnear).
  destruct (Hnear false 4642138092470272%positive (-42) eq_refl eq_refl)
    as (n & Hn0 & Hnn & Hz).
  cbn [typed_record amount] in Hz. rewrite Hz. f_equal.
  unfold nearest_ties_up in Hnn. cbn [Z.leb Z.compare Z.opp] in Hnn.
  change (2 ^ 42) with 4398046511104 in Hnn.
  cbn [cond_Zopp]. lia.
Defined.

(** A missing amount is NaN, not zero. *)
Example missing_amount_is_NaN :
  exists out,
    transformTransaction (E := Host.engine)
      (typed_record "payment" JNull) no_options = Ok out
    /\ Amount out = JNum NaN.
Proof. eexists. split; vm_compute; reflexivity. Qed.

(** ** C9: the conversion is symmetric *)

(** The cents of a raw amount that is not missing are those of the Number
    it converts to. *)
Lemma amountInCents_cents (v : JsVal) :
  missing_amount v = false -> amountInCents v = cents (ToNumber v).
Proof.
  intros H. rewrite cents_round_half_away. apply amountInCents_present.
  exact H.
Qed.

Lemma cents_symmetric (d : number) : cents d = neg (cents (neg d)).
Proof. rewrite cents_neg, neg_involutive. reflexivity. Qed.

(** [x == x] fails for NaN. *)
Lemma eqb_nan (x : number) : is_nan x = true -> Num.eqb x x = false.
Proof. destruct x; simpl; try discriminate. reflexivity. Qed.

(** C9, as stated, fails: no raw amount that is a number — given as a
    Number or as a text that converts to one — has
    [cents(d) != -cents(-d)]. *)
Lemma no_amount_breaks_the_symmetry :
  ~ (exists v : JsVal,
        missing_amount v = false
        /\ is_nan (ToNumber v) = false
        /\ Num.eqb (amountInCents v)
                   (neg (cents (neg (ToNumber v)))) = false).
Proof.
  intros (v & Hv & Hd & Hne).
  rewrite (amountInCents_cents v Hv), <- cents_symmetric in Hne.
  rewrite eqb_refl_not_nan in Hne; [discriminate|].
  rewrite cents_nan. exact Hd.
Qed.

(** C9 (amended) — For every raw dollar amount [d] that is a number, the
    cents of [d] and the negated cents of [-d] are the same value, so
    [cents(d) == -cents(-d)] holds whenever [d] is not NaN, and fails only
    for NaN, where the cents are NaN; the same holds for an amount given as
    non-empty text.  In particular [cents(10.555) == 1056] and
    [cents(-10.555) == -1056]. *)
Theorem cents_is_odd (d : number) :
  cents d = neg (cents (neg d))
  /\ (is_nan d = false -> Num.eqb (cents d) (neg (cents (neg d))) = true)
  /\ (is_nan d = true ->
      is_nan (cents d) = true
      /\ Num.eqb (cents d) (neg (cents (neg d))) = false)
  /\ (forall v : JsVal,
        missing_amount v = false -> ToNumber v = d ->
        amountInCents v = neg (cents (neg d)))
  /\ cents d10_555 = of_Z 1056
  /\ cents (neg d10_555) = of_Z (-1056)
  /\ amountInCents (txt "10.555") = of_Z 1056
  /\ amountInCents (txt "-10.555") = of_Z (-1056).
Proof.
  pose proof (cents_symmetric d) as Hodd.
  split; [exact Hodd|]. split; [|split; [|split]].
  - intros Hd. rewrite <- Hodd. apply eqb_refl_not_nan.
    rewrite cents_nan. exact Hd.
  - intros Hd. rewrite <- Hodd. rewrite <- (cents_nan d) in Hd.
    split; [exact Hd | apply eqb_nan; exact Hd].
  - intros v Hv <-. rewrite <- cents_symmetric.
    apply amountInCents_cents. exact Hv.
  - repeat split; reflexivity.
Qed.

Lemma cents_is_odd_witness :
  is_nan d10_555 = false
  /\ Num.eqb (cents d10_555) (neg (cents (neg d10_555))) = true
  /\ missing_amount (txt "10.555") = false
  /\ ToNumber (txt "10.555") = d10_555
  /\ amountInCents (txt "10.555") = neg (cents (neg d10_555)).
Proof.
  destruct (cents_is_odd d10_555) as (_ & Heq & _ & Htext & _).
  split; [reflexivity|]. split; [exact (Heq eq_refl)|].
  split; [reflexivity|]. split; [reflexivity|].
  exact (Htext (txt "10.555") eq_refl eq_refl).
Defined.

(** ** C6: account resolution *)

Lemma find_first {A : Type} (p : A -> bool) (l : list A) (a : A) :
  find p l = Some a ->
  exists i,
    nth_error l i = Some a /\ p a = true
    /\ forall j b, (j < i)%nat -> nth_error l j = Some b -> p b = false.
Proof.
  induction l as [|x l IH]; simpl; [discriminate|].
  destruct (p x) eqn:Hx.
  - intros H. injection H as <-. exists 0%nat.
    split; [reflexivity|]. split; [exact Hx|]. intros j b Hj. lia.
  - intros H. destruct (IH H) as (i & Hi & Hp & Hbefore).
    exists (S i). split; [exact Hi|]. split; [exact Hp|].
    intros [|j] b Hj Hb.
    + simpl in Hb. injection Hb as <-. exact Hx.
    + simpl in Hb. apply (Hbefore j b); [lia | exact Hb].
Qed.

Lemma find_none_iff {A : Type} (p : A -> bool) (l : list A) :
  find p l = None <-> forall a, In a l -> p a = false.
Proof.
  split.
  - intros H a Ha. exact (find_none p l H a Ha).
  - induction l as [|x l IH]; simpl; [reflexivity|].
    intros H. rewrite (H x (or_introl eq_refl)).
    apply IH. intros a Ha. apply H. right. exact Ha.
Qed.

Section ResolveFacts.
Context {E : Engine}.

(** The loop returns the first usable entry whose pattern matches. *)
Lemma resolve_in_find (name : jsstr) (accts : list Config.AccountMapping) :
  Config.resolve_in name accts =
  match find (fun a => usable a && pattern_matches (Config.wsAccountName a)
                                                   name) accts with
  | Some a => Some (resolution_of a name)
  | None => None
  end.
Proof.
  induction accts as [|a accts IH]; simpl; [reflexivity|].
  unfold usable, pattern_matches, is_regex_pattern.
  destruct (is_empty (Config.wsAccountName a)); simpl; [exact IH|].
  destruct (is_empty (Config.actualAccountId a)); simpl; [exact IH|].
  destruct (existsb Config.is_regex_char (Config.wsAccountName a)) eqn:Hre.
  - destruct (RegExp_i_test _ name) as [[|]|]; [|exact IH ..].
    unfold resolution_of, is_regex_pattern. rewrite Hre. reflexivity.
  - destruct (Str.eqb _ _); [|exact IH].
    unfold resolution_of, is_regex_pattern. rewrite Hre. reflexivity.
Qed.

End ResolveFacts.

(** C6, as stated, fails: an entry without an account id is passed over even
    though its pattern matches, and a later entry is returned. *)
Lemma later_entry_is_returned :
  nth_error cash_accounts 0 = Some {| Config.wsAccountName := str "Cash";
                                      Config.actualAccountId := [] |}
  /\ pattern_matches (E := Host.engine) (str "Cash") (str "Cash") = true
  /\ Config.resolveAccount (E := Host.engine) (str "Cash")
       (config_of cash_accounts)
     = Some {| Config.accountId := str "acc-2";
               Config.accountName := str "Cash";
               Config.needsLookup := false;
               Config.matchType := str "exact";
               Config.matchedPattern := str "cash" |}.
Proof. repeat split; reflexivity. Qed.

(** C6 (amended) — For every account name and every ordered list of
    mappings, [resolveAccount] looks only at the entries that have both a
    name pattern and an account id; it returns the first of them, in
    declaration order, whose pattern matches the name, and [null] when none
    does.  A pattern without regex metacharacter matches exactly and
    case-insensitively; a pattern with one matches as the case-insensitive
    regex [^pattern$] (and matches nothing when that is not a valid regex).
    A later entry is never returned when an earlier usable one matches. *)
Theorem resolveAccount_first_match {E : Engine}
        (name : jsstr) (accts : list Config.AccountMapping) :
  (forall res,
      Config.resolveAccount name (config_of accts) = Some res ->
      exists i a,
        nth_error accts i = Some a
        /\ usable a = true
        /\ pattern_matches (Config.wsAccountName a) name = true
        /\ res = resolution_of a name
        /\ forall j b,
            (j < i)%nat -> nth_error accts j = Some b ->
            usable b && pattern_matches (Config.wsAccountName b) name = false)
  /\ (Config.resolveAccount name (config_of accts) = None <->
      forall a, In a accts ->
                usable a && pattern_matches (Config.wsAccountName a) name
                = false)
  /\ (forall pattern,
        is_regex_pattern pattern = false ->
        pattern_matches pattern name
        = Str.eqb (toLowerCase pattern) (toLowerCase name))
  /\ (forall pattern,
        is_regex_pattern pattern = true ->
        (pattern_matches pattern name = true <->
         RegExp_i_test (str "^" ++ pattern ++ str "$") name = Some true))
  /\ Config.resolveAccount name None = None
  /\ Config.resolveAccount name (Some {| Config.accounts := None |}) = None.
Proof.
  unfold config_of, Config.resolveAccount. cbn [Config.accounts].
  rewrite resolve_in_find.
  split; [|split; [|split; [|split; [|split; reflexivity]]]].
  - intros res H.
    destruct (find _ accts) as [a|] eqn:Hfind; [|discriminate].
    injection H as <-.
    destruct (find_first _ _ _ Hfind) as (i & Hi & Hp & Hbefore).
    apply andb_prop in Hp. destruct Hp as [Hu Hm].
    exists i, a. repeat split; assumption.
  - destruct (find _ accts) as [a|] eqn:Hfind.
    + split; [discriminate|]. intros H.
      apply find_none_iff in H. congruence.
    + split; [|reflexivity]. intros _. apply find_none_iff. exact Hfind.
  - intros pattern Hp. unfold pattern_matches. rewrite Hp. reflexivity.
  - intros pattern Hp. unfold pattern_matches. rewrite Hp.
    destruct (RegExp_i_test _ name) as [[|]|]; split; congruence.
Qed.

(** With both entries usable, the first one wins although the second
    matches too. *)
Lemma resolveAccount_first_match_witness :
  let accts :=
    [ {| Config.wsAccountName := str "CASH";
         Config.actualAccountId := str "acc-1" |};
      {| Config.wsAccountName := str "cash";
         Config.actualAccountId := str "acc-2" |} ] in
  exists res,
    Config.resolveAccount (E := Host.engine) (str "Cash") (config_of accts)
    = Some res
    /\ Config.accountId res = str "acc-1"
    /\ Config.matchedPattern res = str "CASH".
Proof.
  cbv zeta. eexists. split; [reflexivity|].
  match goal with
  | |- Config.accountId ?res = _ /\ _ =>
      destruct (resolveAccount_first_match (E := Host.engine) (str "Cash")
                  [ {| Config.wsAccountName := str "CASH";
                       Config.actualAccountId := str "acc-1" |};
                    {| Config.wsAccountName := str "cash";
                       Config.actualAccountId := str "acc-2" |} ])
        as (Hfirst & _);
      destruct (Hfirst res eq_refl) as (i & a & Hi & _ & _ & Hres & Hbefore)
  end.
  destruct i as [|[|i]].
  - injection Hi as <-. split; reflexivity.
  - exfalso. specialize (Hbefore 0%nat _ (Nat.lt_0_succ 0) eq_refl).
    discriminate.
  - destruct i; discriminate.
Defined.

(** ** The matcher finds exactly the matches *)

Section MatcherFacts.
Import Regex RegexSem.

(** Soundness of the iterations of a star, given that of its body. *)
Lemma star_loop_sound (g : bool) (r : regex) (k : cont) (res : mstate) :
  (forall st k', rmatch r st k' = Some res ->
                 exists st', steps r st st' /\ k' st' = Some res) ->
  forall fuel st,
    star_loop (rmatch r) g k fuel st = Some res ->
    exists st', steps (Star g r) st st' /\ k st' = Some res.
Proof.
  intros Hbody. induction fuel as [|fuel IH]; intros st H; simpl in H.
  - exists st. split; [constructor | exact H].
  - assert (Hagain :
      rmatch r st
        (fun st' => if (length (rest st') <? length (rest st))%nat
                    then star_loop (rmatch r) g k fuel st' else None)
      = Some res ->
      exists st', steps (Star g r) st st' /\ k st' = Some res).
    { intros Ha. destruct (Hbody _ _ Ha) as (st1 & Hs1 & Hk1).
      destruct (Nat.ltb_spec (length (rest st1)) (length (rest st)))
        as [Hlt | Hge]; [|discriminate].
      destruct (IH _ Hk1) as (st2 & Hs2 & Hk2).
      exists st2. split; [|exact Hk2].
      eapply steps_star_more; eassumption. }
    destruct g.
    + destruct (rmatch r st _) as [res'|] eqn:Ha.
      * injection H as ->. apply Hagain. reflexivity.
      * exists st. split; [constructor | exact H].
    + destruct (k st) as [res'|] eqn:Hk.
      * injection H as ->. exists st. split; [constructor | exact Hk].
      * apply Hagain. exact H.
Qed.

(** Whatever the matcher returns comes from a match of the pattern followed
    by a success of the continuation. *)
Theorem rmatch_sound (r : regex) :
  forall st k res,
    rmatch r st k = Some res ->
    exists st', steps r st st' /\ k st' = Some res.
Proof.
  induction r as [| p | r1 IH1 r2 IH2 | r1 IH1 r2 IH2 | g r IH | i r IH | |];
    intros st k res H; cbn [rmatch] in H.
  - exists st. split; [constructor | exact H].
  - destruct st as [n s cs]. simpl in H.
    destruct s as [|c s]; [discriminate|].
    destruct (p c) eqn:Hp; [|discriminate].
    eexists. split; [constructor; exact Hp | exact H].
  - destruct (IH1 _ _ _ H) as (st1 & Hs1 & H1).
    destruct (IH2 _ _ _ H1) as (st2 & Hs2 & H2).
    exists st2. split; [econstructor; eassumption | exact H2].
  - destruct (rmatch r1 st k) as [res1|] eqn:H1.
    + injection H as ->. destruct (IH1 _ _ _ H1) as (st' & Hs & Hk).
      exists st'. split; [apply steps_alt_l; exact Hs | exact Hk].
    + destruct (IH2 _ _ _ H) as (st' & Hs & Hk).
      exists st'. split; [apply steps_alt_r; exact Hs | exact Hk].
  - eapply star_loop_sound; [|exact H].
    intros st0 k' Hk'. apply IH. exact Hk'.
  - destruct (IH _ _ _ H) as (st' & Hs & Hk).
    eexists. split; [constructor; exact Hs | exact Hk].
  - destruct (Nat.eqb_spec (pos st) 0); [|discriminate].
    exists st. split; [constructor; assumption | exact H].
  - destruct (rest st) eqn:Hr; [|discriminate].
    exists st. split; [constructor; assumption | exact H].
Qed.

(** Completeness, with the fuel of a star made explicit. *)
Lemma rmatch_complete_fuel (r : regex) (st st' : mstate) :
  steps r st st' ->
  forall k res,
    k st' = Some res ->
    (exists res', rmatch r st k = Some res')
    /\ (forall g r1 fuel,
          r = Star g r1 -> (length (rest st) < fuel)%nat ->
          exists res', star_loop (rmatch r1) g k fuel st = Some res').
Proof.
  induction 1 as [ st | p c s n cs Hp | r1 r2 st st1 st2 _ IH1 _ IH2
                   | r1 r2 st st' _ IH | r1 r2 st st' _ IH
                   | g r st | g r st st1 st2 _ IHbody Hlt _ IHstar
                   | i r st st' _ IH | st Hpos | st Hrest ];
    intros k res Hk.
  - split; [exists res; exact Hk | discriminate].
  - split; [|discriminate]. simpl. rewrite Hp. exists res. exact Hk.
  - split; [|discriminate]. simpl.
    destruct (IH2 _ _ Hk) as [[res2 H2] _].
    destruct (IH1 (fun st1 => rmatch r2 st1 k) _ H2) as [[res1 H1] _].
    exists res1. exact H1.
  - split; [|discriminate]. simpl.
    destruct (IH _ _ Hk) as [[res1 H1] _]. rewrite H1. eexists; reflexivity.
  - split; [|discriminate]. simpl.
    destruct (rmatch r1 st k) as [res1|]; [eexists; reflexivity|].
    destruct (IH _ _ Hk) as [H2 _]. exact H2.
  - assert (Hloop : forall fuel, exists res',
               star_loop (rmatch r) g k fuel st = Some res').
    { intros [|fuel]; simpl; [exists res; exact Hk|].
      destruct g.
      - destruct (rmatch r st _); [eexists; reflexivity | exists res; exact Hk].
      - rewrite Hk. eexists; reflexivity. }
    split; [apply Hloop|].
    intros g' r1 fuel Heq _. injection Heq as <- <-. apply Hloop.
  - assert (Hloop : forall fuel, (length (rest st) < fuel)%nat ->
               exists res', star_loop (rmatch r) g k fuel st = Some res').
    { intros [|fuel] Hfuel; [lia|]. simpl.
      destruct (IHstar _ _ Hk) as [_ Hrec].
      destruct (Hrec g r fuel eq_refl ltac:(lia)) as [res2 H2].
      destruct (IHbody
                  (fun st' => if (length (rest st') <? length (rest st))%nat
                              then star_loop (rmatch r) g k fuel st'
                              else None) res2) as [[res1 H1] _].
      { destruct (Nat.ltb_spec (length (rest st1)) (length (rest st)));
          [exact H2 | lia]. }
      rewrite H1. destruct g; [eexists; reflexivity|].
      destruct (k st); eexists; reflexivity. }
    split; [apply Hloop; lia|].
    intros g' r1 fuel Heq Hfuel. injection Heq as <- <-. apply Hloop, Hfuel.
  - split; [|discriminate]. simpl.
    destruct (IH (fun st' => k (capture i st st')) _ Hk) as [H1 _]. exact H1.
  - split; [|discriminate]. simpl. rewrite Hpos. exists res. exact Hk.
  - split; [|discriminate]. simpl. rewrite Hrest. exists res. exact Hk.
Qed.

(** Whenever the pattern has a match on which the continuation succeeds, the
    matcher succeeds. *)
Theorem rmatch_complete (r : regex) (st st' : mstate) (k : cont)
        (res : mstate) :
  steps r st st' -> k st' = Some res ->
  exists res', rmatch r st k = Some res'.
Proof.
  intros Hs Hk. destruct (rmatch_complete_fuel r st st' Hs k res Hk) as [H _].
  exact H.
Qed.

End MatcherFacts.

(** ** C8: currency text *)

Section PatternFacts.
Import Regex RegexSem.

Lemma consumed_nil (st : mstate) : consumed st [] st.
Proof. unfold consumed. simpl. rewrite Nat.add_0_r. auto. Qed.

Lemma consumed_trans (st st1 st2 : mstate) (w1 w2 : jsstr) :
  consumed st w1 st1 -> consumed st1 w2 st2 -> consumed st (w1 ++ w2) st2.
Proof.
  intros (Hr1 & Hp1 & Hc1) (Hr2 & Hp2 & Hc2). unfold consumed.
  rewrite Hr1, Hr2, Hp2, Hp1, Hc2, Hc1, length_app, <- app_assoc.
  repeat split. lia.
Qed.

Lemma steps_chr_inv (p : N -> bool) (st st' : mstate) :
  steps (Chr p) st st' -> exists c, p c = true /\ consumed st [c] st'.
Proof.
  intros H. inversion H as [| p' c s n cs Hp | | | | | | | |]; subst.
  exists c. split; [exact Hp|]. unfold consumed. simpl.
  repeat split. lia.
Qed.

Lemma steps_star_chr_inv (g : bool) (p : N -> bool) (st st' : mstate) :
  steps (Star g (Chr p)) st st' ->
  exists w, forallb p w = true /\ consumed st w st'.
Proof.
  intros H. remember (Star g (Chr p)) as r eqn:Hr.
  induction H as [ | | | | | g' r' st | g' r' st st1 st2 Hbody _ Hlt _ IH
                   | | | ]; try discriminate.
  - exists []. split; [reflexivity | apply consumed_nil].
  - injection Hr as -> ->.
    destruct (steps_chr_inv _ _ _ Hbody) as (c & Hc & Hcons).
    destruct (IH eq_refl) as (w & Hw & Hcons').
    exists ([c] ++ w). split.
    + simpl. rewrite Hc, Hw. reflexivity.
    + eapply consumed_trans; eassumption.
Qed.

Lemma steps_seq_inv (r1 r2 : regex) (st st2 : mstate) :
  steps (Seq r1 r2) st st2 ->
  exists st1, steps r1 st st1 /\ steps r2 st1 st2.
Proof.
  intros H. inversion H; subst. eexists. split; eassumption.
Qed.

Lemma steps_opt_inv (r : regex) (st st' : mstate) :
  steps (Opt r) st st' -> steps r st st' \/ st' = st.
Proof.
  unfold Opt. intros H.
  inversion H as [| | | r1 r2 s s' Hl | r1 r2 s s' Hr | | | | |]; subst.
  - left. exact Hl.
  - right. inversion Hr. reflexivity.
Qed.

Lemma steps_group_inv (i : nat) (r : regex) (st st'' : mstate) :
  steps (Group i r) st st'' ->
  exists st', steps r st st' /\ st'' = capture i st st'.
Proof.
  intros H. inversion H; subst. eexists. split; [eassumption | reflexivity].
Qed.

Lemma steps_plus_chr_inv (g : bool) (p : N -> bool) (st st' : mstate) :
  steps (Plus g (Chr p)) st st' ->
  exists w, is_empty w = false /\ forallb p w = true /\ consumed st w st'.
Proof.
  unfold Plus. intros H.
  destruct (steps_seq_inv _ _ _ _ H) as (st1 & H1 & H2).
  destruct (steps_chr_inv _ _ _ H1) as (c & Hc & Hcons).
  destruct (steps_star_chr_inv _ _ _ _ H2) as (w & Hw & Hcons').
  exists ([c] ++ w). split; [reflexivity|]. split.
  - simpl. rewrite Hc, Hw. reflexivity.
  - eapply consumed_trans; eassumption.
Qed.

Lemma steps_times_chr_inv (p : N -> bool) (n : nat) :
  forall st st',
    steps (Times n (Chr p)) st st' ->
    exists w, length w = n /\ forallb p w = true /\ consumed st w st'.
Proof.
  induction n as [|n IH]; intros st st' H; simpl in H.
  - inversion H; subst. exists []. split; [reflexivity|].
    split; [reflexivity | apply consumed_nil].
  - destruct (steps_seq_inv _ _ _ _ H) as (st1 & H1 & H2).
    destruct (steps_chr_inv _ _ _ H1) as (c & Hc & Hcons).
    destruct (IH _ _ H2) as (w & Hlen & Hw & Hcons').
    exists ([c] ++ w). split; [simpl; rewrite Hlen; reflexivity|]. split.
    + simpl. rewrite Hc, Hw. reflexivity.
    + eapply consumed_trans; eassumption.
Qed.

Lemma steps_opt_chr_inv (p : N -> bool) (st st' : mstate) :
  steps (Opt (Chr p)) st st' ->
  exists w, optional p w = true /\ consumed st w st'.
Proof.
  intros H. destruct (steps_opt_inv _ _ _ H) as [H1 | ->].
  - destruct (steps_chr_inv _ _ _ H1) as (c & Hc & Hcons).
    exists [c]. split; [exact Hc | exact Hcons].
  - exists []. split; [reflexivity | apply consumed_nil].
Qed.

(** A group around a pattern that records nothing records what the pattern
    consumed. *)
Lemma capture_consumed (i : nat) (st st' : mstate) (w : jsstr) :
  consumed st w st' -> recorded i st w (capture i st st').
Proof.
  intros (Hr & Hp & Hc). unfold recorded, capture. simpl.
  repeat split; try assumption.
  rewrite Hp, Hr, Hc. f_equal. f_equal.
  replace (pos st + length w - pos st)%nat with (length w + 0)%nat by lia.
  rewrite firstn_app_2. simpl. apply app_nil_r.
Qed.

Lemma recorded_maybe (i : nat) (st st' : mstate) (w : jsstr) :
  is_empty w = false -> recorded i st w st' -> maybe_recorded i st w st'.
Proof.
  intros Hw (Hr & Hp & Hc). unfold maybe_recorded, optional_capture.
  rewrite Hw. auto.
Qed.

Lemma maybe_recorded_nil (i : nat) (st : mstate) : maybe_recorded i st [] st.
Proof.
  unfold maybe_recorded, optional_capture. simpl. rewrite Nat.add_0_r. auto.
Qed.

Lemma steps_opt_group_chr_inv (i : nat) (p : N -> bool) (st st' : mstate) :
  steps (Opt (Group i (Chr p))) st st' ->
  exists w, optional p w = true /\ maybe_recorded i st w st'.
Proof.
  intros H. destruct (steps_opt_inv _ _ _ H) as [H1 | ->].
  - destruct (steps_group_inv _ _ _ _ H1) as (st1 & H2 & ->).
    destruct (steps_chr_inv _ _ _ H2) as (c & Hc & Hcons).
    exists [c]. split; [exact Hc|].
    apply recorded_maybe; [reflexivity|].
    apply capture_consumed. exact Hcons.
  - exists []. split; [reflexivity | apply maybe_recorded_nil].
Qed.

Lemma steps_opt_group_times_inv (i n : nat) (p : N -> bool)
      (st st' : mstate) :
  steps (Opt (Group i (Times (S n) (Chr p)))) st st' ->
  exists w, (is_empty w || ((length w =? S n)%nat && forallb p w)) = true
            /\ maybe_recorded i st w st'.
Proof.
  intros H. destruct (steps_opt_inv _ _ _ H) as [H1 | ->].
  - destruct (steps_group_inv _ _ _ _ H1) as (st1 & H2 & ->).
    destruct (steps_times_chr_inv _ _ _ _ H2) as (w & Hlen & Hw & Hcons).
    exists w. split.
    + rewrite Hlen, Nat.eqb_refl, Hw. apply orb_true_r.
    + apply recorded_maybe; [destruct w; [discriminate | reflexivity]|].
      apply capture_consumed. exact Hcons.
  - exists []. split; [reflexivity | apply maybe_recorded_nil].
Qed.

(** *** Building matches *)

Lemma steps_star_chr_intro (g : bool) (p : N -> bool) (w : jsstr) :
  forallb p w = true ->
  forall n s cs,
    steps (Star g (Chr p)) (MState n (w ++ s) cs)
          (MState (n + length w) s cs).
Proof.
  induction w as [|c w IH]; intros Hw n s cs; simpl.
  - rewrite Nat.add_0_r. constructor.
  - simpl in Hw. apply andb_prop in Hw. destruct Hw as [Hc Hw].
    eapply steps_star_more.
    + constructor. exact Hc.
    + simpl. lia.
    + replace (n + S (length w))%nat with (S n + length w)%nat by lia.
      apply IH. exact Hw.
Qed.

Lemma steps_plus_chr_intro (g : bool) (p : N -> bool) (w : jsstr) :
  is_empty w = false -> forallb p w = true ->
  forall n s cs,
    steps (Plus g (Chr p)) (MState n (w ++ s) cs)
          (MState (n + length w) s cs).
Proof.
  intros Hne Hw n s cs. destruct w as [|c w]; [discriminate|].
  simpl in Hw. apply andb_prop in Hw. destruct Hw as [Hc Hw].
  unfold Plus. eapply steps_seq.
  - simpl. constructor. exact Hc.
  - replace (n + length (c :: w))%nat with (S n + length w)%nat
      by (simpl; lia).
    apply steps_star_chr_intro. exact Hw.
Qed.

Lemma steps_times_chr_intro (p : N -> bool) (w : jsstr) :
  forallb p w = true ->
  forall n s cs,
    steps (Times (length w) (Chr p)) (MState n (w ++ s) cs)
          (MState (n + length w) s cs).
Proof.
  induction w as [|c w IH]; intros Hw n s cs; simpl.
  - rewrite Nat.add_0_r. constructor.
  - simpl in Hw. apply andb_prop in Hw. destruct Hw as [Hc Hw].
    eapply steps_seq.
    + constructor. exact Hc.
    + replace (n + S (length w))%nat with (S n + length w)%nat by lia.
      apply IH. exact Hw.
Qed.

Lemma steps_opt_chr_intro (p : N -> bool) (w : jsstr) :
  optional p w = true ->
  forall n s cs,
    steps (Opt (Chr p)) (MState n (w ++ s) cs) (MState (n + length w) s cs).
Proof.
  intros Hw n s cs. unfold Opt.
  destruct w as [|c [|d w]]; simpl in *; try discriminate.
  - rewrite Nat.add_0_r. apply steps_alt_r. constructor.
  - apply steps_alt_l. replace (n + 1)%nat with (S n) by lia.
    constructor. exact Hw.
Qed.

Lemma steps_group_intro (i : nat) (r : regex) (w s : jsstr) (n : nat)
      (cs : list (nat * jsstr)) :
  steps r (MState n (w ++ s) cs) (MState (n + length w) s cs) ->
  steps (Group i r) (MState n (w ++ s) cs)
        (MState (n + length w) s ((i, w) :: cs)).
Proof.
  intros H0. pose proof (steps_group i _ _ _ H0) as H.
  unfold capture in H. simpl in H.
  replace (n + length w - n)%nat with (length w + 0)%nat in H by lia.
  rewrite firstn_app_2 in H. simpl in H. rewrite app_nil_r in H.
  exact H.
Qed.

Lemma steps_opt_group_intro (i : nat) (r : regex) (w s : jsstr) (n : nat)
      (cs : list (nat * jsstr)) :
  (is_empty w = false ->
   steps r (MState n (w ++ s) cs) (MState (n + length w) s cs)) ->
  steps (Opt (Group i r)) (MState n (w ++ s) cs)
        (MState (n + length w) s (optional_capture i w cs)).
Proof.
  intros H. unfold Opt, optional_capture.
  destruct w as [|c w].
  - simpl. rewrite Nat.add_0_r. apply steps_alt_r. constructor.
  - apply steps_alt_l. apply steps_group_intro. apply H. reflexivity.
Qed.

End PatternFacts.

(** *** Character classes *)

Section CurrencyFacts.
Import Regex RegexSem.

Lemma is_digit_range (c : N) :
  is_digit c = true <-> (48 <= c <= 57)%N.
Proof.
  unfold is_digit, between. rewrite andb_true_iff, !N.leb_le. reflexivity.
Qed.

Lemma is_upper_range (c : N) :
  is_upper c = true <-> (65 <= c <= 90)%N.
Proof.
  unfold is_upper, between. rewrite andb_true_iff, !N.leb_le. reflexivity.
Qed.

Lemma is_digit_or_comma_range (c : N) :
  is_digit_or_comma c = true <-> (48 <= c <= 57)%N \/ c = 44%N.
Proof.
  unfold is_digit_or_comma. rewrite orb_true_iff, is_digit_range, N.eqb_eq.
  reflexivity.
Qed.

Lemma digit_or_comma_not_lead (c : N) :
  is_digit_or_comma c = true -> is_lead c = false.
Proof.
  rewrite is_digit_or_comma_range. intros H.
  unfold_classes. settle_comparisons. reflexivity.
Qed.

Lemma digit_not_space (c : N) : is_digit c = true -> is_space c = false.
Proof.
  rewrite is_digit_range. intros H.
  unfold_classes. settle_comparisons. reflexivity.
Qed.

Lemma digit_not_comma (c : N) : is_digit c = true -> (c =? ch ",")%N = false.
Proof.
  rewrite is_digit_range. intros H.
  unfold_classes. settle_comparisons. reflexivity.
Qed.

Lemma space_not_digit_or_comma (c : N) :
  is_space c = true -> is_digit_or_comma c = false.
Proof.
  intros H. destruct (is_digit_or_comma c) eqn:Hd; [|reflexivity].
  apply digit_or_comma_not_lead in Hd. unfold is_lead in Hd.
  rewrite H, orb_true_r in Hd. discriminate.
Qed.

Lemma upper_not_digit_or_comma (c : N) :
  is_upper c = true -> is_digit_or_comma c = false.
Proof.
  rewrite is_upper_range. intros H.
  unfold_classes. settle_comparisons. reflexivity.
Qed.

Lemma upper_not_space (c : N) : is_upper c = true -> is_space c = false.
Proof.
  rewrite is_upper_range. intros H.
  unfold_classes. settle_comparisons. reflexivity.
Qed.

Lemma space_not_sign (c : N) : is_space c = true -> Parser.is_sign c = false.
Proof.
  intros H. destruct (Parser.is_sign c) eqn:Hs; [|reflexivity].
  revert Hs H. unfold Parser.is_sign. rewrite !orb_true_iff, !N.eqb_eq.
  unfold ch. cbn [N_of_ascii N_of_digits N.add N.mul Pos.add Pos.mul Pos.succ].
  intros [[-> | ->] | ->]; discriminate.
Qed.

(** *** Splitting a text at the end of a class *)

Lemma split_unique (p : N -> bool) (a : jsstr) :
  forall a' b b',
    forallb p a = true -> forallb p a' = true ->
    starts_outside p b = true -> starts_outside p b' = true ->
    a ++ b = a' ++ b' -> a = a' /\ b = b'.
Proof.
  induction a as [|c a IH]; intros [|c' a'] b b' Ha Ha' Hb Hb' Heq;
    simpl in *.
  - auto.
  - subst b. simpl in Hb. apply andb_prop in Ha'. destruct Ha' as [Hc _].
    rewrite Hc in Hb. discriminate.
  - subst b'. simpl in Hb'. apply andb_prop in Ha. destruct Ha as [Hc _].
    rewrite Hc in Hb'. discriminate.
  - injection Heq as <- Heq.
    apply andb_prop in Ha. destruct Ha as [_ Ha].
    apply andb_prop in Ha'. destruct Ha' as [_ Ha'].
    destruct (IH a' b b' Ha Ha' Hb Hb' Heq) as [-> ->]. auto.
Qed.

Lemma span_app (p : N -> bool) (a b : jsstr) :
  forallb p a = true -> starts_outside p b = true ->
  span p (a ++ b) = (a, b).
Proof.
  intros Ha Hb. unfold span. induction a as [|c a IH]; simpl in *.
  - destruct b as [|c b]; [reflexivity|]. simpl in Hb.
    destruct (p c); [discriminate | reflexivity].
  - apply andb_prop in Ha. destruct Ha as [Hc Ha]. rewrite Hc.
    rewrite (IH Ha). reflexivity.
Qed.

Lemma forallb_weaken (p q : N -> bool) (s : jsstr) :
  (forall c, p c = true -> q c = true) ->
  forallb p s = true -> forallb q s = true.
Proof.
  intros Hpq. induction s as [|c s IH]; simpl; [reflexivity|].
  intros H. apply andb_prop in H. destruct H as [Hc Hs].
  rewrite (Hpq c Hc), (IH Hs). reflexivity.
Qed.

Lemma optional_forallb (p : N -> bool) (w : jsstr) :
  optional p w = true -> forallb p w = true.
Proof.
  destruct w as [|c [|d w]]; simpl; try discriminate; auto.
  intros ->. reflexivity.
Qed.

Lemma find_app_outside (p q : N -> bool) (a b : jsstr) :
  (forall c, q c = true -> p c = false) ->
  forallb q a = true -> find p (a ++ b) = find p b.
Proof.
  intros Hqp. induction a as [|c a IH]; simpl; [reflexivity|].
  intros H. apply andb_prop in H. destruct H as [Hc Ha].
  rewrite (Hqp c Hc). apply IH. exact Ha.
Qed.

(** *** The pattern and the readings *)

(** A pattern anchored at the start matches at the start or not at all. *)
Lemma exec_from_unanchored (r : regex) (s : jsstr) :
  forall p, p <> 0%nat -> exec_from (Seq Bol r) p s = None.
Proof.
  induction s as [|c s IH]; intros p Hp; cbn [exec_from rmatch pos];
    destruct (Nat.eqb_spec p 0) as [->|_]; try contradiction; auto.
Qed.

Lemma exec_anchored (r : regex) (s : jsstr) (m : list (nat * jsstr)) :
  exec (Seq Bol r) s = Some m ->
  exists st, steps r (MState 0 s []) st /\ m = caps st.
Proof.
  unfold exec. intros H.
  assert (Hm : exists res, rmatch (Seq Bol r) (MState 0 s []) Some = Some res
                           /\ m = caps res).
  { destruct s as [|c s]; cbn [exec_from] in H;
      destruct (rmatch (Seq Bol r) _ Some) as [res|] eqn:Hres.
    - injection H as <-. eauto.
    - discriminate.
    - injection H as <-. eauto.
    - rewrite exec_from_unanchored in H by discriminate. discriminate. }
  destruct Hm as (res & Hres & ->).
  destruct (rmatch_sound _ _ _ _ Hres) as (st' & Hs & Hk).
  injection Hk as ->.
  destruct (steps_seq_inv _ _ _ _ Hs) as (st1 & Hb & Hr).
  inversion Hb; subst. eauto.
Qed.

Lemma anchored_exec (r : regex) (s : jsstr) (st : mstate) :
  steps r (MState 0 s []) st ->
  exists m, exec (Seq Bol r) s = Some m.
Proof.
  intros Hs.
  assert (Hsteps : steps (Seq Bol r) (MState 0 s []) st).
  { eapply steps_seq; [apply steps_bol; reflexivity | exact Hs]. }
  destruct (rmatch_complete _ _ _ Some st Hsteps eq_refl) as (res & Hres).
  unfold exec. destruct s as [|c s]; cbn [exec_from]; rewrite Hres; eauto.
Qed.

Lemma steps_decimals_inv (st st' : mstate) :
  steps (Opt (Seq (Chr (exact (ch "."))) (Times 2 (Chr is_digit)))) st st' ->
  exists d, is_decimals d = true /\ consumed st d st'.
Proof.
  intros H. destruct (steps_opt_inv _ _ _ H) as [H3 | ->].
  - destruct (steps_seq_inv _ _ _ _ H3) as (st2 & Hdot & Hdd).
    destruct (steps_chr_inv _ _ _ Hdot) as (c & Hc & Hcons1).
    destruct (steps_times_chr_inv _ _ _ _ Hdd) as (dd & Hlen & Hdd' & Hcons2).
    exists ([c] ++ dd). split.
    + destruct dd as [|d1 [|d2 [|d3 dd]]]; try discriminate.
      cbn [forallb] in Hdd'. unfold exact in Hc. rewrite N.eqb_sym in Hc.
      unfold is_decimals. cbn [app]. rewrite Hc.
      rewrite andb_true_r in Hdd'. exact Hdd'.
    + eapply consumed_trans; eassumption.
  - exists []. split; [reflexivity | apply consumed_nil].
Qed.

(** The number part of the pattern: the run, then the decimals. *)
Lemma steps_number_inv (st st' : mstate) :
  steps (Seq (Plus true (Chr is_digit_or_comma))
             (Opt (Seq (Chr (exact (ch "."))) (Times 2 (Chr is_digit)))))
        st st' ->
  exists w d,
    is_empty w = false /\ forallb is_digit_or_comma w = true
    /\ is_decimals d = true /\ consumed st (w ++ d) st'.
Proof.
  intros H. destruct (steps_seq_inv _ _ _ _ H) as (st1 & H1 & H2).
  destruct (steps_plus_chr_inv _ _ _ _ H1) as (w & Hne & Hw & Hcons).
  destruct (steps_decimals_inv _ _ H2) as (d & Hd & Hcons').
  exists w, d. split; [exact Hne|]. split; [exact Hw|].
  split; [exact Hd|]. eapply consumed_trans; eassumption.
Qed.

Lemma steps_number_intro (w d s : jsstr) (n : nat)
      (cs : list (nat * jsstr)) :
  is_empty w = false -> forallb is_digit_or_comma w = true ->
  is_decimals d = true ->
  steps (Seq (Plus true (Chr is_digit_or_comma))
             (Opt (Seq (Chr (exact (ch "."))) (Times 2 (Chr is_digit)))))
        (MState n ((w ++ d) ++ s) cs)
        (MState (n + length (w ++ d)) s cs).
Proof.
  intros Hne Hw Hd. rewrite <- app_assoc, length_app, Nat.add_assoc.
  eapply steps_seq; [apply steps_plus_chr_intro; assumption|].
  unfold Opt. destruct d as [|p [|d1 [|d2 [|d3 d]]]]; try discriminate.
  - simpl. rewrite Nat.add_0_r. apply steps_alt_r. constructor.
  - simpl in Hd. apply andb_prop in Hd. destruct Hd as [Hd Hd2].
    apply andb_prop in Hd. destruct Hd as [Hp Hd1].
    apply steps_alt_l. eapply steps_seq.
    + simpl. constructor. unfold exact. rewrite N.eqb_sym. exact Hp.
    + replace (n + length w + length [p; d1; d2])%nat
        with (S (n + length w) + length [d1; d2])%nat by (simpl; lia).
      apply (steps_times_chr_intro is_digit [d1; d2]).
      simpl. rewrite Hd1, Hd2. reflexivity.
Qed.

Lemma steps_code_inv (st st' : mstate) :
  steps (Opt (Group 4 (Times 3 (Chr is_upper)))) st st' ->
  exists w, is_code w = true /\ maybe_recorded 4 st w st'.
Proof. apply steps_opt_group_times_inv. Qed.

(** Every match of the pattern is a reading of the text, and the captures
    are those of the reading. *)
Lemma currency_pattern_reading (value : jsstr) (m : list (nat * jsstr)) :
  exec Parser.currency_pattern value = Some m ->
  exists r, reads_as value r /\ m = reading_captures r.
Proof.
  intros H. unfold Parser.currency_pattern, Parser.spaces in H.
  apply exec_anchored in H. destruct H as (st9 & Hs & ->).
  destruct (steps_seq_inv _ _ _ _ Hs) as (st1 & H1 & Hs1). clear Hs.
  destruct (steps_seq_inv _ _ _ _ Hs1) as (st2 & H2 & Hs2). clear Hs1.
  destruct (steps_seq_inv _ _ _ _ Hs2) as (st3 & H3 & Hs3). clear Hs2.
  destruct (steps_seq_inv _ _ _ _ Hs3) as (st4 & H4 & Hs4). clear Hs3.
  destruct (steps_seq_inv _ _ _ _ Hs4) as (st5 & H5 & Hs5). clear Hs4.
  destruct (steps_seq_inv _ _ _ _ Hs5) as (st6 & H6 & Hs6). clear Hs5.
  destruct (steps_seq_inv _ _ _ _ Hs6) as (st7 & H7 & Hs7). clear Hs6.
  destruct (steps_seq_inv _ _ _ _ Hs7) as (st8 & H8 & H9). clear Hs7.
  destruct (steps_opt_group_chr_inv _ _ _ _ H1) as (s1 & Hs1 & R1 & P1 & C1).
  destruct (steps_star_chr_inv _ _ _ _ H2) as (g1 & Hg1 & R2 & P2 & C2).
  destruct (steps_opt_chr_inv _ _ _ H3) as (dl & Hdl & R3 & P3 & C3).
  destruct (steps_opt_group_chr_inv _ _ _ _ H4) as (s2 & Hs2 & R4 & P4 & C4).
  destruct (steps_star_chr_inv _ _ _ _ H5) as (g2 & Hg2 & R5 & P5 & C5).
  destruct (steps_group_inv _ _ _ _ H6) as (st6' & H6' & ->).
  destruct (steps_number_inv _ _ H6') as (w & d & Hne & Hw & Hd & Hcons).
  destruct (capture_consumed 3 _ _ _ Hcons) as (R6 & P6 & C6).
  destruct (steps_star_chr_inv _ _ _ _ H7) as (g3 & Hg3 & R7 & P7 & C7).
  destruct (steps_code_inv _ _ H8) as (cd & Hcd & R8 & P8 & C8).
  inversion H9 as [| | | | | | | | | st Hend]; subst.
  exists {| sign1 := s1; gap1 := g1; dollar := dl; sign2 := s2; gap2 := g2;
            run := w; decimals := d; gap3 := g3; code := cd |}.
  split; [split|].
  - unfold reading_text. cbn [sign1 gap1 dollar sign2 gap2 run decimals gap3
                               code].
    simpl in R1. rewrite R1, R2, R3, R4, R5, R6, R7, R8, Hend, app_nil_r.
    rewrite <- app_assoc. reflexivity.
  - unfold well_formed. cbn [sign1 gap1 dollar sign2 gap2 run decimals gap3
                              code].
    rewrite Hs1, Hg1, Hdl, Hs2, Hg2, Hne, Hw, Hd, Hg3, Hcd. reflexivity.
  - unfold reading_captures. cbn [sign1 gap1 dollar sign2 gap2 run decimals
                                   gap3 code].
    simpl in C1. rewrite C8, C7, C6, C5, C4, C3, C2, C1. reflexivity.
Qed.

Lemma steps_chr_optional_intro (p : N -> bool) (w s : jsstr) (n : nat)
      (cs : list (nat * jsstr)) :
  optional p w = true -> is_empty w = false ->
  steps (Chr p) (MState n (w ++ s) cs) (MState (n + length w) s cs).
Proof.
  destruct w as [|c [|d w]]; simpl; try discriminate.
  intros Hc _. replace (n + 1)%nat with (S n) by lia.
  constructor. exact Hc.
Qed.

Lemma steps_code_intro (w s : jsstr) (n : nat) (cs : list (nat * jsstr)) :
  is_code w = true -> is_empty w = false ->
  steps (Times 3 (Chr is_upper)) (MState n (w ++ s) cs)
        (MState (n + length w) s cs).
Proof.
  unfold is_code. intros H Hne. rewrite Hne in H. simpl in H.
  apply andb_prop in H. destruct H as [Hlen Hw].
  apply Nat.eqb_eq in Hlen. rewrite <- Hlen.
  apply steps_times_chr_intro. exact Hw.
Qed.

(** Every reading of a text is a match of the pattern. *)
Lemma reading_currency_pattern (value : jsstr) (r : Reading) :
  reads_as value r ->
  exists m, exec Parser.currency_pattern value = Some m.
Proof.
  intros [-> Hwf]. unfold well_formed in Hwf. split_andb Hwf.
  assert (Htext : reading_text r
                  = sign1 r ++ gap1 r ++ dollar r ++ sign2 r ++ gap2 r
                    ++ (run r ++ decimals r) ++ gap3 r ++ code r ++ []).
  { unfold reading_text. rewrite app_nil_r, <- app_assoc. reflexivity. }
  rewrite Htext. unfold Parser.currency_pattern, Parser.spaces.
  eapply anchored_exec.
  eapply steps_seq.
  { apply steps_opt_group_intro. intros Hne.
    apply steps_chr_optional_intro; assumption. }
  eapply steps_seq; [apply steps_star_chr_intro; assumption|].
  eapply steps_seq; [apply steps_opt_chr_intro; assumption|].
  eapply steps_seq.
  { apply steps_opt_group_intro. intros Hne.
    apply steps_chr_optional_intro; assumption. }
  eapply steps_seq; [apply steps_star_chr_intro; assumption|].
  eapply steps_seq.
  { apply steps_group_intro. apply steps_number_intro; try assumption.
    destruct (run r); [discriminate | reflexivity]. }
  eapply steps_seq; [apply steps_star_chr_intro; assumption|].
  eapply steps_seq.
  { apply steps_opt_group_intro. intros Hne.
    apply steps_code_intro; assumption. }
  apply steps_eol. reflexivity.
Qed.

(** *** What the captures of a reading give *)

Lemma group_optional_capture_same (i : nat) (w : jsstr)
      (cs : list (nat * jsstr)) :
  is_empty w = false -> group i (optional_capture i w cs) = Some w.
Proof.
  intros H. unfold optional_capture. rewrite H. simpl.
  rewrite Nat.eqb_refl. reflexivity.
Qed.

Lemma group_optional_capture_other (i j : nat) (w : jsstr)
      (cs : list (nat * jsstr)) :
  i <> j -> group i (optional_capture j w cs) = group i cs.
Proof.
  intros H. unfold optional_capture. destruct (is_empty w); [reflexivity|].
  simpl. destruct (Nat.eqb_spec i j); [contradiction | reflexivity].
Qed.

Lemma group_optional_capture_absent (i : nat) (cs : list (nat * jsstr)) :
  group i (optional_capture i [] cs) = group i cs.
Proof. reflexivity. Qed.

Lemma group_1_reading (r : Reading) :
  group 1 (reading_captures r)
  = if is_empty (sign1 r) then None else Some (sign1 r).
Proof.
  unfold reading_captures.
  rewrite group_optional_capture_other by discriminate.
  cbn [group Nat.eqb].
  rewrite group_optional_capture_other by discriminate.
  unfold optional_capture. destruct (sign1 r); reflexivity.
Qed.

Lemma group_2_reading (r : Reading) :
  group 2 (reading_captures r)
  = if is_empty (sign2 r) then None else Some (sign2 r).
Proof.
  unfold reading_captures.
  rewrite group_optional_capture_other by discriminate.
  cbn [group Nat.eqb].
  destruct (sign2 r) as [|c s] eqn:Hs.
  - rewrite group_optional_capture_absent.
    rewrite group_optional_capture_other by discriminate. reflexivity.
  - apply group_optional_capture_same. reflexivity.
Qed.

Lemma group_3_reading (r : Reading) :
  group 3 (reading_captures r) = Some (run r ++ decimals r).
Proof.
  unfold reading_captures.
  rewrite group_optional_capture_other by discriminate. reflexivity.
Qed.

Lemma group_4_reading (r : Reading) :
  group 4 (reading_captures r)
  = if is_empty (code r) then None else Some (code r).
Proof.
  unfold reading_captures.
  destruct (code r) as [|c s] eqn:Hs.
  - rewrite group_optional_capture_absent. cbn [group Nat.eqb].
    rewrite !group_optional_capture_other by discriminate. reflexivity.
  - apply group_optional_capture_same. reflexivity.
Qed.

(** The result of [parseCurrencyValue] when the captures are those of the
    reading [r]. *)
Lemma parseCurrencyValue_of_reading (value : jsstr) (r : Reading) :
  exec Parser.currency_pattern value = Some (reading_captures r) ->
  Parser.parseCurrencyValue value
  = {| Parser.amount :=
         JNum (mul (NumLit.parseFloat (reading_digits r)) (reading_sign r));
       Parser.currency := reading_currency r |}.
Proof.
  intros H. unfold Parser.parseCurrencyValue. rewrite H.
  rewrite group_1_reading, group_2_reading, group_3_reading,
    group_4_reading.
  unfold reading_sign, sign_text, reading_digits, reading_currency,
    Parser.first_present.
  destruct (sign1 r) as [|a s1]; destruct (sign2 r) as [|b s2];
    destruct (code r) as [|c cd]; reflexivity.
Qed.

(** *** A text has one value, whatever its reading *)

Lemma dollar_not_sign (c : N) :
  exact (ch "$") c = true -> Parser.is_sign c = false.
Proof.
  unfold exact. rewrite N.eqb_eq. intros <-. reflexivity.
Qed.

Lemma sign_is_lead (c : N) : Parser.is_sign c = true -> is_lead c = true.
Proof. unfold is_lead. intros ->. reflexivity. Qed.

Lemma space_is_lead (c : N) : is_space c = true -> is_lead c = true.
Proof.
  unfold is_lead. intros ->. rewrite orb_true_r. reflexivity.
Qed.

Lemma dollar_is_lead (c : N) : exact (ch "$") c = true -> is_lead c = true.
Proof.
  unfold is_lead, exact. rewrite N.eqb_sym. intros ->. apply orb_true_r.
Qed.

Lemma dot_not_digit_or_comma (c : N) :
  (c =? ch ".")%N = true -> is_digit_or_comma c = false.
Proof. rewrite N.eqb_eq. intros ->. reflexivity. Qed.

Lemma dot_not_digit (c : N) : (c =? ch ".")%N = true -> is_digit c = false.
Proof. rewrite N.eqb_eq. intros ->. reflexivity. Qed.

Lemma space_not_dot (c : N) :
  is_space c = true -> (c =? ch ".")%N = false.
Proof.
  intros H. destruct (N.eqb_spec c (ch ".")) as [->|]; [|reflexivity].
  discriminate.
Qed.

Lemma upper_not_dot (c : N) :
  is_upper c = true -> (c =? ch ".")%N = false.
Proof.
  intros H. destruct (N.eqb_spec c (ch ".")) as [->|]; [|reflexivity].
  discriminate.
Qed.

Lemma starts_outside_app (p q : N -> bool) (a b : jsstr) :
  (forall c, q c = true -> p c = false) ->
  forallb q a = true -> starts_outside p b = true ->
  starts_outside p (a ++ b) = true.
Proof.
  intros Hqp Ha Hb. destruct a as [|c a]; [exact Hb|].
  simpl in *. apply andb_prop in Ha. destruct Ha as [Hc _].
  rewrite (Hqp c Hc). reflexivity.
Qed.

Lemma is_code_upper (s : jsstr) : is_code s = true -> forallb is_upper s = true.
Proof.
  unfold is_code. destruct s as [|c s]; [reflexivity|].
  cbn [is_empty orb]. intros H. apply andb_prop in H. apply H.
Qed.

Section OneReading.
Variable r : Reading.
Hypothesis Hwf : well_formed r = true.

Lemma well_formed_parts :
  optional Parser.is_sign (sign1 r) = true
  /\ forallb is_space (gap1 r) = true
  /\ optional (exact (ch "$")) (dollar r) = true
  /\ optional Parser.is_sign (sign2 r) = true
  /\ forallb is_space (gap2 r) = true
  /\ is_empty (run r) = false
  /\ forallb is_digit_or_comma (run r) = true
  /\ is_decimals (decimals r) = true
  /\ forallb is_space (gap3 r) = true
  /\ is_code (code r) = true.
Proof.
  pose proof Hwf as H. unfold well_formed in H. split_andb H.
  repeat split; try assumption.
  destruct (run r); [discriminate | reflexivity].
Qed.

Lemma reading_text_split :
  reading_text r = lead r ++ run r ++ decimals r ++ gap3 r ++ code r.
Proof. unfold reading_text, lead. rewrite <- !app_assoc. reflexivity. Qed.

Lemma lead_is_lead : forallb is_lead (lead r) = true.
Proof.
  destruct well_formed_parts as (H1 & H2 & H3 & H4 & H5 & _).
  unfold lead. rewrite !forallb_app.
  rewrite (forallb_weaken _ _ _ sign_is_lead (optional_forallb _ _ H1)).
  rewrite (forallb_weaken _ _ _ space_is_lead H2).
  rewrite (forallb_weaken _ _ _ dollar_is_lead (optional_forallb _ _ H3)).
  rewrite (forallb_weaken _ _ _ sign_is_lead (optional_forallb _ _ H4)).
  rewrite (forallb_weaken _ _ _ space_is_lead H5).
  reflexivity.
Qed.

Lemma run_starts_outside_lead (s : jsstr) :
  starts_outside is_lead (run r ++ s) = true.
Proof.
  destruct well_formed_parts as (_ & _ & _ & _ & _ & Hne & Hrun & _).
  destruct (run r) as [|c w]; [discriminate|].
  simpl in *. apply andb_prop in Hrun. destruct Hrun as [Hc _].
  rewrite (digit_or_comma_not_lead c Hc). reflexivity.
Qed.

Lemma code_starts_outside (p : N -> bool) :
  (forall c, is_upper c = true -> p c = false) ->
  starts_outside p (code r) = true.
Proof.
  intros Hp. destruct well_formed_parts as (_ & _ & _ & _ & _ & _ & _ & _ & _ & Hcode).
  apply is_code_upper in Hcode.
  destruct (code r) as [|c s]; [reflexivity|].
  simpl in *. apply andb_prop in Hcode. destruct Hcode as [Hc _].
  rewrite (Hp c Hc). reflexivity.
Qed.

Lemma after_decimals_starts_outside (p : N -> bool) :
  (forall c, is_space c = true -> p c = false) ->
  (forall c, is_upper c = true -> p c = false) ->
  starts_outside p (gap3 r ++ code r) = true.
Proof.
  intros Hs Hu.
  destruct well_formed_parts as (_ & _ & _ & _ & _ & _ & _ & _ & Hg & _).
  apply (starts_outside_app p is_space); try assumption.
  apply code_starts_outside. exact Hu.
Qed.

Lemma after_run_starts_outside :
  starts_outside is_digit_or_comma (decimals r ++ gap3 r ++ code r) = true.
Proof.
  destruct well_formed_parts as (_ & _ & _ & _ & _ & _ & _ & Hd & _).
  destruct (decimals r) as [|p d].
  - apply after_decimals_starts_outside.
    + exact space_not_digit_or_comma.
    + exact upper_not_digit_or_comma.
  - destruct d as [|d1 [|d2 [|d3 d]]]; try discriminate.
    simpl in Hd. apply andb_prop in Hd. destruct Hd as [Hd _].
    apply andb_prop in Hd. destruct Hd as [Hp _].
    simpl. rewrite (dot_not_digit_or_comma p Hp). reflexivity.
Qed.

(** The first sign of the text is the sign of the reading. *)
Lemma sign_text_find :
  sign_text r = match find Parser.is_sign (lead r) with
                | Some c => [c]
                | None => []
                end.
Proof.
  destruct well_formed_parts as (H1 & H2 & H3 & H4 & H5 & _).
  unfold sign_text, lead.
  destruct (sign1 r) as [|c [|c' s]]; try discriminate.
  - cbn [is_empty app].
    rewrite (find_app_outside _ _ _ _ space_not_sign H2).
    rewrite (find_app_outside _ _ _ _ dollar_not_sign
               (optional_forallb _ _ H3)).
    destruct (sign2 r) as [|c [|c' s]]; try discriminate.
    + cbn [app].
      rewrite <- (app_nil_r (gap2 r)).
      rewrite (find_app_outside _ _ _ _ space_not_sign H5). reflexivity.
    + simpl in H4. simpl. rewrite H4. reflexivity.
  - simpl in H1. simpl. rewrite H1. reflexivity.
Qed.

End OneReading.

Lemma decimals_unique (d d' x x' : jsstr) :
  is_decimals d = true -> is_decimals d' = true ->
  starts_outside (fun c => (c =? ch ".")%N) x = true ->
  starts_outside (fun c => (c =? ch ".")%N) x' = true ->
  d ++ x = d' ++ x' -> d = d' /\ x = x'.
Proof.
  intros Hd Hd' Hx Hx' Heq.
  destruct d as [|p [|d1 [|d2 [|d3 d]]]]; try discriminate;
    destruct d' as [|p' [|d1' [|d2' [|d3' d']]]]; try discriminate.
  - auto.
  - simpl in Heq. subst x. simpl in Hd', Hx.
    apply andb_prop in Hd'. destruct Hd' as [Hd' _].
    apply andb_prop in Hd'. destruct Hd' as [Hp _].
    rewrite Hp in Hx. discriminate.
  - simpl in Heq. subst x'. simpl in Hd, Hx'.
    apply andb_prop in Hd. destruct Hd as [Hd _].
    apply andb_prop in Hd. destruct Hd as [Hp _].
    rewrite Hp in Hx'. discriminate.
  - simpl in Heq. injection Heq as -> -> -> ->. auto.
Qed.

(** Two readings of one text agree on everything the result depends on. *)
Lemma readings_agree (value : jsstr) (r r' : Reading) :
  reads_as value r -> reads_as value r' ->
  sign_text r = sign_text r' /\ run r = run r'
  /\ decimals r = decimals r' /\ code r = code r'.
Proof.
  intros [Hv Hwf] [Hv' Hwf'].
  rewrite Hv in Hv'.
  rewrite (reading_text_split r), (reading_text_split r') in Hv'.
  destruct (split_unique is_lead _ _ _ _ (lead_is_lead r Hwf)
              (lead_is_lead r' Hwf') (run_starts_outside_lead r Hwf _)
              (run_starts_outside_lead r' Hwf' _) Hv') as [Hlead Hrest].
  destruct (well_formed_parts r Hwf)
    as (_ & _ & _ & _ & _ & _ & Hrun & Hd & Hg & Hc).
  destruct (well_formed_parts r' Hwf')
    as (_ & _ & _ & _ & _ & _ & Hrun' & Hd' & Hg' & Hc').
  destruct (split_unique is_digit_or_comma _ _ _ _ Hrun Hrun'
              (after_run_starts_outside r Hwf)
              (after_run_starts_outside r' Hwf') Hrest) as [Hr Hrest'].
  destruct (decimals_unique _ _ _ _ Hd Hd'
              (after_decimals_starts_outside r Hwf _ space_not_dot
                 upper_not_dot)
              (after_decimals_starts_outside r' Hwf' _ space_not_dot
                 upper_not_dot) Hrest') as [Hdec Hrest''].
  destruct (split_unique is_space _ _ _ _ Hg Hg'
              (code_starts_outside r Hwf _ upper_not_space)
              (code_starts_outside r' Hwf' _ upper_not_space) Hrest'')
    as [_ Hcode].
  rewrite (sign_text_find r Hwf), (sign_text_find r' Hwf'), Hlead.
  auto.
Qed.

(** *** The number a reading denotes *)

Lemma filter_digits_of_run (w : jsstr) :
  forallb is_digit_or_comma w = true ->
  remove_all (fun c => (c =? ch ",")%N) w = filter is_digit w.
Proof.
  unfold remove_all. induction w as [|c w IH]; cbn [filter forallb];
    [reflexivity|].
  intros H. apply andb_prop in H. destruct H as [Hc Hw].
  rewrite (IH Hw). unfold is_digit_or_comma in Hc.
  destruct (is_digit c) eqn:Hd.
  - rewrite (digit_not_comma c Hd). reflexivity.
  - cbn [orb] in Hc. rewrite Hc. reflexivity.
Qed.

Lemma decimals_keep_their_text (d : jsstr) :
  is_decimals d = true -> remove_all (fun c => (c =? ch ",")%N) d = d.
Proof.
  destruct d as [|p [|d1 [|d2 [|d3 d]]]]; try discriminate;
    [reflexivity|].
  cbn [is_decimals]. intros H. apply andb_prop in H. destruct H as [H H2].
  apply andb_prop in H. destruct H as [Hp H1].
  apply N.eqb_eq in Hp. subst p. unfold remove_all. cbn [filter].
  rewrite (digit_not_comma d1 H1), (digit_not_comma d2 H2). reflexivity.
Qed.

Lemma filter_all (p : N -> bool) (w : jsstr) :
  forallb p (filter p w) = true.
Proof.
  induction w as [|c w IH]; simpl; [reflexivity|].
  destruct (p c) eqn:Hc; [simpl; rewrite Hc|]; exact IH.
Qed.

Lemma filter_some (p : N -> bool) (w : jsstr) :
  existsb p w = true -> is_empty (filter p w) = false.
Proof.
  induction w as [|c w IH]; simpl; [discriminate|].
  destruct (p c); [reflexivity | exact IH].
Qed.

(** [parseFloat] on digits followed by decimals. *)
Lemma parseFloat_digits (ds d : jsstr) :
  forallb is_digit ds = true -> is_empty ds = false ->
  is_decimals d = true ->
  NumLit.parseFloat (ds ++ d)
  = of_decimal false (digits_to_Z (ds ++ skipn 1 d))
               (- Z.of_nat (length (skipn 1 d))).
Proof.
  intros Hds Hne Hd.
  assert (Hspan : span is_digit (ds ++ d) = (ds, d)).
  { apply span_app; [exact Hds|].
    destruct d as [|p [|d1 [|d2 [|d3 d]]]]; try discriminate;
      [reflexivity|].
    simpl in Hd. apply andb_prop in Hd. destruct Hd as [Hd _].
    apply andb_prop in Hd. destruct Hd as [Hp _].
    simpl. rewrite (dot_not_digit p Hp). reflexivity. }
  destruct ds as [|c ds]; [discriminate|].
  pose proof Hds as Hc. simpl in Hc. apply andb_prop in Hc.
  destruct Hc as [Hc _].
  unfold NumLit.parseFloat. cbn [app trimStart].
  rewrite (digit_not_space c Hc).
  unfold NumLit.scan_signed_decimal, NumLit.scan_sign.
  pose proof (proj1 (is_digit_range c) Hc) as Hrange.
  assert (Hplus : (c =? ch "+")%N = false).
  { unfold_classes. settle_comparisons. reflexivity. }
  assert (Hminus : (c =? ch "-")%N = false).
  { unfold_classes. settle_comparisons. reflexivity. }
  assert (HI : startsWith (str "Infinity") (c :: ds ++ d) = false).
  { cbn [str list_ascii_of_string map startsWith].
    unfold_classes. settle_comparisons. reflexivity. }
  rewrite Hplus, Hminus, HI.
  unfold NumLit.scan_decimal.
  change (c :: ds ++ d) with ((c :: ds) ++ d). rewrite Hspan.
  destruct d as [|p [|d1 [|d2 [|d3 d]]]]; try discriminate.
  - cbn [is_empty andb NumLit.scan_exponent skipn length Z.of_nat].
    reflexivity.
  - cbn [is_decimals] in Hd. apply andb_prop in Hd. destruct Hd as [Hd H2].
    apply andb_prop in Hd. destruct Hd as [Hp H1]. rewrite Hp.
    assert (Hfp : span is_digit [d1; d2] = ([d1; d2], [])).
    { apply (span_app is_digit [d1; d2] []); [|reflexivity].
      simpl. rewrite H1, H2. reflexivity. }
    rewrite Hfp.
    cbn [is_empty andb NumLit.scan_exponent skipn length].
    reflexivity.
Qed.

(** With a digit in its run, a reading denotes a number, and [parseFloat]
    finds it. *)
Lemma parseFloat_reading (r : Reading) :
  well_formed r = true -> existsb is_digit (run r) = true ->
  NumLit.parseFloat (reading_digits r) = reading_number r.
Proof.
  intros Hwf Hdigit.
  destruct (well_formed_parts r Hwf)
    as (_ & _ & _ & _ & _ & _ & Hrun & Hd & _).
  unfold reading_digits, reading_number.
  unfold remove_all. rewrite filter_app.
  fold (remove_all (fun c => (c =? ch ",")%N) (run r)).
  fold (remove_all (fun c => (c =? ch ",")%N) (decimals r)).
  rewrite (filter_digits_of_run _ Hrun), (decimals_keep_their_text _ Hd).
  apply parseFloat_digits.
  - apply filter_all.
  - apply filter_some. exact Hdigit.
  - exact Hd.
Qed.

(** *** The grammar of the specification *)

Lemma steps_comma_groups_inv (st st' : mstate) :
  steps (Star true (Seq (Chr (exact (ch ",")))
                        (Plus true (Chr is_digit)))) st st' ->
  exists w, forallb is_digit_or_comma w = true /\ consumed st w st'.
Proof.
  intros H.
  remember (Star true (Seq (Chr (exact (ch ",")))
                           (Plus true (Chr is_digit)))) as r eqn:Hr.
  induction H as [ | | | | | g' r' st | g' r' st st1 st2 Hbody _ Hlt _ IH
                   | | | ]; try discriminate.
  - exists []. split; [reflexivity | apply consumed_nil].
  - injection Hr as -> ->.
    destruct (steps_seq_inv _ _ _ _ Hbody) as (st0 & Hc & Hd).
    destruct (steps_chr_inv _ _ _ Hc) as (c & Hcomma & Hcons1).
    destruct (steps_plus_chr_inv _ _ _ _ Hd) as (ds & _ & Hds & Hcons2).
    destruct (IH eq_refl) as (w & Hw & Hcons3).
    exists (([c] ++ ds) ++ w). split.
    + assert (Hcc : is_digit_or_comma c = true).
      { unfold exact in Hcomma. apply N.eqb_eq in Hcomma.
        unfold is_digit_or_comma. apply orb_true_iff. right.
        apply N.eqb_eq. symmetry. exact Hcomma. }
      assert (Hdoc : forallb is_digit_or_comma ds = true).
      { apply (forallb_weaken is_digit); [|exact Hds].
        intros x Hx. unfold is_digit_or_comma. rewrite Hx. reflexivity. }
      rewrite !forallb_app, Hw, Hdoc. cbn [forallb]. rewrite Hcc.
      reflexivity.
    + eapply consumed_trans; [|exact Hcons3].
      eapply consumed_trans; eassumption.
Qed.

Lemma steps_opt_code_inv (st st' : mstate) :
  steps (Opt (Times 3 (Chr is_upper))) st st' ->
  exists w, is_code w = true /\ consumed st w st'.
Proof.
  intros H. destruct (steps_opt_inv _ _ _ H) as [H1 | ->].
  - destruct (steps_times_chr_inv _ _ _ _ H1) as (w & Hlen & Hw & Hcons).
    exists w. split; [|exact Hcons].
    unfold is_code. rewrite Hlen, Hw. apply orb_true_r.
  - exists []. split; [reflexivity | apply consumed_nil].
Qed.

(** A text of the specification's grammar has a reading, with a digit in
    its run. *)
Lemma grammar_reading (value : jsstr) :
  test currency_grammar value = true ->
  exists r, reads_as value r /\ existsb is_digit (run r) = true.
Proof.
  unfold test. destruct (exec currency_grammar value) as [m|] eqn:H;
    [intros _ | discriminate].
  unfold currency_grammar, Parser.spaces in H.
  apply exec_anchored in H. destruct H as (st9 & Hs & _).
  destruct (steps_seq_inv _ _ _ _ Hs) as (st1 & H1 & Hs1). clear Hs.
  destruct (steps_seq_inv _ _ _ _ Hs1) as (st2 & H2 & Hs2). clear Hs1.
  destruct (steps_seq_inv _ _ _ _ Hs2) as (st3 & H3 & Hs3). clear Hs2.
  destruct (steps_seq_inv _ _ _ _ Hs3) as (st4 & H4 & Hs4). clear Hs3.
  destruct (steps_seq_inv _ _ _ _ Hs4) as (st5 & H5 & Hs5). clear Hs4.
  destruct (steps_seq_inv _ _ _ _ Hs5) as (st6 & H6 & Hs6). clear Hs5.
  destruct (steps_seq_inv _ _ _ _ Hs6) as (st7 & H7 & Hs7). clear Hs6.
  destruct (steps_seq_inv _ _ _ _ Hs7) as (st8 & H8 & Hs8). clear Hs7.
  destruct (steps_seq_inv _ _ _ _ Hs8) as (st10 & H10 & Hs10). clear Hs8.
  destruct (steps_seq_inv _ _ _ _ Hs10) as (st11 & H11 & H12). clear Hs10.
  destruct (steps_opt_chr_inv _ _ _ H1) as (s1 & Hs1 & R1 & _).
  destruct (steps_star_chr_inv _ _ _ _ H2) as (g1 & Hg1 & R2 & _).
  destruct (steps_opt_chr_inv _ _ _ H3) as (dl & Hdl & R3 & _).
  destruct (steps_opt_chr_inv _ _ _ H4) as (s2 & Hs2 & R4 & _).
  destruct (steps_star_chr_inv _ _ _ _ H5) as (g2 & Hg2 & R5 & _).
  destruct (steps_plus_chr_inv _ _ _ _ H6) as (ds & Hne & Hds & R6 & _).
  destruct (steps_comma_groups_inv _ _ H7) as (w & Hw & R7 & _).
  destruct (steps_decimals_inv _ _ H8) as (d & Hd & R8 & _).
  destruct (steps_star_chr_inv _ _ _ _ H10) as (g3 & Hg3 & R10 & _).
  destruct (steps_opt_code_inv _ _ H11) as (cd & Hcd & R11 & _).
  inversion H12 as [| | | | | | | | | st Hend]; subst.
  exists {| sign1 := s1; gap1 := g1; dollar := dl; sign2 := s2; gap2 := g2;
            run := ds ++ w; decimals := d; gap3 := g3; code := cd |}.
  assert (Hdoc : forallb is_digit_or_comma ds = true).
  { apply (forallb_weaken is_digit); [|exact Hds].
    intros x Hx. unfold is_digit_or_comma. rewrite Hx. reflexivity. }
  split; [split|].
  - unfold reading_text. cbn [sign1 gap1 dollar sign2 gap2 run decimals gap3
                               code].
    simpl in R1. rewrite R1, R2, R3, R4, R5, R6, R7, R8, R10, R11, Hend.
    rewrite app_nil_r, <- app_assoc. reflexivity.
  - unfold well_formed. cbn [sign1 gap1 dollar sign2 gap2 run decimals gap3
                              code].
    rewrite forallb_app, Hs1, Hg1, Hdl, Hs2, Hg2, Hdoc, Hw, Hd, Hg3, Hcd.
    destruct ds; [discriminate | reflexivity].
  - cbn [run]. destruct ds as [|c ds]; [discriminate|].
    simpl in Hds. apply andb_prop in Hds. destruct Hds as [Hc _].
    simpl. rewrite Hc. reflexivity.
Qed.

End CurrencyFacts.

(** C8, as stated, fails: a lone comma is outside the grammar of the
    specification (it has no digit), yet the result is not [null]: the
    pattern of the code accepts it and the amount is NaN. *)
Lemma comma_is_not_rejected :
  Regex.test currency_grammar (str ",") = false
  /\ Regex.test Parser.currency_pattern (str ",") = true
  /\ Parser.parseCurrencyValue (str ",")
     = {| Parser.amount := JNum NaN; Parser.currency := JUndefined |}.
Proof. repeat split; reflexivity. Qed.

(** The pattern of the code takes the digits and commas in any arrangement:
    a text the specification's grammar rejects is parsed to a number. *)
Example stray_commas_are_accepted :
  Regex.test currency_grammar (str "1,,2") = false
  /\ Parser.parseCurrencyValue (str "1,,2")
     = {| Parser.amount := JNum (of_Z 12); Parser.currency := JUndefined |}.
Proof. split; reflexivity. Qed.

(** C8 (amended) — For every input string [parseCurrencyValue] returns (it
    does not throw).  It returns [amount = null] and [currency = undefined]
    exactly when the input has no reading as: an optional sign among +, -
    and U+2212, optional white space, an optional dollar glyph, an optional
    second sign, optional white space, a non-empty run of digits and commas
    in any arrangement, optional decimals of a dot and two digits, optional
    white space, an optional code of three capital letters.  When the input
    has such a reading the amount is a Number and the currency is the code,
    or [undefined] without one; when the run moreover holds a digit — as
    it does for every text of the specification's grammar — the amount is
    the Number nearest to the decimal value of the digits (commas dropped)
    and decimals, negated when the first sign present is - or U+2212.  Both
    "− $50.00" and "$-50.00" give -50. *)
Theorem parseCurrencyValue_spec (value : jsstr) :
  ((forall r, ~ reads_as value r) ->
   Parser.parseCurrencyValue value
   = {| Parser.amount := JNull; Parser.currency := JUndefined |})
  /\ (Parser.amount (Parser.parseCurrencyValue value) = JNull ->
      forall r, ~ reads_as value r)
  /\ (forall r,
        reads_as value r ->
        (exists x, Parser.amount (Parser.parseCurrencyValue value) = JNum x)
        /\ Parser.currency (Parser.parseCurrencyValue value)
           = reading_currency r)
  /\ (forall r,
        reads_as value r -> existsb is_digit (run r) = true ->
        Parser.parseCurrencyValue value = reading_value r)
  /\ (Regex.test currency_grammar value = true ->
      exists r, reads_as value r /\ existsb is_digit (run r) = true
                /\ Parser.parseCurrencyValue value = reading_value r)
  /\ Parser.parseCurrencyValue minus_fifty_before
     = {| Parser.amount := JNum (of_Z (-50)); Parser.currency := JUndefined |}
  /\ Parser.parseCurrencyValue minus_fifty_after
     = {| Parser.amount := JNum (of_Z (-50)); Parser.currency := JUndefined |}.
Proof.
  assert (Hread : forall r,
             reads_as value r ->
             Parser.parseCurrencyValue value
             = {| Parser.amount :=
                    JNum (mul (NumLit.parseFloat (reading_digits r))
                              (reading_sign r));
                  Parser.currency := reading_currency r |}).
  { intros r Hr.
    destruct (reading_currency_pattern value r Hr) as (m & Hm).
    destruct (currency_pattern_reading value m Hm) as (r' & Hr' & ->).
    rewrite (parseCurrencyValue_of_reading value r' Hm).
    destruct (readings_agree value r r' Hr Hr') as (Hs & Hrun & Hd & Hc).
    unfold reading_digits, reading_sign, reading_currency.
    rewrite Hs, Hrun, Hd, Hc. reflexivity. }
  assert (Hvalue : forall r,
             reads_as value r -> existsb is_digit (run r) = true ->
             Parser.parseCurrencyValue value = reading_value r).
  { intros r Hr Hdigit. rewrite (Hread r Hr).
    rewrite (parseFloat_reading r (proj2 Hr) Hdigit). reflexivity. }
  split; [|split; [|split; [|split; [|split; [|split]]]]].
  - intros Hnone. unfold Parser.parseCurrencyValue.
    destruct (Regex.exec Parser.currency_pattern value) as [m|] eqn:Hm;
      [|reflexivity].
    destruct (currency_pattern_reading value m Hm) as (r & Hr & _).
    destruct (Hnone r Hr).
  - intros Hnull r Hr. rewrite (Hread r Hr) in Hnull. discriminate.
  - intros r Hr. rewrite (Hread r Hr). split; [eexists|]; reflexivity.
  - exact Hvalue.
  - intros Hg. destruct (grammar_reading value Hg) as (r & Hr & Hdigit).
    exists r. split; [exact Hr|]. split; [exact Hdigit|].
    exact (Hvalue r Hr Hdigit).
  - reflexivity.
  - reflexivity.
Qed.

(** "1,234.56 CAD": the commas are dropped and the code is kept. *)
Lemma parseCurrencyValue_spec_witness :
  reads_as (str "1,234.56 CAD") canadian_reading
  /\ existsb is_digit (run canadian_reading) = true
  /\ Parser.parseCurrencyValue (str "1,234.56 CAD")
     = {| Parser.amount := JNum (of_decimal false 123456 (-2));
          Parser.currency := txt "CAD" |}.
Proof.
  assert (Hr : reads_as (str "1,234.56 CAD") canadian_reading)
    by (split; reflexivity).
  split; [exact Hr|]. split; [reflexivity|].
  destruct (parseCurrencyValue_spec (str "1,234.56 CAD"))
    as (_ & _ & _ & Hvalue & _).
  rewrite (Hvalue canadian_reading Hr eq_refl). reflexivity.
Defined.

(** Text that is no amount at all gives [null]. *)
Example unparseable_currency_is_null :
  Parser.parseCurrencyValue (str "5.5")
  = {| Parser.amount := JNull; Parser.currency := JUndefined |}
  /\ Parser.parseCurrencyValue (str "fifty dollars")
     = {| Parser.amount := JNull; Parser.currency := JUndefined |}
  /\ Parser.parseCurrencyValue []
     = {| Parser.amount := JNull; Parser.currency := JUndefined |}.
Proof. repeat split; reflexivity. Qed.

(** ** C1: the import identifier *)

Lemma round_length (st : list Sha256.word) (kw : Sha256.word * Sha256.word) :
  length st = 8%nat -> length (Sha256.round st kw) = 8%nat.
Proof.
  intros H.
  destruct st as [|a [|b [|c [|d [|e [|f [|g [|h [|i st]]]]]]]]];
    try discriminate.
  reflexivity.
Qed.

Lemma rounds_length (kws : list (Sha256.word * Sha256.word)) :
  forall st, length st = 8%nat ->
             length (fold_left Sha256.round kws st) = 8%nat.
Proof.
  induction kws as [|kw kws IH]; intros st H; simpl; [exact H|].
  apply IH, round_length, H.
Qed.

Lemma compress_length (h block : list Sha256.word) :
  length h = 8%nat -> length (Sha256.compress h block) = 8%nat.
Proof.
  intros H. unfold Sha256.compress.
  rewrite length_map, length_combine, rounds_length by exact H.
  rewrite H. reflexivity.
Qed.

Lemma compress_all_length (bs : list (list Sha256.word)) :
  forall h, length h = 8%nat ->
            length (fold_left Sha256.compress bs h) = 8%nat.
Proof.
  induction bs as [|b bs IH]; intros h H; simpl; [exact H|].
  apply IH, compress_length, H.
Qed.

Lemma be_bytes_length (n : nat) (x : Z) :
  length (Sha256.be_bytes n x) = n.
Proof.
  unfold Sha256.be_bytes. rewrite length_map, length_rev, length_seq.
  reflexivity.
Qed.

Lemma be_bytes_range (n : nat) (x : Z) :
  Forall (fun b => 0 <= b < 256) (Sha256.be_bytes n x).
Proof.
  unfold Sha256.be_bytes. apply Forall_map, Forall_forall.
  intros i _. apply Z.mod_pos_bound. lia.
Qed.

Lemma flat_map_length_const {A B : Type} (f : A -> list B) (n : nat)
      (l : list A) :
  (forall a, length (f a) = n) -> length (flat_map f l) = (length l * n)%nat.
Proof.
  intros H. induction l as [|a l IH]; simpl; [reflexivity|].
  rewrite length_app, H, IH. reflexivity.
Qed.

Lemma flat_map_Forall {A B : Type} (P : B -> Prop) (f : A -> list B)
      (l : list A) :
  (forall a, Forall P (f a)) -> Forall P (flat_map f l).
Proof.
  intros H. induction l as [|a l IH]; simpl; [constructor|].
  apply Forall_app. split; [apply H | exact IH].
Qed.

(** The digest has 32 octets. *)
Lemma sha256_length (msg : list Sha256.byte) :
  length (Sha256.sha256 msg) = 32%nat.
Proof.
  unfold Sha256.sha256.
  rewrite (flat_map_length_const _ 4 _ (be_bytes_length 4)).
  rewrite compress_all_length by reflexivity. reflexivity.
Qed.

Lemma sha256_range (msg : list Sha256.byte) :
  Forall (fun b => 0 <= b < 256) (Sha256.sha256 msg).
Proof.
  unfold Sha256.sha256. apply flat_map_Forall. intros w. apply be_bytes_range.
Qed.

Lemma hex_length (bs : list Z) :
  length (Encoding.hex bs) = (length bs * 2)%nat.
Proof.
  unfold Encoding.hex. apply flat_map_length_const. reflexivity.
Qed.

Lemma hex_digit_lower (d : Z) :
  0 <= d < 16 -> is_lower_hex (Encoding.hex_digit d) = true.
Proof.
  intros H. unfold Encoding.hex_digit, is_lower_hex, is_digit, between.
  destruct (Z.ltb_spec d 10).
  - apply orb_true_iff. left. apply andb_true_iff. split; apply N.leb_le; lia.
  - apply orb_true_iff. right. apply andb_true_iff. split; apply N.leb_le; lia.
Qed.

Lemma hex_lower (bs : list Z) :
  Forall (fun b => 0 <= b < 256) bs ->
  forallb is_lower_hex (Encoding.hex bs) = true.
Proof.
  intros H. induction H as [|b bs Hb _ IH]; [reflexivity|].
  unfold Encoding.hex. simpl. fold (Encoding.hex bs).
  rewrite !hex_digit_lower, IH; [reflexivity | |].
  - apply Z.mod_pos_bound. lia.
  - split; [apply Z.div_pos; lia | apply Z.div_lt_upper_bound; lia].
Qed.

Lemma forallb_firstn {A : Type} (p : A -> bool) (n : nat) (l : list A) :
  forallb p l = true -> forallb p (firstn n l) = true.
Proof.
  revert n. induction l as [|a l IH]; intros [|n] H; try reflexivity.
  simpl in *. apply andb_prop in H. destruct H as [Ha Hl].
  rewrite Ha, (IH n Hl). reflexivity.
Qed.

(** C1 — For every canonical transaction [generateImportedId] returns "ws_"
    followed by the first 16 hexadecimal characters of the SHA-256 of the
    JSON serialization of the object [{account, amount, date, notes, payee}]
    built from the transaction's Account, Amount, Date, Notes and Payee, the
    keys in exactly that order: the result is 19 characters long, and any
    two transactions equal in these five fields have the same identifier. *)
Theorem generateImportedId_spec {E : Engine} (t : ActualTransaction) :
  ActualClient.generateImportedId t
  = str "ws_"
    ++ firstn 16
         (Encoding.hex
            (Sha256.sha256
               (Encoding.utf8 (Json.stringify (hashed_properties t)))))
  /\ length (ActualClient.generateImportedId t) = 19%nat
  /\ forallb is_lower_hex (skipn 3 (ActualClient.generateImportedId t)) = true
  /\ (forall t',
        Account t' = Account t -> Amount t' = Amount t ->
        Date t' = Date t -> Notes t' = Notes t -> Payee t' = Payee t ->
        ActualClient.generateImportedId t'
        = ActualClient.generateImportedId t)
  /\ (forall a m d n p,
        Json.serialize (Account t) = Some a ->
        Json.serialize (Amount t) = Some m ->
        Json.serialize (Date t) = Some d ->
        Json.serialize (Notes t) = Some n ->
        Json.serialize (Payee t) = Some p ->
        Json.stringify (hashed_properties t)
        = str "{" ++ Json.quote (str "account") ++ str ":" ++ a
          ++ str "," ++ Json.quote (str "amount") ++ str ":" ++ m
          ++ str "," ++ Json.quote (str "date") ++ str ":" ++ d
          ++ str "," ++ Json.quote (str "notes") ++ str ":" ++ n
          ++ str "," ++ Json.quote (str "payee") ++ str ":" ++ p
          ++ str "}").
Proof.
  split; [reflexivity|]. split; [|split; [|split]].
  - unfold ActualClient.generateImportedId, substring0.
    rewrite length_app, length_firstn, hex_length, sha256_length.
    reflexivity.
  - unfold ActualClient.generateImportedId, substring0.
    change (skipn 3 (str "ws_" ++ ?x)) with x.
    apply forallb_firstn, hex_lower, sha256_range.
  - intros t' Ha Hm Hd Hn Hp.
    unfold ActualClient.generateImportedId. rewrite Ha, Hm, Hd, Hn, Hp.
    reflexivity.
  - intros a m d n p Ha Hm Hd Hn Hp.
    unfold Json.stringify, hashed_properties, Json.member.
    cbn [flat_map fst snd]. rewrite Ha, Hm, Hd, Hn, Hp.
    cbn [app join].
    repeat rewrite <- app_assoc. reflexivity.
Qed.

(** The transaction of the test-suite: its identifier, and that it does not
    depend on the transfer metadata. *)
Lemma generateImportedId_spec_witness :
  ActualClient.generateImportedId (E := Host.engine) test_transaction
  = str "ws_72182ce886da6c65"
  /\ ActualClient.generateImportedId (E := Host.engine)
       {| Date := Date test_transaction;
          Account := Account test_transaction;
          Payee := Payee test_transaction;
          Notes := Notes test_transaction;
          Amount := Amount test_transaction;
          _isTransfer := Some (JBool true);
          _transferToAccount := Some (txt "acc_savings");
          _accountId := Some (txt "acc_checking");
          category := None |}
     = str "ws_72182ce886da6c65".
Proof.
  destruct (generateImportedId_spec (E := Host.engine) test_transaction)
    as (Hid & _ & _ & Hsame & _).
  split.
  - rewrite Hid. vm_compute. reflexivity.
  - match goal with
    | |- ActualClient.generateImportedId ?t' = _ =>
        rewrite (Hsame t' eq_refl eq_refl eq_refl eq_refl eq_refl)
    end.
    rewrite Hid. vm_compute. reflexivity.
Defined.

(** ** C5: the mirrored leg of a transfer *)

Section GroupingFacts.
Context {E : Engine}.
Import ActualClient.

Lemma all_entries_cons (k : JsVal) (es : list Entry) (g : Groups) :
  all_entries ((k, es) :: g) = es ++ all_entries g.
Proof. reflexivity. Qed.

(** Pushing an entry the filter rejects leaves the filtered entries as
    they were. *)
Lemma filter_push_other (p : Entry -> bool) (k : JsVal) (e : Entry)
      (g : Groups) :
  p e = false ->
  filter p (all_entries (push_entry k e g)) = filter p (all_entries g).
Proof.
  intros He. induction g as [|[k' es] g IH]; simpl push_entry.
  - unfold all_entries. simpl. rewrite He. reflexivity.
  - destruct (same_value_zero k k').
    + rewrite !all_entries_cons, !filter_app. simpl. rewrite He.
      rewrite app_nil_r. reflexivity.
    + rewrite !all_entries_cons, !filter_app, IH. reflexivity.
Qed.

(** Pushing an entry the filter accepts, when it accepted none before,
    leaves exactly that entry. *)
Lemma filter_push_new (p : Entry -> bool) (k : JsVal) (e : Entry)
      (g : Groups) :
  p e = true -> filter p (all_entries g) = [] ->
  filter p (all_entries (push_entry k e g)) = [e].
Proof.
  intros He. induction g as [|[k' es] g IH]; simpl push_entry; intros Hg.
  - unfold all_entries. simpl. rewrite He. reflexivity.
  - rewrite all_entries_cons, filter_app in Hg.
    apply app_eq_nil in Hg. destruct Hg as [Hes Hg].
    destruct (same_value_zero k k').
    + rewrite all_entries_cons, !filter_app, Hes, Hg. simpl.
      rewrite He. reflexivity.
    + rewrite all_entries_cons, filter_app, Hes, (IH Hg). reflexivity.
Qed.

Lemma same_value_zero_refl (k : JsVal) : same_value_zero k k = true.
Proof.
  destruct k as [| | b | x | s]; simpl; try reflexivity.
  - destruct b; reflexivity.
  - destruct (is_nan x) eqn:Hx; [reflexivity|].
    simpl. apply eqb_refl_not_nan. exact Hx.
  - unfold Str.eqb. destruct (list_eq_dec N.eq_dec s s); congruence.
Qed.

Lemma filed_under_push (k : JsVal) (e : Entry) (g : Groups) :
  filed_under k e (push_entry k e g).
Proof.
  induction g as [|[k' es] g IH]; simpl.
  - exists k, [e]. split; [left; reflexivity|].
    split; [apply same_value_zero_refl | left; reflexivity].
  - destruct (same_value_zero k k') eqn:Hk.
    + exists k', (es ++ [e]). split; [left; reflexivity|].
      split; [exact Hk | apply in_or_app; right; left; reflexivity].
    + destruct IH as (k2 & es2 & Hin & Hsame & He).
      exists k2, es2. split; [right; exact Hin | split; assumption].
Qed.

Lemma filed_under_kept (k k2 : JsVal) (e e2 : Entry) (g : Groups) :
  filed_under k e g -> filed_under k e (push_entry k2 e2 g).
Proof.
  intros (k' & es & Hin & Hsame & He).
  induction g as [|[k3 es3] g IH]; [destruct Hin|].
  simpl. destruct Hin as [Heq | Hin].
  - injection Heq as -> ->.
    destruct (same_value_zero k2 k').
    + exists k', (es ++ [e2]). split; [left; reflexivity|].
      split; [exact Hsame | apply in_or_app; left; exact He].
    + exists k', es. split; [left; reflexivity | split; assumption].
  - destruct (same_value_zero k2 k3).
    + exists k', es. split; [right; exact Hin | split; assumption].
    + destruct (IH Hin) as (k4 & es4 & Hin4 & Hsame4 & He4).
      exists k4, es4. split; [right; exact Hin4 | split; assumption].
Qed.

(** A step files entries of its own index only. *)
Lemma group_step_other (c : Client) (st : Groups * list Failure)
      (j : nat) (t : ActualTransaction) (p : Entry -> bool) :
  (forall e, index e = j -> p e = false) ->
  filter p (all_entries (fst (group_step c st (j, t))))
  = filter p (all_entries (fst st)).
Proof.
  intros Hp. destruct st as [g errs]. unfold group_step.
  destruct (resolve_account_key c t) as [key | msg]; [|reflexivity].
  destruct (truthy (read (_isTransfer t))
            && truthy (read (_transferToAccount t))).
  - destruct (findTransferPayee c (read (_transferToAccount t))).
    + cbn [fst]. rewrite !filter_push_other; [reflexivity | |];
        apply Hp; reflexivity.
    + cbn [fst]. rewrite filter_push_other; [reflexivity|].
      apply Hp; reflexivity.
  - cbn [fst]. rewrite filter_push_other; [reflexivity|].
    apply Hp; reflexivity.
Qed.

Lemma group_step_keeps_filed (c : Client) (st : Groups * list Failure)
      (item : nat * ActualTransaction) (k : JsVal) (e : Entry) :
  filed_under k e (fst st) -> filed_under k e (fst (group_step c st item)).
Proof.
  intros H. destruct st as [g errs]. destruct item as [j t].
  unfold group_step.
  destruct (resolve_account_key c t) as [key | msg]; [|exact H].
  destruct (truthy (read (_isTransfer t))
            && truthy (read (_transferToAccount t))).
  - destruct (findTransferPayee c (read (_transferToAccount t)));
      cbn [fst]; repeat apply filed_under_kept; exact H.
  - cbn [fst]. apply filed_under_kept. exact H.
Qed.

Lemma fold_keeps_filed (c : Client) (items : list (nat * ActualTransaction))
      (k : JsVal) (e : Entry) :
  forall st,
    filed_under k e (fst st) ->
    filed_under k e (fst (fold_left (group_step c) items st)).
Proof.
  induction items as [|item items IH]; intros st H; simpl; [exact H|].
  apply IH, group_step_keeps_filed, H.
Qed.

Lemma fold_other (c : Client) (items : list (nat * ActualTransaction))
      (i : nat) (p : Entry -> bool) :
  (forall e, index e <> i -> p e = false) ->
  (forall j t, In (j, t) items -> j <> i) ->
  forall st,
    filter p (all_entries (fst (fold_left (group_step c) items st)))
    = filter p (all_entries (fst st)).
Proof.
  intros Hp. induction items as [|[j t] items IH]; intros Hne st; simpl;
    [reflexivity|].
  rewrite IH by (intros j' t' Hin; apply (Hne j' t'); right; exact Hin).
  apply group_step_other.
  intros e He. apply Hp. rewrite He. apply (Hne j t). left. reflexivity.
Qed.

Lemma indexed_from_ge {A : Type} (l : list A) :
  forall start j x, In (j, x) (indexed_from start l) -> (start <= j)%nat.
Proof.
  induction l as [|y l IH]; intros start j x Hin; [destruct Hin|].
  destruct Hin as [Heq | Hin].
  - injection Heq as <- _. lia.
  - apply IH in Hin. lia.
Qed.

(** What the step of a transfer with a resolvable destination files. *)
Lemma group_step_transfer (c : Client) (g : Groups) (errs : list Failure)
      (i : nat) (t : ActualTransaction) (key : JsVal)
      (p : TransferPayee.t) :
  is_transfer t = true ->
  findTransferPayee c (read (_transferToAccount t)) = Some p ->
  resolve_account_key c t = inl key ->
  fst (group_step c (g, errs) (i, t))
  = push_entry (read (_transferToAccount t))
      {| original := t;
         import := mirrorTransaction t (convertToImportFormat c t) p;
         index := i;
         isMirrorTransfer := true |}
      (push_entry key
         {| original := t;
            import := convertToImportFormat c t;
            index := i;
            isMirrorTransfer := false |} g).
Proof.
  intros Ht Hp Hk. unfold group_step, is_transfer in *.
  rewrite Hk, Ht, Hp. reflexivity.
Qed.

End GroupingFacts.

Section Mirroring.
Context {E : Engine}.
Import ActualClient.

Variable c : Client.
Variable i : nat.
Variable t : ActualTransaction.
Variable key : JsVal.
Variable p : TransferPayee.t.

Hypothesis Htransfer : is_transfer t = true.
Hypothesis Hpayee :
  findTransferPayee c (read (_transferToAccount t)) = Some p.
Hypothesis Hkey : resolve_account_key c t = inl key.

Let primary_entry : Entry :=
  {| original := t;
     import := convertToImportFormat c t;
     index := i;
     isMirrorTransfer := false |}.

Let mirror_entry : Entry :=
  {| original := t;
     import := mirrorTransaction t (convertToImportFormat c t) p;
     index := i;
     isMirrorTransfer := true |}.

Lemma is_mirror_of_other (e : Entry) : index e <> i -> is_mirror_of i e = false.
Proof.
  intros H. unfold is_mirror_of.
  destruct (Nat.eqb_spec (index e) i); [contradiction|].
  apply andb_false_r.
Qed.

Lemma is_primary_of_other (e : Entry) :
  index e <> i -> is_primary_of i e = false.
Proof.
  intros H. unfold is_primary_of.
  destruct (Nat.eqb_spec (index e) i); [contradiction|].
  apply andb_false_r.
Qed.

Lemma fold_transfer (l : list ActualTransaction) :
  forall start st,
    (start <= i)%nat ->
    nth_error l (i - start) = Some t ->
    filter (is_mirror_of i) (all_entries (fst st)) = [] ->
    filter (is_primary_of i) (all_entries (fst st)) = [] ->
    let final := fst (fold_left (group_step c) (indexed_from start l) st) in
    filter (is_mirror_of i) (all_entries final) = [mirror_entry]
    /\ filter (is_primary_of i) (all_entries final) = [primary_entry]
    /\ filed_under (read (_transferToAccount t)) mirror_entry final
    /\ filed_under key primary_entry final.
Proof.
  induction l as [|x l IH]; intros start st Hle Hnth Hm Hp.
  - destruct (i - start)%nat; discriminate.
  - cbv zeta. simpl indexed_from. simpl fold_left.
    destruct (Nat.eq_dec start i) as [-> | Hne].
    + rewrite Nat.sub_diag in Hnth. simpl in Hnth. injection Hnth as ->.
      assert (Hlater : forall j t', In (j, t') (indexed_from (S i) l) ->
                                    j <> i).
      { intros j t' Hin. apply indexed_from_ge in Hin. lia. }
      destruct st as [g errs].
      pose proof (group_step_transfer c g errs i t key p
                    Htransfer Hpayee Hkey) as Hstep.
      fold primary_entry mirror_entry in Hstep.
      cbn [fst] in Hm, Hp.
      assert (Hmi : is_mirror_of i mirror_entry = true)
        by (unfold is_mirror_of; simpl; apply Nat.eqb_refl).
      assert (Hpi : is_primary_of i primary_entry = true)
        by (unfold is_primary_of; simpl; apply Nat.eqb_refl).
      repeat split.
      * rewrite (fold_other c (indexed_from (S i) l) i (is_mirror_of i)
                   is_mirror_of_other Hlater), Hstep.
        apply filter_push_new; [exact Hmi|].
        rewrite filter_push_other; [exact Hm | reflexivity].
      * rewrite (fold_other c (indexed_from (S i) l) i (is_primary_of i)
                   is_primary_of_other Hlater), Hstep.
        rewrite filter_push_other by reflexivity.
        apply filter_push_new; assumption.
      * apply fold_keeps_filed. rewrite Hstep. apply filed_under_push.
      * apply fold_keeps_filed. rewrite Hstep.
        apply filed_under_kept, filed_under_push.
    + assert (Hlt : (S start <= i)%nat) by lia.
      replace (i - start)%nat with (S (i - S start)) in Hnth by lia.
      simpl in Hnth.
      apply (IH (S start) (group_step c st (start, x)) Hlt Hnth).
      * rewrite group_step_other; [exact Hm|].
        intros e He. apply is_mirror_of_other. lia.
      * rewrite group_step_other; [exact Hp|].
        intros e He. apply is_primary_of_other. lia.
Qed.

End Mirroring.

(** C5 — the code at the failing input.  The ledger has a Checking and a
    Savings account and the transfer payee of each; the batch is one
    transfer out of Checking into Savings.  The record filed for the
    destination, Savings, carries the transfer payee of Savings itself, the
    payee of the primary leg, where "the corresponding transaction in the
    destination account" needs the transfer payee of the source, Checking,
    which the ledger has. *)
Lemma mirror_payee_is_the_destination_payee :
  exists primary mirror,
    ActualClient.import_batches (E := Host.engine) ledger [transfer_out]
    = Some [(txt "acc_checking", [primary]); (txt "acc_savings", [mirror])]
    /\ ActualClient.payee mirror = Some (str "payee_transfer_savings")
    /\ ActualClient.payee primary = Some (str "payee_transfer_savings")
    /\ option_map ActualClient.TransferPayee.id
         (ActualClient.findTransferPayee ledger (txt "acc_checking"))
       = Some (str "payee_transfer_checking")
    /\ option_map ActualClient.TransferPayee.id
         (ActualClient.findTransferPayee ledger (Account transfer_out))
       = Some (str "payee_transfer_checking")
    /\ ActualClient.payee mirror
       <> option_map ActualClient.TransferPayee.id
            (ActualClient.findTransferPayee ledger (Account transfer_out)).
Proof.
  eexists. eexists. split; [vm_compute; reflexivity|].
  repeat split; try reflexivity. discriminate.
Qed.

(** What the import gets right of a transfer.  For every transaction of a
    batch that is a transfer ([_isTransfer] and [_transferToAccount]
    truthy), that is itself filed for import (its [_accountId] is set, or
    its Account is found), and whose destination has a transfer payee, the
    import files exactly one primary record, under the transaction's
    account, and exactly one mirrored record, under the destination account.
    The mirrored record has the negated amount of the primary leg, the
    primary leg's [imported_id] followed by "_mirror", the same date and
    notes, and [cleared = false].  Its payee is the matter of the lemma
    above. *)
Theorem transfer_is_mirrored_once {E : Engine}
        (c : ActualClient.Client) (transactions : list ActualTransaction)
        (i : nat) (t : ActualTransaction) (key : JsVal)
        (p : ActualClient.TransferPayee.t) :
  nth_error transactions i = Some t ->
  is_transfer t = true ->
  ActualClient.findTransferPayee c (read (_transferToAccount t)) = Some p ->
  ActualClient.resolve_account_key c t = inl key ->
  let groups := fst (ActualClient.group_transactions c transactions) in
  let primary := ActualClient.convertToImportFormat c t in
  let mirror := ActualClient.mirrorTransaction t primary p in
  let primary_entry :=
    {| ActualClient.original := t; ActualClient.import := primary;
       ActualClient.index := i; ActualClient.isMirrorTransfer := false |} in
  let mirror_entry :=
    {| ActualClient.original := t; ActualClient.import := mirror;
       ActualClient.index := i; ActualClient.isMirrorTransfer := true |} in
  filter (is_mirror_of i) (all_entries groups) = [mirror_entry]
  /\ filter (is_primary_of i) (all_entries groups) = [primary_entry]
  /\ filed_under (read (_transferToAccount t)) mirror_entry groups
  /\ filed_under key primary_entry groups
  /\ ActualClient.amount mirror
     = JNum (neg (ToNumber (ActualClient.amount primary)))
  /\ ActualClient.imported_id mirror
     = ActualClient.imported_id primary ++ str "_mirror"
  /\ ActualClient.date mirror = ActualClient.date primary
  /\ ActualClient.notes mirror = ActualClient.notes primary
  /\ ActualClient.cleared mirror = false.
Proof.
  intros Hnth Ht Hp Hk. cbv zeta.
  destruct (fold_transfer c i t key p Ht Hp Hk transactions 0%nat ([], []))
    as (Hm & Hpr & Hfm & Hfp).
  - lia.
  - rewrite Nat.sub_0_r. exact Hnth.
  - reflexivity.
  - reflexivity.
  - split; [exact Hm|]. split; [exact Hpr|].
    split; [exact Hfm|]. split; [exact Hfp|].
    unfold ActualClient.mirrorTransaction,
      ActualClient.convertToImportFormat.
    unfold is_transfer in Ht. rewrite Ht, Hp.
    repeat split; reflexivity.
Qed.

Lemma transfer_is_mirrored_once_witness :
  exists mirror,
    filter (is_mirror_of 0)
      (all_entries
         (fst (ActualClient.group_transactions (E := Host.engine) ledger
                 [transfer_out])))
    = [mirror]
    /\ ActualClient.amount (ActualClient.import mirror) = JNum (of_Z 50000)
    /\ ActualClient.imported_id (ActualClient.import mirror)
       = ActualClient.generateImportedId (E := Host.engine) transfer_out
         ++ str "_mirror".
Proof.
  destruct (transfer_is_mirrored_once (E := Host.engine) ledger [transfer_out]
              0 transfer_out (txt "acc_checking") to_savings
              eq_refl eq_refl eq_refl eq_refl)
    as (Hm & _ & _ & _ & Hamount & Hid & _).
  eexists. split; [exact Hm|].
  split; [exact Hamount | exact Hid].
Defined.

(** A transfer whose own account is unknown is rejected as a whole: neither
    leg is filed, which is why the theorem asks for the account key. *)
Example unknown_account_files_nothing :
  let t :=
    {| Date := Date transfer_out; Account := txt "Nowhere";
       Payee := Payee transfer_out; Notes := Notes transfer_out;
       Amount := Amount transfer_out;
       _isTransfer := Some (JBool true);
       _transferToAccount := Some (txt "acc_savings");
       _accountId := None; category := None |} in
  ActualClient.import_batches (E := Host.engine) ledger [t] = Some []
  /\ List.map ActualClient.error
       (snd (ActualClient.group_transactions (E := Host.engine) ledger [t]))
     = [str "Account not found: Nowhere"].
Proof. split; vm_compute; reflexivity. Qed.

(* ================================================================== *)
(** * Part V — properties of the rest of the program                    *)
(* ================================================================== *)

(** ** Rounded Numbers have mantissas of at most 53 bits *)

Lemma shr_1_half (mrs : shr_record) :
  0 <= shr_m mrs -> shr_m (shr_1 mrs) = shr_m mrs / 2.
Proof.
  destruct mrs as [m r s]. cbn [shr_m]. intros H.
  rewrite <- Z.div2_div.
  destruct m as [|p|p]; [reflexivity | | lia].
  destruct p; reflexivity.
Qed.

Lemma iter_shr_1_div (p : positive) :
  forall mrs,
    0 <= shr_m mrs ->
    shr_m (iter_pos shr_1 p mrs) = shr_m mrs / 2 ^ Zpos p.
Proof.
  induction p as [p IH | p IH |]; intros mrs H; simpl iter_pos.
  - assert (Hp : 0 < 2 ^ Zpos p) by (apply Z.pow_pos_nonneg; lia).
    rewrite IH by (apply iter_shr_1_nonneg, shr_1_nonneg, H).
    rewrite IH by (apply shr_1_nonneg, H).
    rewrite shr_1_half by exact H.
    rewrite !Z.div_div by lia.
    f_equal. rewrite Pos2Z.inj_xI.
    replace (2 * Zpos p + 1) with (1 + Zpos p + Zpos p) by lia.
    rewrite (Z.pow_add_r 2 (1 + Zpos p) (Zpos p)) by lia.
    rewrite (Z.pow_add_r 2 1 (Zpos p)) by lia. lia.
  - assert (Hp : 0 < 2 ^ Zpos p) by (apply Z.pow_pos_nonneg; lia).
    rewrite IH by (apply iter_shr_1_nonneg, H).
    rewrite IH by exact H.
    rewrite Z.div_div by lia.
    f_equal. rewrite <- Z.pow_add_r by lia. f_equal. lia.
  - rewrite shr_1_half by exact H. reflexivity.
Qed.

Lemma Zdigits2_bound (m : Z) : 0 <= m -> m < 2 ^ Zdigits2 m.
Proof.
  destruct m as [|p|p]; intros H; simpl; [lia | | lia].
  apply digits2_pos_bounds.
Qed.

Lemma shr_fexp_small (m e : Z) (l : location) :
  0 <= m -> shr_m (fst (shr_fexp prec emax m e l)) < 2 ^ 53.
Proof.
  intros H. unfold shr_fexp, shr.
  assert (Hm : shr_m (shr_record_of_loc m l) = m)
    by (destruct l as [|c]; [reflexivity | destruct c; reflexivity]).
  pose proof (Zdigits2_bound m H) as Hd.
  assert (Hdig : 0 <= Zdigits2 m) by (destruct m; simpl; lia).
  assert (Hfexp : Zdigits2 m + e - 53 <= fexp prec emax (Zdigits2 m + e))
    by (unfold fexp, prec; lia).
  destruct (fexp prec emax (Zdigits2 m + e) - e) as [|p|p] eqn:Hn;
    cbn [fst].
  - rewrite Hm.
    assert (2 ^ Zdigits2 m <= 2 ^ 53) by (apply Z.pow_le_mono_r; lia).
    lia.
  - rewrite iter_shr_1_div by (rewrite Hm; exact H). rewrite Hm.
    apply Z.div_lt_upper_bound; [apply Z.pow_pos_nonneg; lia|].
    rewrite <- Z.pow_add_r by lia.
    assert (2 ^ Zdigits2 m <= 2 ^ (Zpos p + 53))
      by (apply Z.pow_le_mono_r; lia).
    lia.
  - rewrite Hm.
    assert (2 ^ Zdigits2 m <= 2 ^ 53) by (apply Z.pow_le_mono_r; lia).
    lia.
Qed.

Lemma binary_round_aux_small (s s' : bool) (mx ex : Z) (l : location)
      (m : positive) (e : Z) :
  0 <= mx ->
  binary_round_aux prec emax s mx ex l = S754_finite s' m e ->
  Zpos m < 2 ^ 53.
Proof.
  intros H. unfold binary_round_aux.
  pose proof (shr_fexp_nonneg mx ex l H) as H1.
  destruct (shr_fexp prec emax mx ex l) as [mrs' e']. cbn [fst] in H1.
  pose proof (shr_fexp_small _ e' loc_Exact
                (round_nearest_even_nonneg _ (loc_of_shr_record mrs') H1))
    as H2.
  destruct (shr_fexp prec emax _ e' loc_Exact) as [mrs'' e''].
  cbn [fst] in H2.
  destruct (shr_m mrs'') as [|p|p]; try discriminate.
  destruct (e'' <=? emax - prec); [|discriminate].
  intros Heq. injection Heq as _ <- _. exact H2.
Qed.

Lemma mul_small (x y : number) (s : bool) (m : positive) (e : Z) :
  mul x y = S754_finite s m e -> Zpos m < 2 ^ 53.
Proof.
  unfold mul, SFmul.
  destruct x as [sx | sx | | sx mx ex]; destruct y as [sy | sy | | sy my ey];
    try discriminate.
  apply binary_round_aux_small. lia.
Qed.

(** ** [transformTransactions]: which records survive, and as what *)

Lemma to_Z_finite (x : number) (z : Z) :
  to_Z x = Some z -> is_finite x = true.
Proof. destruct x; simpl; intros H; try discriminate; reflexivity. Qed.

Lemma to_Z_abs (x : number) (z : Z) :
  to_Z x = Some z -> to_Z (Math_abs x) = Some (Z.abs z).
Proof.
  destruct x as [s | s | | s m e]; try discriminate.
  - intros H. injection H as <-. reflexivity.
  - unfold Math_abs, abs, SFabs, to_Z. destruct (Z.leb_spec 0 e) as [He | He].
    + assert (Hv : 0 <= Zpos m * 2 ^ e)
        by (apply Z.mul_nonneg_nonneg; [lia | apply Z.pow_nonneg; lia]).
      revert Hv. generalize (Zpos m * 2 ^ e). intros v Hv H.
      injection H as <-. f_equal. destruct s; cbn [cond_Zopp]; lia.
    + destruct (Zpos m mod 2 ^ (- e) =? 0); [|discriminate].
      assert (Hv : 0 <= Zpos m / 2 ^ (- e)) by (apply Z.div_pos; [lia|];
        apply Z.pow_pos_nonneg; lia).
      revert Hv. generalize (Zpos m / 2 ^ (- e)). intros v Hv H.
      injection H as <-. f_equal. destruct s; cbn [cond_Zopp]; lia.
Qed.

Lemma round_half_away_whole (x : number) :
  (forall s m e, x = S754_finite s m e -> Zpos m < 2 ^ 53) ->
  is_finite x = true ->
  exists z, to_Z (round_half_away x) = Some z.
Proof.
  intros Hsmall Hfin. destruct x as [s | s | | s m e]; try discriminate.
  - exists 0. destruct s; reflexivity.
  - destruct (round_half_away_nearest s m e (Hsmall s m e eq_refl))
      as (n & _ & _ & Hz).
    eexists. exact Hz.
Qed.

Lemma round_half_away_not_finite (x : number) :
  is_finite x = false -> is_finite (round_half_away x) = false.
Proof.
  destruct x as [s | s | | s m e]; try discriminate; intros _.
  - destruct s; reflexivity.
  - reflexivity.
Qed.

Lemma is_finite_neg (x : number) : is_finite (neg x) = is_finite x.
Proof. destruct x; reflexivity. Qed.

Lemma is_finite_abs (x : number) : is_finite (Math_abs x) = is_finite x.
Proof. destruct x; reflexivity. Qed.

(** The cents of a raw amount are finite exactly when the amount is
    countable, and are then a whole number. *)
Lemma amountInCents_countable (r : WsTransaction) :
  is_finite (amountInCents (amount r)) = Laws.countable r
  /\ (Laws.countable r = true ->
      exists z, to_Z (amountInCents (amount r)) = Some z).
Proof.
  unfold Laws.countable.
  destruct (missing_amount (amount r)) eqn:Hmiss.
  - rewrite (amountInCents_missing _ Hmiss). split; [reflexivity|].
    discriminate.
  - rewrite (amountInCents_present _ Hmiss). cbn [negb andb].
    destruct (is_finite (mul (ToNumber (amount r)) hundred)) eqn:Hfin.
    + assert (Hz : exists z,
                 to_Z (round_half_away (mul (ToNumber (amount r)) hundred))
                 = Some z).
      { apply round_half_away_whole; [|exact Hfin].
        intros s m e Heq. exact (mul_small _ _ _ _ _ Heq). }
      destruct Hz as [z Hz]. split; [|intros _; exists z; exact Hz].
      exact (to_Z_finite _ _ Hz).
    + split; [|discriminate].
      apply round_half_away_not_finite. exact Hfin.
Qed.

Section BatchFacts.
Context {E : Engine}.
Import TransformerBatch.

(** What [transformTransaction] makes of the amount. *)
Lemma transformTransaction_amount (r : WsTransaction) (o : Options)
      (out : ActualTransaction) :
  transformTransaction r o = Ok out ->
  Number_isFinite (Amount out) = Laws.countable r
  /\ (Laws.countable r = true -> Laws.whole (Amount out) = true).
Proof.
  intros H.
  destruct (transformTransaction_inv _ _ _ H)
    as (isDebit & notes & payee & _ & _ & _ & ->).
  destruct (amountInCents_countable r) as [Hfin Hwhole].
  cbn [Amount Number_isFinite Laws.whole]. split.
  - destruct isDebit; rewrite ?is_finite_neg, is_finite_abs; exact Hfin.
  - intros Hc. destruct (Hwhole Hc) as [z Hz].
    apply to_Z_abs in Hz.
    destruct isDebit; [apply to_Z_neg in Hz|]; rewrite Hz; reflexivity.
Qed.

Lemma map_exc_Forall2 {A B : Type} (f : A -> Exc B) (l : list A) :
  forall out, map_exc f l = Ok out -> Forall2 (fun x y => f x = Ok y) l out.
Proof.
  induction l as [|x l IH]; intros out; simpl.
  - intros H. injection H as <-. constructor.
  - destruct (f x) as [y|] eqn:Hy; [|discriminate]. cbn [bind].
    destruct (map_exc f l) as [ys|]; [|discriminate]. cbn [bind].
    intros H. injection H as <-. constructor; [exact Hy | apply IH].
    reflexivity.
Qed.

Lemma map_exc_total {A B : Type} (f : A -> Exc B) (l : list A) :
  Forall (fun x => exists y, f x = Ok y) l ->
  exists out, map_exc f l = Ok out.
Proof.
  induction 1 as [|x l [y Hy] _ [ys Hys]]; simpl.
  - eexists. reflexivity.
  - rewrite Hy, Hys. eexists. reflexivity.
Qed.

Lemma Forall2_In_r {A B : Type} (R : A -> B -> Prop) (l : list A)
      (l' : list B) (y : B) :
  Forall2 R l l' -> In y l' -> exists x, In x l /\ R x y.
Proof.
  induction 1 as [|x y' l l' Hxy _ IH]; intros Hin; [destruct Hin|].
  destruct Hin as [<- | Hin].
  - exists x. split; [left; reflexivity | exact Hxy].
  - destruct (IH Hin) as (x' & Hx' & Hr).
    exists x'. split; [right; exact Hx' | exact Hr].
Qed.

Lemma Forall2_filter {A B : Type} (R : A -> B -> Prop)
      (p : A -> bool) (q : B -> bool) (l : list A) (l' : list B) :
  (forall x y, R x y -> p x = q y) ->
  Forall2 R l l' -> Forall2 R (filter p l) (filter q l').
Proof.
  intros Hpq. induction 1 as [|x y l l' Hxy _ IH]; simpl; [constructor|].
  rewrite <- (Hpq x y Hxy). destruct (p x); [constructor|]; assumption.
Qed.

(** A well-typed record is transformed without an exception. *)
Lemma transformTransaction_returns (r : WsTransaction) (o : Options) :
  well_typed r = true -> exists out, transformTransaction r o = Ok out.
Proof.
  intros Hwt. unfold well_typed in Hwt. cbn [forallb] in Hwt.
  split_andb Hwt.
  destruct (buildPayeeName_text r) as [payee Hpayee]; try assumption.
  unfold transformTransaction.
  rewrite isDebitTransaction_text by assumption. cbn [bind].
  rewrite buildNotesFromSpec_text by assumption.
  match goal with
  | |- context [if ?c then Ok ?a else Ok ?b] =>
      replace (if c then Ok a else Ok b) with (Ok (if c then a else b))
        by (destruct c; reflexivity)
  end.
  cbn [bind]. rewrite Hpayee. cbn [bind].
  match goal with
  | |- context [if ?c then _ else _] => destruct c
  end; eexists; reflexivity.
Qed.

End BatchFacts.

(** X1 — On records whose fields are strings, numbers (the amount), [null]
    or absent, [transformTransactions] does not throw, and what it returns
    is, in the order of the input, the transformation of exactly the records
    whose amount is countable: not missing, and finite once multiplied by a
    hundred.  A record with an empty, [null] or absent amount is dropped. *)
Theorem transformTransactions_keeps_countable {E : Engine}
        (ws : list WsTransaction) (o : Options) :
  Forall (fun r => well_typed r = true) ws ->
  exists out,
    TransformerBatch.transformTransactions ws o = Ok out
    /\ Forall2 (fun r t => transformTransaction r o = Ok t)
               (filter Laws.countable ws) out
    /\ (forall r, In r ws -> missing_amount (amount r) = true ->
                  In r (filter Laws.countable ws) -> False).
Proof.
  intros Hwt.
  assert (Hall : Forall (fun r => exists t, transformTransaction r o = Ok t)
                        ws).
  { apply Forall_impl with (2 := Hwt). intros r Hr.
    apply transformTransaction_returns. exact Hr. }
  destruct (map_exc_total _ _ Hall) as [mapped Hmapped].
  unfold TransformerBatch.transformTransactions. rewrite Hmapped.
  cbn [bind]. eexists. split; [reflexivity|]. split.
  - apply Forall2_filter with (2 := map_exc_Forall2 _ _ _ Hmapped).
    intros r t Hrt. symmetry.
    apply (transformTransaction_amount r o t Hrt).
  - intros r _ Hmiss Hin. apply filter_In in Hin. destruct Hin as [_ Hc].
    unfold Laws.countable in Hc. rewrite Hmiss in Hc. discriminate.
Qed.

(** The salary deposit is kept; a record without an amount and a record
    whose amount is no number are dropped. *)
Lemma transformTransactions_keeps_countable_witness :
  Forall (fun r => well_typed r = true)
         [empty_record; salary_record; typed_record "payment" (txt "n/a")]
  /\ exists out,
       TransformerBatch.transformTransactions (E := Host.engine)
         [empty_record; salary_record; typed_record "payment" (txt "n/a")]
         no_options = Ok out
       /\ Forall2 (fun r t =>
                     transformTransaction (E := Host.engine) r no_options
                     = Ok t)
                  [salary_record] out.
Proof.
  assert (Hwt : Forall (fun r => well_typed r = true)
                  [empty_record; salary_record;
                   typed_record "payment" (txt "n/a")])
    by (repeat constructor).
  split; [exact Hwt|].
  destruct (transformTransactions_keeps_countable (E := Host.engine)
              _ no_options Hwt) as (out & Hrun & Hkept & _).
  exists out. split; [exact Hrun | exact Hkept].
Defined.

(** X2 — Whatever the input, every transaction [transformTransactions]
    returns has an Amount that is a whole, finite number of cents. *)
Theorem transformTransactions_whole_cents {E : Engine}
        (ws : list WsTransaction) (o : Options)
        (out : list ActualTransaction) :
  TransformerBatch.transformTransactions ws o = Ok out ->
  Forall (fun t => Laws.whole (Amount t) = true
                   /\ TransformerBatch.Number_isFinite (Amount t) = true)
         out.
Proof.
  unfold TransformerBatch.transformTransactions.
  destruct (TransformerBatch.map_exc _ ws) as [mapped|] eqn:Hmapped;
    [|discriminate].
  cbn [bind]. intros H. injection H as <-.
  apply map_exc_Forall2 in Hmapped.
  apply Forall_forall. intros t Hin. apply filter_In in Hin.
  destruct Hin as [Hin Hfin]. split; [|exact Hfin].
  destruct (Forall2_In_r _ _ _ _ Hmapped Hin) as (r & _ & Hrt).
  destruct (transformTransaction_amount r o t Hrt) as [Hc Hwhole].
  apply Hwhole. rewrite <- Hc. exact Hfin.
Qed.

Lemma transformTransactions_whole_cents_witness :
  exists out,
    TransformerBatch.transformTransactions (E := Host.engine)
      [salary_record; empty_record] no_options = Ok out
    /\ Forall (fun t => Laws.whole (Amount t) = true
                        /\ TransformerBatch.Number_isFinite (Amount t) = true)
              out
    /\ List.map Amount out = [JNum (of_Z 10050)].
Proof.
  eexists. split; [vm_compute; reflexivity|]. split; [|reflexivity].
  match goal with
  | |- Forall _ ?out =>
      apply (transformTransactions_whole_cents (E := Host.engine)
               [salary_record; empty_record] no_options out)
  end.
  vm_compute. reflexivity.
Defined.

(** ** [validateTransaction] after [transformTransaction] *)

(** X3 — A transaction made by [transformTransaction] can fail
    [validateTransaction] only for a missing date or a missing account:
    its amount is a number (NaN included) and its notes are a string, so
    neither is ever reported. *)
Theorem transformed_transaction_validation {E : Engine}
        (r : WsTransaction) (o : Options) (out : ActualTransaction) :
  transformTransaction r o = Ok out ->
  TransformerBatch.validateTransaction out
  = {| TransformerBatch.isValid :=
         truthy (Date out) && truthy (account r);
       TransformerBatch.errors :=
         (if truthy (Date out) then []
          else [str "Missing transaction date"])
         ++ (if truthy (account r) then [] else [str "Missing account"]) |}.
Proof.
  intros H.
  destruct (transformTransaction_inv _ _ _ H)
    as (isDebit & notes & payee & _ & _ & _ & ->).
  unfold TransformerBatch.validateTransaction.
  cbn [Date Account Notes Amount TransformerBatch.is_number
       TransformerBatch.is_string negb andb app].
  rewrite andb_false_r. cbn [app]. rewrite app_nil_r.
  destruct (truthy (formatDateToYMD _)); destruct (truthy (account r));
    reflexivity.
Qed.

(** A record with no amount but a date and an account passes validation
    with an Amount of NaN. *)
Lemma transformed_transaction_validation_witness :
  exists out,
    transformTransaction (E := Host.engine)
      Laws.deposit_without_amount
      no_options = Ok out
    /\ Amount out = JNum NaN
    /\ TransformerBatch.validateTransaction out
       = {| TransformerBatch.isValid := true;
            TransformerBatch.errors := [] |}.
Proof.
  eexists. split; [vm_compute; reflexivity|]. split; [reflexivity|].
  match goal with
  | |- TransformerBatch.validateTransaction ?out = _ =>
      rewrite (transformed_transaction_validation (E := Host.engine)
                 Laws.deposit_without_amount no_options out)
  end.
  - reflexivity.
  - vm_compute. reflexivity.
Defined.

(** ** [groupByAccount] partitions its input *)

Lemma num_eqb_true (x y : number) :
  Num.eqb x y = true -> (is_zero x = true /\ is_zero y = true) \/ x = y.
Proof.
  unfold Num.eqb, SFeqb, SFcompare.
  destruct x as [sx | sx | | sx mx ex]; destruct y as [sy | sy | | sy my ey];
    try discriminate; try (destruct sx; discriminate);
    try (destruct sy; discriminate).
  - left. split; reflexivity.
  - destruct sx, sy; try discriminate; right; reflexivity.
  - destruct sx, sy; try discriminate;
      destruct (Z.compare_spec ex ey) as [-> | _ | _]; try discriminate;
      destruct (Pos.compare_cont Eq mx my) eqn:Hm; try discriminate;
      apply Pos.compare_eq in Hm; subst my; intros _; right; reflexivity.
Qed.

Lemma num_eqb_zeros (x y : number) :
  is_zero x = true -> is_zero y = true -> Num.eqb x y = true.
Proof. destruct x, y; try discriminate. reflexivity. Qed.

Section SameValueZero.
Import ActualClient.

Lemma same_value_zero_sym (a b : JsVal) :
  same_value_zero a b = same_value_zero b a.
Proof.
  assert (Hone : forall a b, same_value_zero a b = true ->
                             same_value_zero b a = true).
  { clear a b. intros a b.
    destruct a as [| | x | x | s]; destruct b as [| | y | y | t];
      simpl; try discriminate; try reflexivity.
    - destruct x, y; try discriminate; reflexivity.
    - intros H. apply orb_prop in H. destruct H as [H | H].
      + apply andb_prop in H. destruct H as [-> ->]. reflexivity.
      + destruct (num_eqb_true _ _ H) as [[Hx Hy] | ->].
        * rewrite (num_eqb_zeros _ _ Hy Hx). apply orb_true_r.
        * rewrite H. apply orb_true_r.
    - unfold Str.eqb.
      destruct (list_eq_dec N.eq_dec s t) as [-> | _]; [|discriminate].
      destruct (list_eq_dec N.eq_dec t t); congruence. }
  destruct (same_value_zero a b) eqn:Hab.
  - symmetry. apply Hone. exact Hab.
  - destruct (same_value_zero b a) eqn:Hba; [|reflexivity].
    apply Hone in Hba. congruence.
Qed.

Lemma same_value_zero_trans (a b c : JsVal) :
  same_value_zero a b = true -> same_value_zero b c = true ->
  same_value_zero a c = true.
Proof.
  destruct a as [| | x | x | s]; destruct b as [| | y | y | t];
    destruct c as [| | z | z | u]; simpl; try discriminate; try reflexivity.
  - destruct x, y, z; try discriminate; reflexivity.
  - intros H1 H2.
    apply orb_prop in H1. apply orb_prop in H2.
    destruct H1 as [H1 | H1].
    + apply andb_prop in H1. destruct H1 as [Hx Hy].
      destruct H2 as [H2 | H2].
      * apply andb_prop in H2. destruct H2 as [_ Hz].
        rewrite Hx, Hz. reflexivity.
      * destruct y; try discriminate.
    + destruct H2 as [H2 | H2].
      * apply andb_prop in H2. destruct H2 as [Hy _].
        destruct y; try discriminate. destruct x; discriminate.
      * destruct (num_eqb_true _ _ H1) as [[Hx Hy] | ->];
          destruct (num_eqb_true _ _ H2) as [[Hy' Hz] | <-].
        -- rewrite (num_eqb_zeros _ _ Hx Hz). apply orb_true_r.
        -- rewrite H1. apply orb_true_r.
        -- rewrite H2. apply orb_true_r.
        -- rewrite H1. apply orb_true_r.
  - unfold Str.eqb.
    destruct (list_eq_dec N.eq_dec s t) as [-> | _]; [|discriminate].
    destruct (list_eq_dec N.eq_dec t u) as [-> | _]; [|discriminate].
    reflexivity.
Qed.

(** Keys that are the same are the same as the same keys. *)
Lemma same_value_zero_congr (a b c : JsVal) :
  same_value_zero a b = true ->
  same_value_zero a c = same_value_zero b c.
Proof.
  intros Hab. destruct (same_value_zero b c) eqn:Hbc.
  - exact (same_value_zero_trans _ _ _ Hab Hbc).
  - destruct (same_value_zero a c) eqn:Hac; [|reflexivity].
    rewrite same_value_zero_sym in Hab.
    rewrite (same_value_zero_trans _ _ _ Hab Hac) in Hbc. discriminate.
Qed.

End SameValueZero.

Section GroupFacts.
Import ActualClient TransformerBatch.
Context {V : Type}.

Lemma ValMap_get_push_same (k k0 : JsVal) (x : V) (m : ValMap (list V)) :
  same_value_zero k k0 = true ->
  ValMap_get k (ValMap_push k0 x m)
  = Some (match ValMap_get k m with
          | Some xs => xs ++ [x]
          | None => [x]
          end).
Proof.
  intros Hk. induction m as [|[k' xs] m IH]; simpl.
  - rewrite Hk. reflexivity.
  - rewrite (same_value_zero_congr k k0 k' Hk).
    destruct (same_value_zero k0 k') eqn:Hk0; simpl.
    + rewrite (same_value_zero_congr k k0 k' Hk), Hk0. reflexivity.
    + rewrite (same_value_zero_congr k k0 k' Hk), Hk0. exact IH.
Qed.

Lemma ValMap_get_push_other (k k0 : JsVal) (x : V) (m : ValMap (list V)) :
  same_value_zero k k0 = false ->
  ValMap_get k (ValMap_push k0 x m) = ValMap_get k m.
Proof.
  intros Hk. induction m as [|[k' xs] m IH]; simpl.
  - rewrite Hk. reflexivity.
  - destruct (same_value_zero k0 k') eqn:Hk0; simpl.
    + destruct (same_value_zero k k') eqn:Hkk'; [|reflexivity].
      rewrite same_value_zero_sym in Hk0.
      rewrite (same_value_zero_trans _ _ _ Hkk' Hk0) in Hk. discriminate.
    + destruct (same_value_zero k k'); [reflexivity | exact IH].
Qed.

Lemma ValMap_push_keys (k0 : JsVal) (x : V) (m : ValMap (list V)) :
  Laws.distinct_keys m -> Laws.distinct_keys (ValMap_push k0 x m).
Proof.
  unfold Laws.distinct_keys.
  induction 1 as [|[k' xs] m Hhead Htail IH]; simpl.
  - constructor; constructor.
  - destruct (same_value_zero k0 k') eqn:Hk0.
    + constructor; assumption.
    + constructor; [|exact IH].
      clear IH Htail. induction m as [|[k2 ys] m IHm]; simpl.
      * constructor; [|constructor]. cbn [fst].
        rewrite same_value_zero_sym. exact Hk0.
      * inversion Hhead as [|? ? Hfirst Hrest]; subst.
        destruct (same_value_zero k0 k2); constructor; auto.
Qed.

Lemma ValMap_push_size (k0 : JsVal) (x : V) (m : ValMap (list V)) :
  length (flat_map snd (ValMap_push k0 x m))
  = S (length (flat_map snd m)).
Proof.
  induction m as [|[k' xs] m IH]; simpl; [reflexivity|].
  destruct (same_value_zero k0 k'); simpl; rewrite !length_app; simpl.
  - lia.
  - rewrite IH. lia.
Qed.

End GroupFacts.

Lemma groupByAccount_fold (l : list ActualTransaction) :
  forall (m : TransformerBatch.ValMap (list ActualTransaction))
         (seen : list ActualTransaction),
    (forall k, TransformerBatch.ValMap_get k m
               = match Laws.filed_as k seen with
                 | [] => None
                 | ts => Some ts
                 end) ->
    Laws.distinct_keys m ->
    length (flat_map snd m) = length seen ->
    let m' :=
      fold_left
        (fun grouped transaction =>
           TransformerBatch.ValMap_push
             (TransformerBatch.account_key transaction) transaction grouped)
        l m in
    (forall k, TransformerBatch.ValMap_get k m'
               = match Laws.filed_as k (seen ++ l) with
                 | [] => None
                 | ts => Some ts
                 end)
    /\ Laws.distinct_keys m'
    /\ length (flat_map snd m') = length (seen ++ l).
Proof.
  induction l as [|t l IH]; intros m seen Hget Hkeys Hsize; cbv zeta.
  - simpl. rewrite app_nil_r. auto.
  - simpl fold_left.
    replace (seen ++ t :: l) with ((seen ++ [t]) ++ l)
      by (rewrite <- app_assoc; reflexivity).
    apply IH.
    + intros k. unfold Laws.filed_as. rewrite filter_app. cbn [filter].
      fold (Laws.filed_as k seen).
      destruct (ActualClient.same_value_zero
                  k (TransformerBatch.account_key t)) eqn:Hk.
      * rewrite (ValMap_get_push_same _ _ _ _ Hk), Hget.
        destruct (Laws.filed_as k seen); reflexivity.
      * rewrite (ValMap_get_push_other _ _ _ _ Hk), Hget, app_nil_r.
        reflexivity.
    + apply ValMap_push_keys. exact Hkeys.
    + rewrite ValMap_push_size, Hsize, length_app. simpl. lia.
Qed.

(** X4 — [groupByAccount] partitions the transactions by account: the group
    found under a key is exactly the transactions with that account (the
    key "Unknown" for a missing one), in their order, and there is no group
    when there is none; no two groups have the same key; the groups
    together hold as many transactions as the input. *)
Theorem groupByAccount_partitions (l : list ActualTransaction) :
  (forall k,
     TransformerBatch.ValMap_get k (TransformerBatch.groupByAccount l)
     = match Laws.filed_as k l with
       | [] => None
       | ts => Some ts
       end)
  /\ Laws.distinct_keys (TransformerBatch.groupByAccount l)
  /\ length (flat_map snd (TransformerBatch.groupByAccount l)) = length l.
Proof.
  apply (groupByAccount_fold l [] []).
  - reflexivity.
  - constructor.
  - reflexivity.
Qed.

(** ** Payee names *)

Lemma collapse_spaces_from_plain (s : jsstr) :
  forall in_run,
    forallb (fun c => negb (is_space c) || (c =? 32)%N)
            (collapse_spaces_from in_run s) = true.
Proof.
  induction s as [|c s IH]; intros in_run; simpl; [reflexivity|].
  destruct (is_space c) eqn:Hc.
  - destruct in_run; simpl; rewrite ?IH; reflexivity.
  - simpl. rewrite Hc, IH. reflexivity.
Qed.

Lemma forallb_filter_both (p q : N -> bool) (s : jsstr) :
  forallb p s = true -> forallb (fun c => p c && q c) (filter q s) = true.
Proof.
  induction s as [|c s IH]; simpl; [reflexivity|].
  intros H. apply andb_prop in H. destruct H as [Hc Hs].
  destruct (q c) eqn:Hq; simpl; rewrite ?Hc, ?Hq, ?(IH Hs); auto.
Qed.

Lemma forallb_trimStart (p : N -> bool) (s : jsstr) :
  forallb p s = true -> forallb p (trimStart s) = true.
Proof.
  induction s as [|c s IH]; simpl; [reflexivity|].
  intros H. destruct (is_space c); [|exact H].
  apply andb_prop in H. apply IH, H.
Qed.

Lemma forallb_rev (p : N -> bool) (s : jsstr) :
  forallb p (rev s) = forallb p s.
Proof.
  induction s as [|c s IH]; simpl; [reflexivity|].
  rewrite forallb_app, IH. simpl. rewrite andb_true_r. apply andb_comm.
Qed.

Lemma forallb_trim (p : N -> bool) (s : jsstr) :
  forallb p s = true -> forallb p (trim s) = true.
Proof.
  intros H. unfold trim, trimEnd. rewrite forallb_rev.
  apply forallb_trimStart. rewrite forallb_rev.
  apply forallb_trimStart. exact H.
Qed.

Lemma trimStart_starts_outside (s : jsstr) :
  starts_outside is_space (trimStart s) = true.
Proof.
  induction s as [|c s IH]; simpl; [reflexivity|].
  destruct (is_space c) eqn:Hc; [exact IH|]. simpl. rewrite Hc. reflexivity.
Qed.

(** Trimming at the end keeps a prefix. *)
Lemma trimEnd_prefix (s : jsstr) : exists u, s = trimEnd s ++ u.
Proof.
  unfold trimEnd.
  assert (H : forall t, exists u, t = u ++ trimStart t).
  { induction t as [|c t [u Hu]]; simpl.
    - exists []. reflexivity.
    - destruct (is_space c).
      + exists (c :: u). simpl. rewrite <- Hu. reflexivity.
      + exists []. reflexivity. }
  destruct (H (rev s)) as [u Hu].
  exists (rev u). rewrite <- rev_app_distr, <- Hu, rev_involutive.
  reflexivity.
Qed.

Lemma trimEnd_empty (s : jsstr) :
  starts_outside is_space s = true -> trimEnd s = [] -> s = [].
Proof.
  intros Hs He. destruct s as [|c s]; [reflexivity|].
  exfalso. simpl in Hs. unfold trimEnd in He.
  apply (f_equal (@rev N)) in He. rewrite rev_involutive in He.
  simpl in He.
  assert (H : forall t, forallb is_space t = false -> trimStart t <> []).
  { induction t as [|d t IHt]; simpl; [discriminate|].
    destruct (is_space d); [exact IHt | discriminate]. }
  apply (H (rev s ++ [c])); [|exact He].
  rewrite forallb_app. simpl.
  destruct (is_space c); [discriminate|].
  rewrite andb_false_r. reflexivity.
Qed.

Lemma trim_starts_outside (s : jsstr) :
  starts_outside is_space (trim s) = true.
Proof.
  unfold trim. pose proof (trimStart_starts_outside s) as H.
  destruct (trimEnd_prefix (trimStart s)) as [u Hu].
  destruct (trimEnd (trimStart s)) as [|c t] eqn:Ht; [reflexivity|].
  rewrite Hu in H. exact H.
Qed.

Lemma cleanPayeeName_clean (name : jsstr) :
  Laws.clean_name (cleanPayeeName name).
Proof.
  unfold Laws.clean_name, cleanPayeeName, substring0. split; [|split].
  - apply firstn_le_length.
  - apply forallb_firstn. apply forallb_trim.
    unfold remove_all, collapse_spaces.
    apply forallb_weaken
      with (p := fun c =>
                   (negb (is_space c) || (c =? 32)%N)
                   && negb (negb (is_word c || is_space c
                                  || (c =? ch "-")%N || (c =? ch "&")%N
                                  || (c =? ch ".")%N || (c =? 39)%N))).
    + intros c H. apply andb_prop in H. destruct H as [Hplain Hkeep].
      rewrite negb_involutive in Hkeep. unfold Laws.payee_char.
      destruct (is_word c); [reflexivity|].
      destruct (is_space c); simpl in *.
      * rewrite Hplain. reflexivity.
      * destruct (c =? 32)%N; [reflexivity | exact Hkeep].
    + apply forallb_filter_both. apply collapse_spaces_from_plain.
  - pose proof (trim_starts_outside
                  (remove_all
                     (fun c => negb (is_word c || is_space c
                                     || (c =? ch "-")%N || (c =? ch "&")%N
                                     || (c =? ch ".")%N || (c =? 39)%N))
                     (collapse_spaces name))) as H.
    destruct (trim _) as [|c t]; [reflexivity | exact H].
Qed.

(** X5 — The payee [buildPayeeName] returns is never one of the names
    Referral, Interest, Bonus, Cash back and Reimbursement (they become
    "WealthSimple"); and for a record with a description it is a string of at
    most 100 code units, made of letters, digits, underscores, plain spaces
    and [- & . '] only, that does not start with a space. *)
Theorem payee_names_are_clean {E : Engine} (r : WsTransaction) (p : JsVal) :
  buildPayeeName r = Ok p ->
  (forall w, In w wealthSimplePayees -> p <> JStr w)
  /\ (truthy (description r) = true ->
      exists s, p = JStr s /\ Laws.clean_name s).
Proof.
  unfold buildPayeeName.
  set (named := if truthy (description r) then _ else _).
  destruct named as [payeeName|] eqn:Hnamed; [|discriminate]. cbn [bind].
  destruct (existsb _ wealthSimplePayees) eqn:Hws; intros H;
    injection H as <-.
  - split.
    + intros w Hw. cbn in Hw.
      destruct Hw as [<- | [<- | [<- | [<- | [<- | []]]]]]; discriminate.
    + intros _. exists (str "WealthSimple"). split; [reflexivity|].
      split; [cbn; lia | split; reflexivity].
  - split.
    + intros w Hw Heq. subst payeeName.
      assert (Hex : existsb (fun q => strict_eq (JStr q) (JStr w))
                            wealthSimplePayees = true).
      { apply existsb_exists. exists w. split; [exact Hw|].
        cbn [strict_eq]. unfold Str.eqb.
        destruct (list_eq_dec N.eq_dec w w); congruence. }
      rewrite Hex in Hws. discriminate.
    + intros Hd. subst named. rewrite Hd in Hnamed.
      destruct (description r) as [| | b | x | d]; try discriminate.
      cbv zeta in Hnamed.
      destruct (payee_from_patterns patterns d) eqn:Hpat.
      * cbn in Hnamed. injection Hnamed as <-.
        eexists. split; [reflexivity | apply cleanPayeeName_clean].
      * cbn in Hnamed. injection Hnamed as <-.
        eexists. split; [reflexivity | apply cleanPayeeName_clean].
      * exfalso. destruct (payee_from_patterns_shape patterns d)
          as [Hu | [s Hs]]; congruence.
      * exfalso. destruct (payee_from_patterns_shape patterns d)
          as [Hu | [s Hs]]; congruence.
      * assert (Hclean : Laws.clean_name s \/ s = []).
        { clear Hnamed Hws. revert Hpat. generalize patterns.
          induction l as [|pat ps IH]; simpl; [discriminate|].
          destruct (Regex.exec pat d) as [m|]; [|exact IH].
          destruct (present _); [|exact IH].
          intros Heq. injection Heq as <-. left.
          apply cleanPayeeName_clean. }
        destruct s as [|c s].
        -- cbn in Hnamed. injection Hnamed as <-.
           eexists. split; [reflexivity | apply cleanPayeeName_clean].
        -- cbn in Hnamed. injection Hnamed as <-.
           eexists. split; [reflexivity|].
           destruct Hclean as [Hc | Hc]; [exact Hc | discriminate].
Qed.

(** "PAYMENT TO  Acme, Inc. #42": the cleaned capture of the first
    pattern. *)
Lemma payee_names_are_clean_witness :
  buildPayeeName (E := Host.engine)
    Laws.acme_payment
  = Ok (txt "Acme Inc. 42")
  /\ Laws.clean_name (str "Acme Inc. 42").
Proof.
  split; [vm_compute; reflexivity|].
  destruct (payee_names_are_clean (E := Host.engine)
              Laws.acme_payment (txt "Acme Inc. 42")) as [_ Hclean].
  - vm_compute. reflexivity.
  - destruct (Hclean eq_refl) as (s & Hs & Hc).
    injection Hs as <-. exact Hc.
Defined.

(** ** Objects as maps *)

Section MapFacts.
Import ActualClient.
Context {V : Type}.

Lemma Str_eqb_refl (k : jsstr) : Str.eqb k k = true.
Proof. unfold Str.eqb. destruct (list_eq_dec N.eq_dec k k); congruence. Qed.

Lemma Str_eqb_eq (k k' : jsstr) : Str.eqb k k' = true -> k = k'.
Proof.
  unfold Str.eqb. destruct (list_eq_dec N.eq_dec k k'); [auto|discriminate].
Qed.

Lemma Str_eqb_sym (k k' : jsstr) : Str.eqb k k' = Str.eqb k' k.
Proof.
  unfold Str.eqb.
  destruct (list_eq_dec N.eq_dec k k'); destruct (list_eq_dec N.eq_dec k' k);
    congruence.
Qed.

Lemma Map_get_set_same (k : jsstr) (v : V) (m : StrMap V) :
  Map_get k (Map_set k v m) = Some v.
Proof.
  induction m as [|[k' v'] m IH]; simpl.
  - rewrite Str_eqb_refl. reflexivity.
  - destruct (Str.eqb k k') eqn:Hk; simpl.
    + rewrite Str_eqb_refl. reflexivity.
    + rewrite Hk. exact IH.
Qed.

Lemma Map_get_set_other (k k0 : jsstr) (v : V) (m : StrMap V) :
  Str.eqb k k0 = false -> Map_get k (Map_set k0 v m) = Map_get k m.
Proof.
  intros Hk. induction m as [|[k' v'] m IH]; simpl.
  - rewrite Hk. reflexivity.
  - destruct (Str.eqb k0 k') eqn:Hk0; simpl.
    + apply Str_eqb_eq in Hk0. subst k'. rewrite Hk. reflexivity.
    + destruct (Str.eqb k k'); [reflexivity | exact IH].
Qed.

Lemma Map_set_nonempty (k : jsstr) (v : V) (m : StrMap V) :
  Map_set k v m <> [].
Proof.
  destruct m as [|[k' v'] m]; simpl; [discriminate|].
  destruct (Str.eqb k k'); discriminate.
Qed.

Lemma Map_set_forallb (p : jsstr * V -> bool) (k : jsstr) (v : V)
      (m : StrMap V) :
  p (k, v) = true -> forallb p m = true -> forallb p (Map_set k v m) = true.
Proof.
  intros Hkv. induction m as [|[k' v'] m IH]; simpl.
  - rewrite Hkv. reflexivity.
  - intros H. apply andb_prop in H. destruct H as [H1 H2].
    destruct (Str.eqb k k'); simpl.
    + rewrite Hkv, H2. reflexivity.
    + rewrite H1, (IH H2). reflexivity.
Qed.

Lemma Map_get_forallb (p : jsstr * V -> bool) (k : jsstr) (v : V)
      (m : StrMap V) :
  forallb p m = true -> Map_get k m = Some v -> p (k, v) = true.
Proof.
  induction m as [|[k' v'] m IH]; simpl; [discriminate|].
  intros H. apply andb_prop in H. destruct H as [H1 H2].
  destruct (Str.eqb k k') eqn:Hk.
  - apply Str_eqb_eq in Hk. subst k'. intros Heq. injection Heq as <-.
    exact H1.
  - apply IH, H2.
Qed.

End MapFacts.

Section SpreadFacts.
Import ActualClient ParserRows.

Lemma spread_nil_r (a : Obj) : spread a [] = a.
Proof. reflexivity. Qed.

Lemma spread_cons (a b : Obj) (kv : jsstr * JsVal) :
  spread a (kv :: b) = spread (set (fst kv) (snd kv) a) b.
Proof. reflexivity. Qed.

Lemma spread_nonempty (a b : Obj) :
  spread a b = [] -> a = [] /\ b = [].
Proof.
  revert a. induction b as [|kv b IH]; intros a; simpl.
  - auto.
  - intros H. apply IH in H. destruct H as [H _].
    destruct (Map_set_nonempty _ _ _ H).
Qed.

Lemma spread_forallb (p : jsstr * JsVal -> bool) (a b : Obj) :
  forallb p a = true -> forallb p b = true ->
  forallb p (spread a b) = true.
Proof.
  revert a. induction b as [|[k v] b IH]; intros a Ha Hb; simpl.
  - exact Ha.
  - simpl in Hb. apply andb_prop in Hb. destruct Hb as [Hkv Hb].
    apply IH; [|exact Hb]. apply Map_set_forallb; assumption.
Qed.

(** Spreading an object with at most one entry per key: its entries
    replace those of the first object. *)
Lemma get_spread_one (k : jsstr) (a : Obj) (k1 : jsstr) (v1 : JsVal) :
  get k (spread a [(k1, v1)])
  = if Str.eqb k k1 then v1 else get k a.
Proof.
  unfold get, spread. simpl. unfold set.
  destruct (Str.eqb k k1) eqn:Hk.
  - apply Str_eqb_eq in Hk. subst k1. rewrite Map_get_set_same.
    reflexivity.
  - rewrite (Map_get_set_other _ _ _ _ Hk). reflexivity.
Qed.

Lemma get_spread_two (k : jsstr) (a : Obj) (k1 k2 : jsstr)
      (v1 v2 : JsVal) :
  Str.eqb k1 k2 = false ->
  get k (spread a [(k1, v1); (k2, v2)])
  = if Str.eqb k k1 then v1 else if Str.eqb k k2 then v2 else get k a.
Proof.
  intros Hne. unfold get, spread. simpl. unfold set.
  destruct (Str.eqb k k2) eqn:Hk2.
  - apply Str_eqb_eq in Hk2. subst k2. rewrite Map_get_set_same.
    rewrite Str_eqb_sym, Hne. reflexivity.
  - rewrite (Map_get_set_other _ _ _ _ Hk2).
    destruct (Str.eqb k k1) eqn:Hk1.
    + apply Str_eqb_eq in Hk1. subst k1. rewrite Map_get_set_same.
      reflexivity.
    + rewrite (Map_get_set_other _ _ _ _ Hk1). reflexivity.
Qed.

End SpreadFacts.

(** ** The rows of a scraped transaction *)

Lemma parseCurrencyValue_shape (v : jsstr) :
  (Parser.amount (Parser.parseCurrencyValue v) = JNull
   \/ exists x, Parser.amount (Parser.parseCurrencyValue v) = JNum x)
  /\ is_text (Parser.currency (Parser.parseCurrencyValue v)) = true.
Proof.
  unfold Parser.parseCurrencyValue.
  destruct (Regex.exec Parser.currency_pattern v) as [m|]; simpl.
  - split; [right; eexists; reflexivity|].
    destruct (present _); reflexivity.
  - split; [left|]; reflexivity.
Qed.

Section RowFacts.
Import ActualClient ParserRows.
Context {E : Engine} {H : Host}.

(** A row gives nothing, one entry, or two entries under different
    keys. *)
Lemma parseRow_shape (name : jsstr) (value : option jsstr) :
  parseRow name value = []
  \/ (exists k v, parseRow name value = [(k, v)])
  \/ (exists k1 v1 k2 v2,
        parseRow name value = [(k1, v1); (k2, v2)]
        /\ Str.eqb k1 k2 = false).
Proof.
  unfold parseRow.
  destruct (simple_field _); [right; left; eauto|].
  destruct (existsb _ dateFields); [right; left; eauto|].
  destruct (Str.eqb _ (str "original amount")).
  { destruct (truthy_value value); [|left; reflexivity].
    cbv zeta. destruct (strict_eq _ JNull); [left; reflexivity|].
    right; right. do 4 eexists. split; reflexivity. }
  destruct (Str.eqb _ (str "exchange rate")).
  { destruct (truthy_value value); [right; left; eauto | left; reflexivity]. }
  destruct (existsb _ amountFields).
  { destruct (truthy_value value); [|left; reflexivity].
    cbv zeta. right; right.
    destruct (strict_eq _ JNull); do 4 eexists; split; reflexivity. }
  destruct (includes _ _); [|left; reflexivity].
  destruct (truthy_value value); [|left; reflexivity].
  cbv zeta. destruct (strict_eq _ JNull); [left; reflexivity|].
  right; right. do 4 eexists. split; reflexivity.
Qed.

Lemma parseRow_entries (name : jsstr) (value : option jsstr) :
  forallb Laws.entry_ok (parseRow name value) = true.
Proof.
  assert (Hval : is_text (of_value value) = true)
    by (destruct value; reflexivity).
  unfold parseRow.
  destruct (simple_field _) as [key|].
  { cbn [forallb]. unfold Laws.entry_ok. cbn [fst snd].
    rewrite Hval. reflexivity. }
  destruct (existsb _ dateFields).
  { cbn [forallb]. unfold Laws.entry_ok, parseDate. cbn [fst snd].
    destruct (truthy_value value) as [v|]; [|reflexivity].
    destruct (dateOf v); reflexivity. }
  destruct (Str.eqb _ (str "original amount")).
  { destruct (truthy_value value) as [v|]; [|reflexivity]. cbv zeta.
    destruct (parseCurrencyValue_shape v) as [[Ha | [x Ha]] Hc];
      rewrite Ha; [reflexivity|].
    cbn [strict_eq forallb]. unfold Laws.entry_ok. cbn [fst snd].
    rewrite Hc. reflexivity. }
  destruct (Str.eqb _ (str "exchange rate")).
  { destruct (truthy_value value) as [v|]; reflexivity. }
  destruct (existsb _ amountFields).
  { destruct (truthy_value value) as [v|]; [|reflexivity]. cbv zeta.
    destruct (parseCurrencyValue_shape v) as [[Ha | [x Ha]] Hc];
      rewrite Ha; [reflexivity|].
    cbn [strict_eq forallb]. unfold Laws.entry_ok. cbn [fst snd].
    rewrite Hc. destruct (Str.eqb _ (str "total cost")); reflexivity. }
  destruct (includes _ _); [|reflexivity].
  destruct (truthy_value value) as [v|]; [|reflexivity]. cbv zeta.
  destruct (parseCurrencyValue_shape v) as [[Ha | [x Ha]] Hc];
    rewrite Ha; [reflexivity|].
  cbn [strict_eq forallb]. unfold Laws.entry_ok. cbn [fst snd].
  rewrite Hc. reflexivity.
Qed.

(** Merging a row: the keys it has are replaced, the others kept. *)
Lemma get_spread_row (k : jsstr) (a : Obj) (name : jsstr)
      (value : option jsstr) :
  get k (spread a (parseRow name value))
  = if Laws.mentions k (parseRow name value)
    then get k (parseRow name value)
    else get k a.
Proof.
  destruct (parseRow_shape name value)
    as [-> | [(k1 & v1 & ->) | (k1 & v1 & k2 & v2 & -> & Hne)]].
  - reflexivity.
  - rewrite get_spread_one. unfold Laws.mentions, get. simpl.
    destruct (Str.eqb k k1); reflexivity.
  - rewrite (get_spread_two _ _ _ _ _ _ Hne).
    unfold Laws.mentions, get. simpl.
    destruct (Str.eqb k k1); [reflexivity|].
    destruct (Str.eqb k k2); reflexivity.
Qed.

Lemma parse_rows_snoc (fs : list Field) (f : Field) :
  parse_rows (fs ++ [f])
  = spread (parse_rows fs) (parseRow (name f) (value f)).
Proof. unfold parse_rows. rewrite fold_left_app. reflexivity. Qed.

Lemma parse_rows_entries (fs : list Field) :
  forallb Laws.entry_ok (parse_rows fs) = true.
Proof.
  induction fs as [|f fs IH] using rev_ind; [reflexivity|].
  rewrite parse_rows_snoc. apply spread_forallb; [exact IH|].
  apply parseRow_entries.
Qed.

Lemma parse_rows_empty (fs : list Field) :
  parse_rows fs = [] <-> forallb Laws.silent fs = true.
Proof.
  induction fs as [|f fs IH] using rev_ind; [split; reflexivity|].
  rewrite parse_rows_snoc, forallb_app. cbn [forallb].
  rewrite andb_true_r. unfold Laws.silent at 2. split.
  - intros Hs. apply spread_nonempty in Hs. destruct Hs as [Ha Hb].
    rewrite Hb, (proj1 IH Ha). reflexivity.
  - intros Hs. apply andb_prop in Hs. destruct Hs as [Ha Hb].
    rewrite (proj2 IH Ha).
    destruct (parseRow (name f) (value f)); [reflexivity | discriminate].
Qed.

End RowFacts.

(** X6 — The rows of a transaction are merged from first to last: under
    each key the parsed rows hold what the last row that produced the key
    gave, and [undefined] when no row produced it. *)
Theorem rows_merge_last_wins {E : Engine} {H : ParserRows.Host}
        (fs : list ParserRows.Field) (k : jsstr) :
  ParserRows.get k (ParserRows.parse_rows fs)
  = match find (fun f =>
                  Laws.mentions k
                    (ParserRows.parseRow (ParserRows.name f)
                                         (ParserRows.value f)))
               (rev fs) with
    | Some f =>
        ParserRows.get k
          (ParserRows.parseRow (ParserRows.name f) (ParserRows.value f))
    | None => JUndefined
    end.
Proof.
  induction fs as [|f fs IH] using rev_ind; [reflexivity|].
  rewrite parse_rows_snoc, rev_app_distr, get_spread_row. cbn [rev app find].
  destruct (Laws.mentions k _); [reflexivity | exact IH].
Qed.

Section ParsedFacts.
Import ActualClient ParserRows.
Context {E : Engine} {H : Host}.

Lemma set_entries (k : jsstr) (v : JsVal) (t : Obj) :
  Laws.entry_ok (k, v) = true -> forallb Laws.entry_ok t = true ->
  forallb Laws.entry_ok (set k v t) = true.
Proof. apply Map_set_forallb. Qed.

(** Under a key that is not numeric a parsed transaction holds text. *)
Lemma get_text (k : jsstr) (t : Obj) :
  forallb Laws.entry_ok t = true ->
  existsb (Str.eqb k) Laws.numeric_keys = false ->
  is_text (get k t) = true.
Proof.
  intros Ht Hk. unfold get.
  destruct (Map_get k t) as [v|] eqn:Hv; [|reflexivity].
  pose proof (Map_get_forallb _ _ _ _ Ht Hv) as Hok.
  unfold Laws.entry_ok in Hok. cbn [fst snd] in Hok.
  rewrite Hk, andb_false_r, orb_false_r in Hok. exact Hok.
Qed.

Lemma get_amount (k : jsstr) (t : Obj) :
  forallb Laws.entry_ok t = true -> is_amount (get k t) = true.
Proof.
  intros Ht. unfold get.
  destruct (Map_get k t) as [v|] eqn:Hv; [|reflexivity].
  pose proof (Map_get_forallb _ _ _ _ Ht Hv) as Hok.
  unfold Laws.entry_ok in Hok. cbn [fst snd] in Hok.
  destruct v; try reflexivity; discriminate.
Qed.

Lemma text_entry (k : jsstr) (v : JsVal) :
  is_text v = true -> Laws.entry_ok (k, v) = true.
Proof. intros Hv. unfold Laws.entry_ok. cbn [snd]. rewrite Hv. reflexivity. Qed.

(** What [parseTransaction] returns holds text under every key but the
    numeric ones. *)
Lemma parseTransaction_entries (rawData : option RawData) (t : Obj) :
  parseTransaction rawData = Some t -> forallb Laws.entry_ok t = true.
Proof.
  unfold parseTransaction.
  destruct rawData as [rawData|]; [|discriminate].
  destruct (fields rawData) as [fs|]; [|discriminate]. cbv zeta.
  set (t0 := parse_rows fs).
  assert (H0 : forallb Laws.entry_ok t0 = true) by apply parse_rows_entries.
  set (t1 := match truthy_value (description rawData) with
             | Some d => set (str "description") (JStr d) t0
             | None => t0
             end).
  assert (H1 : forallb Laws.entry_ok t1 = true).
  { subst t1. destruct (truthy_value (description rawData));
      [apply set_entries; [reflexivity | exact H0] | exact H0]. }
  set (t2 := match truthy_value (subheading rawData) with
             | Some s => set (str "subheading") (JStr s) t1
             | None => t1
             end).
  assert (H2 : forallb Laws.entry_ok t2 = true).
  { subst t2. destruct (truthy_value (subheading rawData));
      [apply set_entries; [reflexivity | exact H1] | exact H1]. }
  set (t3 := match truthy_value (subheading rawData) with
             | Some s =>
                 if negb (truthy (get (str "type") t2))
                 then set (str "type") (JStr s) t2 else t2
             | None => t2
             end).
  assert (H3 : forallb Laws.entry_ok t3 = true).
  { subst t3. destruct (truthy_value (subheading rawData)); [|exact H2].
    destruct (negb _); [apply set_entries; [reflexivity | exact H2]
                       | exact H2]. }
  set (t4 := if negb (truthy (get (str "account") t3))
                && truthy (or_ (get (str "to") t3) (get (str "from") t3))
             then set (str "account") _ t3 else t3).
  assert (H4 : forallb Laws.entry_ok t4 = true).
  { subst t4. destruct (_ && _); [|exact H3].
    apply set_entries; [|exact H3]. apply text_entry.
    destruct (ltb _ _); apply get_text; try exact H3; reflexivity. }
  destruct (length t4 =? 0)%nat; [discriminate|].
  intros Heq. injection Heq as <-. exact H4.
Qed.

Lemma as_record_well_typed (t : Obj) :
  forallb Laws.entry_ok t = true -> well_typed (as_record t) = true.
Proof.
  intros Ht. unfold well_typed, as_record.
  cbn [Transformer.account Transformer.date Transformer.filled
       Transformer.submitted Transformer.amount Transformer.type
       Transformer.description Transformer.subheading Transformer.email
       Transformer.message Transformer.filledQuantity
       Transformer.transactionId Transformer.from Transformer.to forallb].
  rewrite !(get_text _ t Ht) by reflexivity.
  rewrite (get_amount _ t Ht). reflexivity.
Qed.

End ParsedFacts.

(** X7 — [parseTransaction] returns [null] exactly when there is nothing to
    record: no data, no rows array, or rows none of which is recognised
    together with a summary line that gave neither a description nor a
    subheading. *)
Theorem parseTransaction_null {E : Engine} {H : ParserRows.Host}
        (rawData : option ParserRows.RawData) :
  ParserRows.parseTransaction rawData = None
  <-> match rawData with
      | None => True
      | Some rawData =>
          match ParserRows.fields rawData with
          | None => True
          | Some fs => Laws.nothing_to_record rawData fs = true
          end
      end.
Proof.
  unfold ParserRows.parseTransaction, Laws.nothing_to_record.
  destruct rawData as [rawData|]; [|split; auto].
  destruct (ParserRows.fields rawData) as [fs|]; [|split; auto].
  cbv zeta.
  assert (Hkeep : forall (t : ParserRows.Obj) (c : bool) k v,
             t <> [] -> (if c then ParserRows.set k v t else t) <> []).
  { intros t c k v Ht. destruct c; [apply Map_set_nonempty | exact Ht]. }
  destruct (ParserRows.truthy_value (ParserRows.description rawData))
    as [d|].
  { rewrite andb_false_r. cbn [andb]. split; [|discriminate].
    set (t1 := ParserRows.set (str "description") (JStr d) _).
    assert (H1 : t1 <> []) by apply Map_set_nonempty.
    destruct (ParserRows.truthy_value (ParserRows.subheading rawData)).
    - match goal with
      | |- (if (length ?t =? 0)%nat then _ else _) = None -> _ =>
          assert (Ht : t <> [])
            by (apply Hkeep; apply Hkeep; apply Map_set_nonempty);
            destruct t; [congruence | discriminate]
      end.
    - match goal with
      | |- (if (length ?t =? 0)%nat then _ else _) = None -> _ =>
          assert (Ht : t <> []) by (apply Hkeep; exact H1);
            destruct t; [congruence | discriminate]
      end. }
  destruct (ParserRows.truthy_value (ParserRows.subheading rawData))
    as [s|].
  { rewrite andb_false_r. split; [|discriminate].
    match goal with
    | |- (if (length ?t =? 0)%nat then _ else _) = None -> _ =>
        assert (Ht : t <> [])
          by (apply Hkeep; apply Hkeep; apply Map_set_nonempty);
          destruct t; [congruence | discriminate]
    end. }
  rewrite !andb_true_r.
  destruct (ParserRows.parse_rows fs) as [|kv t] eqn:Hrows.
  - apply parse_rows_empty in Hrows. rewrite Hrows. split; reflexivity.
  - assert (Hs : forallb Laws.silent fs = false).
    { destruct (forallb Laws.silent fs) eqn:Hs; [|reflexivity].
      apply parse_rows_empty in Hs. congruence. }
    rewrite Hs. split; [|discriminate].
    match goal with
    | |- (if (length ?t =? 0)%nat then _ else _) = None -> _ =>
        assert (Ht : t <> []) by (apply Hkeep; discriminate);
          destruct t; [congruence | discriminate]
    end.
Qed.

(** X8 — Whatever the rows, the transaction [parseTransaction] returns is one
    [transformTransaction] accepts: every field it reads is a string, [null]
    or absent, the amount possibly a number, so the transformation does not
    throw. *)
Theorem parsed_transactions_transform {E : Engine} {H : ParserRows.Host}
        (rawData : option ParserRows.RawData) (t : ParserRows.Obj)
        (o : Options) :
  ParserRows.parseTransaction rawData = Some t ->
  well_typed (ParserRows.as_record t) = true
  /\ exists out, transformTransaction (ParserRows.as_record t) o = Ok out.
Proof.
  intros Hp.
  assert (Hwt : well_typed (ParserRows.as_record t) = true).
  { apply as_record_well_typed.
    apply (parseTransaction_entries rawData t Hp). }
  split; [exact Hwt|].
  apply transformTransaction_returns. exact Hwt.
Qed.

(** The coffee shop of the test-suite: 50.00 out of the account, 5000
    cents. *)
Lemma parsed_transactions_transform_witness :
  exists t out,
    ParserRows.parseTransaction (E := Host.engine) (H := NodeHost.host)
      (Some Laws.coffee_shop) = Some t
    /\ ParserRows.get (str "date") t = txt "2024-01-15"
    /\ ParserRows.get (str "amount") t = JNum (of_Z (-50))
    /\ transformTransaction (E := Host.engine) (ParserRows.as_record t)
         no_options = Ok out
    /\ Amount out = JNum (of_Z (-5000))
    /\ Payee out = txt "Coffee Shop".
Proof.
  destruct (ParserRows.parseTransaction (E := Host.engine)
              (H := NodeHost.host) (Some Laws.coffee_shop))
    as [t|] eqn:Ht; [|discriminate].
  destruct (parsed_transactions_transform (E := Host.engine)
              (H := NodeHost.host) _ t no_options Ht) as (_ & out & Hout).
  exists t, out. vm_compute in Ht. injection Ht as <-.
  split; [reflexivity|]. split; [reflexivity|]. split; [reflexivity|].
  split; [exact Hout|].
  vm_compute in Hout. injection Hout as <-. split; reflexivity.
Defined.

(** ** Amount rows *)

Lemma parseCurrencyValue_reading (v : jsstr) (r : Reading) :
  reads_as v r ->
  Parser.parseCurrencyValue v
  = {| Parser.amount :=
         JNum (mul (NumLit.parseFloat (reading_digits r)) (reading_sign r));
       Parser.currency := reading_currency r |}.
Proof.
  intros Hr.
  destruct (reading_currency_pattern v r Hr) as (m & Hm).
  destruct (currency_pattern_reading v m Hm) as (r' & Hr' & ->).
  rewrite (parseCurrencyValue_of_reading v r' Hm).
  destruct (readings_agree v r r' Hr Hr') as (Hs & Hrun & Hd & Hc).
  unfold reading_digits, reading_sign, reading_currency.
  rewrite Hs, Hrun, Hd, Hc. reflexivity.
Qed.

Lemma parseCurrencyValue_unreadable (v : jsstr) :
  (forall r, ~ reads_as v r) ->
  Parser.parseCurrencyValue v
  = {| Parser.amount := JNull; Parser.currency := JUndefined |}.
Proof.
  intros Hnone. unfold Parser.parseCurrencyValue.
  destruct (Regex.exec Parser.currency_pattern v) as [m|] eqn:Hm;
    [|reflexivity].
  destruct (currency_pattern_reading v m Hm) as (r & Hr & _).
  destruct (Hnone r Hr).
Qed.

Section AmountRows.
Import ParserRows.
Context {E : Engine} {H : Host}.

(** The names of the amount rows are not names of simple fields, of date
    rows or of the rows looked at before them. *)
Lemma amount_row_branch (name : jsstr) (value : option jsstr) :
  In (toLowerCase name) amountFields ->
  parseRow name value
  = match truthy_value value with
    | None => []
    | Some v =>
        let parsed := Parser.parseCurrencyValue v in
        if strict_eq (Parser.amount parsed) JNull then
          [(str "amount", JNull); (str "amountCurrency", JUndefined)]
        else
          [(str "amount",
            if Str.eqb (toLowerCase name) (str "total cost")
            then JNum (neg (Math_abs (ToNumber (Parser.amount parsed))))
            else Parser.amount parsed);
           (str "amountCurrency", Parser.currency parsed)]
    end.
Proof.
  intros Hin. unfold parseRow.
  assert (Hsimple : simple_field (toLowerCase name) = None).
  { unfold simple_field.
    destruct (inheritedKey (toLowerCase name)) as [k|] eqn:Hk.
    - apply inheritedKey_names in Hk. exfalso.
      cbn in Hin, Hk.
      repeat match goal with
             | Hx : _ \/ _ |- _ => destruct Hx as [Hx | Hx]
             | Hx : False |- _ => destruct Hx
             end;
        rewrite <- Hin in Hk; discriminate.
    - cbn in Hin.
      repeat match goal with
             | Hx : _ \/ _ |- _ => destruct Hx as [Hx | Hx]
             | Hx : False |- _ => destruct Hx
             end; rewrite <- Hin; reflexivity. }
  rewrite Hsimple. cbn in Hin.
  repeat match goal with
         | Hx : _ \/ _ |- _ => destruct Hx as [Hx | Hx]
         | Hx : False |- _ => destruct Hx
         end; rewrite <- Hin; reflexivity.
Qed.

End AmountRows.

(** X9 — A row whose lower-cased name is one of total, amount, total value,
    total cost and estimated amount is ignored when its value is empty or
    absent; otherwise it sets [amount] and [amountCurrency]: to [null] and
    [undefined] when the value does not read as a currency amount, else to a
    number and the currency of the reading, where the number of a
    "total cost" row is never positive. *)
Theorem amount_rows {E : Engine} {H : ParserRows.Host}
        (name : jsstr) (value : option jsstr) :
  In (toLowerCase name) ParserRows.amountFields ->
  match ParserRows.truthy_value value with
  | None => ParserRows.parseRow name value = []
  | Some v =>
      ((forall r, ~ reads_as v r) ->
       ParserRows.parseRow name value
       = [(str "amount", JNull); (str "amountCurrency", JUndefined)])
      /\ (forall r,
            reads_as v r ->
            exists x,
              ParserRows.parseRow name value
              = [(str "amount", JNum x);
                 (str "amountCurrency", reading_currency r)]
              /\ (toLowerCase name = str "total cost" ->
                  ltb pzero x = false)
              /\ (toLowerCase name <> str "total cost" ->
                  existsb is_digit (run r) = true ->
                  x = mul (reading_number r) (reading_sign r)))
  end.
Proof.
  intros Hin. rewrite (amount_row_branch name value Hin).
  destruct (ParserRows.truthy_value value) as [v|]; [|reflexivity].
  cbv zeta. split.
  - intros Hnone. rewrite (parseCurrencyValue_unreadable v Hnone).
    reflexivity.
  - intros r Hr. rewrite (parseCurrencyValue_reading v r Hr).
    cbn [Parser.amount Parser.currency strict_eq ToNumber].
    destruct (Str.eqb (toLowerCase name) (str "total cost")) eqn:Htc.
    + eexists. split; [reflexivity|]. split.
      * intros _. apply neg_abs_not_positive.
      * intros Hne. apply Str_eqb_eq in Htc. contradiction.
    + eexists. split; [reflexivity|]. split.
      * intros Heq. rewrite Heq, Str_eqb_refl in Htc. discriminate.
      * intros _ Hdigit.
        rewrite (parseFloat_reading r (proj2 Hr) Hdigit). reflexivity.
Qed.

(** "Total Cost" with the value "$1,234.56 CAD": the amount is negative. *)
Lemma amount_rows_witness :
  In (toLowerCase (Engine := Host.engine) (str "Total Cost"))
     ParserRows.amountFields
  /\ reads_as (str "1,234.56 CAD") canadian_reading
  /\ exists x,
       ParserRows.parseRow (E := Host.engine) (H := NodeHost.host)
         (str "Total Cost") (Some (str "1,234.56 CAD"))
       = [(str "amount", JNum x); (str "amountCurrency", txt "CAD")]
       /\ ltb pzero x = false.
Proof.
  assert (Hin : In (toLowerCase (Engine := Host.engine) (str "Total Cost"))
                   ParserRows.amountFields)
    by (cbn; tauto).
  assert (Hr : reads_as (str "1,234.56 CAD") canadian_reading)
    by (split; reflexivity).
  split; [exact Hin|]. split; [exact Hr|].
  pose proof (amount_rows (E := Host.engine) (H := NodeHost.host)
                (str "Total Cost") (Some (str "1,234.56 CAD")) Hin) as Hrow.
  cbn [ParserRows.truthy_value is_empty str] in Hrow.
  destruct Hrow as [_ Hrow].
  destruct (Hrow canadian_reading Hr) as (x & Hx & Hneg & _).
  exists x. split; [exact Hx | apply Hneg; reflexivity].
Defined.

(** ** The ledger client: loading and finding *)

(** X10 — After [loadAccounts], [findAccount] returns, for a string key, the
    last of the loaded accounts whose name or id is the key, and [null] when
    there is none: every loaded account is found under its id and under its
    name, unless a later account answers to the same key. *)
Theorem findAccount_after_loadAccounts
        (c : ActualClient.Client) (accounts : list ActualClient.Acct.t)
        (k : jsstr) :
  ActualClient.findAccount (ActualClient.loadAccounts c accounts) (JStr k)
  = find (Laws.answers_to k) (rev accounts).
Proof.
  unfold ActualClient.findAccount, ActualClient.loadAccounts.
  cbn [ActualClient.accountMap].
  induction accounts as [|a accounts IH] using rev_ind; [reflexivity|].
  rewrite fold_left_app, rev_app_distr. cbn [fold_left rev app find].
  unfold Laws.answers_to at 1.
  destruct (Str.eqb k (ActualClient.Acct.id a)) eqn:Hid.
  - apply Str_eqb_eq in Hid. subst k. rewrite Map_get_set_same.
    rewrite orb_true_r. reflexivity.
  - rewrite (Map_get_set_other _ _ _ _ Hid), orb_false_r.
    destruct (Str.eqb k (ActualClient.Acct.name a)) eqn:Hname.
    + apply Str_eqb_eq in Hname. subst k. rewrite Map_get_set_same.
      reflexivity.
    + rewrite (Map_get_set_other _ _ _ _ Hname). exact IH.
Qed.

(** X11 — After [loadPayees], [findTransferPayee] returns, for a string key,
    the last of the loaded payees that is the transfer payee of the key: its
    [transfer_acct] is the key, or is an account the client knows whose name
    is the key.  Payees without a [transfer_acct] are never returned. *)
Theorem findTransferPayee_after_loadPayees
        (c : ActualClient.Client)
        (payees : list ActualClient.TransferPayee.t) (k : jsstr) :
  ActualClient.findTransferPayee (ActualClient.loadPayees c payees) (JStr k)
  = find (Laws.transfers_to c k) (rev payees).
Proof.
  unfold ActualClient.findTransferPayee, ActualClient.loadPayees.
  cbn [ActualClient.transferPayeeMap].
  induction payees as [|p payees IH] using rev_ind; [reflexivity|].
  rewrite fold_left_app, rev_app_distr. cbn [fold_left rev app find].
  unfold Laws.transfers_to at 1.
  destruct (ActualClient.TransferPayee.transfer_acct p) as [acct|];
    [|exact IH].
  destruct (is_empty acct); [exact IH|]. cbn [negb andb].
  destruct (ActualClient.findAccount c (JStr acct)) as [account|].
  - destruct (Str.eqb k (ActualClient.Acct.name account)) eqn:Hname.
    + apply Str_eqb_eq in Hname. subst k. rewrite Map_get_set_same.
      rewrite orb_true_r. reflexivity.
    + rewrite (Map_get_set_other _ _ _ _ Hname), orb_false_r.
      destruct (Str.eqb k acct) eqn:Hacct.
      * apply Str_eqb_eq in Hacct. subst k. rewrite Map_get_set_same.
        reflexivity.
      * rewrite (Map_get_set_other _ _ _ _ Hacct). exact IH.
  - rewrite orb_false_r. destruct (Str.eqb k acct) eqn:Hacct.
    + apply Str_eqb_eq in Hacct. subst k. rewrite Map_get_set_same.
      reflexivity.
    + rewrite (Map_get_set_other _ _ _ _ Hacct). exact IH.
Qed.

(** ** The grouping loop of the import *)

Section ImportCounts.
Context {E : Engine}.
Import ActualClient.

Lemma push_entry_count (p : Entry -> bool) (k : JsVal) (e : Entry)
      (g : Groups) :
  length (filter p (all_entries (push_entry k e g)))
  = (length (filter p (all_entries g)) + (if p e then 1 else 0))%nat.
Proof.
  induction g as [|[k' es] g IH]; simpl push_entry.
  - unfold all_entries. simpl. destruct (p e); reflexivity.
  - destruct (same_value_zero k k').
    + rewrite !all_entries_cons, !filter_app, !length_app. simpl.
      destruct (p e); simpl; lia.
    + rewrite !all_entries_cons, !filter_app, !length_app, IH. lia.
Qed.

Lemma push_entry_keys (k : JsVal) (e : Entry) (g : Groups) :
  Laws.distinct_keys g -> Laws.distinct_keys (push_entry k e g).
Proof.
  unfold Laws.distinct_keys.
  induction 1 as [|[k' es] g Hhead Htail IH]; simpl.
  - constructor; constructor.
  - destruct (same_value_zero k k') eqn:Hk.
    + constructor; assumption.
    + constructor; [|exact IH].
      clear IH Htail. induction g as [|[k2 ys] g IHg]; simpl.
      * constructor; [|constructor]. cbn [fst].
        rewrite same_value_zero_sym. exact Hk.
      * inversion Hhead as [|? ? Hfirst Hrest]; subst.
        destruct (same_value_zero k k2); constructor; auto.
Qed.

(** What one step of the loop adds. *)
Lemma group_step_counts (c : Client) (g : Groups) (errs : list Failure)
      (item : nat * ActualTransaction) :
  let st := group_step c (g, errs) item in
  snd st = errs ++ Laws.failure_of c item
  /\ length (filter (fun e => negb (isMirrorTransfer e))
                    (all_entries (fst st)))
     = (length (filter (fun e => negb (isMirrorTransfer e)) (all_entries g))
        + (if Laws.filed c (snd item) then 1 else 0))%nat
  /\ length (filter isMirrorTransfer (all_entries (fst st)))
     = (length (filter isMirrorTransfer (all_entries g))
        + (if Laws.mirrored c (snd item) then 1 else 0))%nat
  /\ (Laws.distinct_keys g -> Laws.distinct_keys (fst st)).
Proof.
  destruct item as [i t]. cbv zeta.
  unfold group_step, Laws.failure_of, Laws.filed, Laws.mirrored,
    Laws.filed, is_transfer.
  cbn [fst snd].
  destruct (resolve_account_key c t) as [key | msg].
  - cbn [andb].
    destruct (truthy (read (_isTransfer t))
              && truthy (read (_transferToAccount t))).
    + destruct (findTransferPayee c (read (_transferToAccount t)))
        as [payee|]; cbn [fst snd].
      * rewrite !push_entry_count. simpl. rewrite app_nil_r.
        split; [reflexivity|]. split; [lia|]. split; [lia|].
        intros Hk. apply push_entry_keys, push_entry_keys, Hk.
      * rewrite !push_entry_count. simpl. rewrite app_nil_r.
        split; [reflexivity|]. split; [lia|]. split; [lia|].
        intros Hk. apply push_entry_keys, Hk.
    + cbn [fst snd]. rewrite !push_entry_count. simpl.
      rewrite app_nil_r.
      split; [reflexivity|]. split; [lia|]. split; [lia|].
      intros Hk. apply push_entry_keys, Hk.
  - cbn [fst snd andb].
    split; [reflexivity|]. split; [lia|]. split; [lia|]. auto.
Qed.

Lemma group_fold_counts (c : Client)
      (items : list (nat * ActualTransaction)) :
  forall (g : Groups) (errs : list Failure),
    let st := fold_left (group_step c) items (g, errs) in
    snd st = errs ++ flat_map (Laws.failure_of c) items
    /\ length (filter (fun e => negb (isMirrorTransfer e))
                      (all_entries (fst st)))
       = (length (filter (fun e => negb (isMirrorTransfer e))
                         (all_entries g))
          + length (filter (fun it => Laws.filed c (snd it)) items))%nat
    /\ length (filter isMirrorTransfer (all_entries (fst st)))
       = (length (filter isMirrorTransfer (all_entries g))
          + length (filter (fun it => Laws.mirrored c (snd it)) items))%nat
    /\ (Laws.distinct_keys g -> Laws.distinct_keys (fst st)).
Proof.
  induction items as [|item items IH]; intros g errs; cbv zeta.
  - simpl. rewrite app_nil_r. repeat split; try lia. auto.
  - cbn [fold_left].
    destruct (group_step_counts c g errs item) as (He & Hp & Hm & Hk).
    destruct (group_step c (g, errs) item) as [g1 errs1].
    cbn [fst snd] in He, Hp, Hm, Hk.
    destruct (IH g1 errs1) as (He' & Hp' & Hm' & Hk').
    subst errs1. rewrite He', Hp', Hm', Hp, Hm. cbn [flat_map filter].
    rewrite <- app_assoc.
    split; [reflexivity|]. split.
    + destruct (Laws.filed c (snd item)); simpl; lia.
    + split; [destruct (Laws.mirrored c (snd item)); simpl; lia|].
      intros Hd. apply Hk', Hk, Hd.
Qed.

Lemma indexed_from_filter_length {A : Type} (p : A -> bool) (l : list A) :
  forall start,
    length (filter (fun it => p (snd it)) (indexed_from start l))
    = length (filter p l).
Proof.
  induction l as [|x l IH]; intros start; simpl; [reflexivity|].
  destruct (p x); simpl; rewrite IH; reflexivity.
Qed.

Lemma flat_map_length_le {A B : Type} (f : A -> list B) (p : A -> bool)
      (l : list A) :
  (forall x, length (f x) = if p x then 0%nat else 1%nat) ->
  (length (flat_map f l) + length (filter p l))%nat = length l.
Proof.
  intros Hf. induction l as [|x l IH]; simpl; [reflexivity|].
  rewrite length_app, Hf. destruct (p x); simpl; lia.
Qed.

End ImportCounts.

(** X12 — The grouping loop of [importTransactions] files or fails every
    transaction, never both: the failures are, in order, one per
    transaction whose account does not resolve, each with its index and
    message; the primary entries are as many as the transactions whose
    account resolves; the mirror entries as many as the filed transfers
    whose destination has a transfer payee; and no two groups have the same
    key. *)
Theorem import_files_or_fails {E : Engine}
        (c : ActualClient.Client) (transactions : list ActualTransaction) :
  let groups := fst (ActualClient.group_transactions c transactions) in
  let failures := snd (ActualClient.group_transactions c transactions) in
  failures
  = flat_map (Laws.failure_of c) (ActualClient.indexed transactions)
  /\ length (filter (fun e => negb (ActualClient.isMirrorTransfer e))
                    (all_entries groups))
     = length (filter (Laws.filed c) transactions)
  /\ (length (filter (fun e => negb (ActualClient.isMirrorTransfer e))
                     (all_entries groups))
      + length failures)%nat
     = length transactions
  /\ length (filter ActualClient.isMirrorTransfer (all_entries groups))
     = length (filter (Laws.mirrored c) transactions)
  /\ Laws.distinct_keys groups.
Proof.
  cbv zeta. unfold ActualClient.group_transactions, ActualClient.indexed.
  destruct (group_fold_counts c (ActualClient.indexed_from 0 transactions)
              [] []) as (He & Hp & Hm & Hk).
  cbn [app all_entries flat_map filter length Nat.add] in He, Hp, Hm.
  rewrite indexed_from_filter_length in Hp, Hm.
  assert (Hall : (length (flat_map (Laws.failure_of c)
                            (ActualClient.indexed_from 0 transactions))
                  + length (filter (Laws.filed c) transactions))%nat
                 = length transactions).
  { rewrite <- (indexed_from_filter_length (Laws.filed c) transactions 0).
    rewrite (flat_map_length_le (Laws.failure_of c)
               (fun it => Laws.filed c (snd it))).
    - clear. generalize 0%nat. induction transactions as [|t l IH];
        intros n; simpl; [reflexivity | rewrite IH; reflexivity].
    - intros [i t]. unfold Laws.failure_of, Laws.filed. cbn [snd].
      destruct (ActualClient.resolve_account_key c t); reflexivity. }
  split; [exact He|]. split; [exact Hp|]. split.
  - etransitivity; [|exact Hall].
    rewrite Nat.add_comm. f_equal; [f_equal; exact He | exact Hp].
  - split; [exact Hm|]. apply Hk. constructor.
Qed.

(** ** Payee names by type *)

Lemma startsWith_app (p q s : jsstr) :
  startsWith (p ++ q) s = true -> startsWith p s = true.
Proof.
  revert s. induction p as [|a p IH]; intros s; [reflexivity|].
  destruct s as [|b s]; simpl; [discriminate|].
  intros H. apply andb_prop in H. destruct H as [-> H].
  apply IH. exact H.
Qed.

Lemma includes_app (s p q : jsstr) :
  includes s (p ++ q) = true -> includes s p = true.
Proof.
  induction s as [|c s IH]; simpl.
  - rewrite !orb_false_r. apply startsWith_app.
  - intros H. apply orb_prop in H. destruct H as [H | H].
    + rewrite (startsWith_app _ _ _ H). reflexivity.
    + rewrite (IH H). apply orb_true_r.
Qed.

(** X13 — [getPayeeByType] never takes the names "Transfer In" and
    "Transfer Out" from its table: a type that contains transfer_in or
    transfer_out contains transfer, whose entry comes first, so the name is
    "Deposit", "Withdrawal" or "Transfer".  One of the two names is returned
    only when it is the type itself, given back because no entry applies. *)
Theorem getPayeeByType_transfers {E : Engine} (type p : JsVal) :
  getPayeeByType type = Ok p ->
  exists lowerType,
    call_toLowerCase (or_ type (JStr [])) = Ok lowerType
    /\ (includes lowerType (str "transfer_in") = true
        \/ includes lowerType (str "transfer_out") = true
        \/ includes lowerType (str "transfer") = true ->
        p = txt "Deposit" \/ p = txt "Withdrawal" \/ p = txt "Transfer")
    /\ (p = txt "Transfer In" \/ p = txt "Transfer Out" ->
        p = type /\ includes lowerType (str "transfer") = false).
Proof.
  unfold getPayeeByType.
  destruct (call_toLowerCase (or_ type (JStr []))) as [lowerType|];
    [|discriminate].
  cbn [bind]. intros H. exists lowerType. split; [reflexivity|].
  unfold typeMap in H. cbn [find fst] in H.
  destruct (includes lowerType (str "deposit")).
  { injection H as <-. split; [auto|].
    intros [Hp | Hp]; discriminate. }
  destruct (includes lowerType (str "withdrawal")).
  { injection H as <-. split; [auto|].
    intros [Hp | Hp]; discriminate. }
  destruct (includes lowerType (str "transfer")) eqn:Ht.
  { injection H as <-. split; [auto|].
    intros [Hp | Hp]; discriminate. }
  assert (Hin : includes lowerType (str "transfer_in") = false).
  { destruct (includes lowerType (str "transfer_in")) eqn:Hi; [|reflexivity].
    change (str "transfer_in") with (str "transfer" ++ str "_in") in Hi.
    rewrite (includes_app _ _ _ Hi) in Ht. discriminate. }
  assert (Hout : includes lowerType (str "transfer_out") = false).
  { destruct (includes lowerType (str "transfer_out")) eqn:Ho; [|reflexivity].
    change (str "transfer_out") with (str "transfer" ++ str "_out") in Ho.
    rewrite (includes_app _ _ _ Ho) in Ht. discriminate. }
  rewrite Hin, Hout in H. split.
  - intros [Hc | [Hc | Hc]]; congruence.
  - intros Hp. split; [|reflexivity].
    repeat match type of H with
           | (match (if ?c then _ else _) with _ => _ end) = _ =>
               destruct c; [injection H as <-;
                            destruct Hp as [Hp | Hp]; discriminate|]
           end.
    injection H as <-. unfold or_ in *.
    destruct (truthy type); [reflexivity|].
    destruct Hp as [Hp | Hp]; discriminate.
Qed.

(** The type "TRANSFER_IN" is named "Transfer". *)
Lemma getPayeeByType_transfers_witness :
  getPayeeByType (E := Host.engine) (txt "TRANSFER_IN") = Ok (txt "Transfer")
  /\ exists lowerType,
       call_toLowerCase (E := Host.engine) (txt "TRANSFER_IN") = Ok lowerType
       /\ includes lowerType (str "transfer_in") = true.
Proof.
  split; [vm_compute; reflexivity|].
  destruct (getPayeeByType_transfers (E := Host.engine)
              (txt "TRANSFER_IN") (txt "Transfer"))
    as (lowerType & Hlower & _ & _).
  - vm_compute. reflexivity.
  - exists lowerType. split; [exact Hlower|].
    vm_compute in Hlower. injection Hlower as <-. reflexivity.
Defined.

(** ** The first word of the notes *)

Lemma before_space_split (t : jsstr) :
  exists rest,
    t = TransformerBatch.before_space t ++ rest
    /\ Laws.spaceless (TransformerBatch.before_space t) = true
    /\ (rest = [] \/ exists r, rest = 32%N :: r).
Proof.
  induction t as [|c t (rest & Ht & Hw & Hr)]; simpl.
  - exists []. repeat split. left. reflexivity.
  - change (ch " ") with 32%N.
    destruct (c =? 32)%N eqn:Hc.
    + apply N.eqb_eq in Hc. subst c. exists (32%N :: t).
      repeat split. right. eexists. reflexivity.
    + exists rest. split; [simpl; rewrite <- Ht; reflexivity|].
      split; [|exact Hr].
      unfold Laws.spaceless in *. simpl. rewrite Hc, Hw. reflexivity.
Qed.

(** X14 — [extractTypeFromNotes] returns [null] exactly when the notes are
    not a string or are blank; otherwise it returns the first word of the
    trimmed notes: a non-empty string without a plain space, after which the
    trimmed notes end or go on with a space. *)
Theorem extractTypeFromNotes_first_word (notes : JsVal) :
  match notes with
  | JStr s =>
      if is_empty (trim s)
      then TransformerBatch.extractTypeFromNotes notes = JNull
      else
        exists w rest,
          TransformerBatch.extractTypeFromNotes notes = JStr w
          /\ w <> []
          /\ Laws.spaceless w = true
          /\ trim s = w ++ rest
          /\ (rest = [] \/ exists r, rest = 32%N :: r)
  | _ => TransformerBatch.extractTypeFromNotes notes = JNull
  end.
Proof.
  destruct notes as [| | b | x | s]; try reflexivity.
  unfold TransformerBatch.extractTypeFromNotes.
  destruct s as [|c0 s0]; [reflexivity|].
  cbn [is_empty]. cbv zeta.
  pose proof (trim_starts_outside (c0 :: s0)) as Hstart.
  destruct (before_space_split (trim (c0 :: s0))) as (rest & Ht & Hw & Hr).
  destruct (trim (c0 :: s0)) as [|c t] eqn:Htrim; [reflexivity|].
  cbn [is_empty]. simpl in Hstart.
  assert (Hc : (c =? ch " ")%N = false).
  { destruct (c =? ch " ")%N eqn:Hc; [|reflexivity].
    apply N.eqb_eq in Hc. subst c. discriminate. }
  revert Ht Hw. cbn [TransformerBatch.before_space]. rewrite Hc.
  intros Ht Hw. unfold or_. cbn [truthy is_empty negb].
  eexists. exists rest. split; [reflexivity|].
  split; [discriminate|]. split; [exact Hw|]. split; [exact Ht | exact Hr].
Qed.

(** ** Amounts of a CSV export *)

Lemma of_decimal_neg (s : bool) (m e : Z) :
  of_decimal (negb s) m e = neg (of_decimal s m e).
Proof.
  unfold of_decimal. destruct m as [|p|p]; [reflexivity | | reflexivity].
  destruct (0 <=? e).
  - unfold binary_round.
    destruct (shl_align _ 0 _) as [mz ez].
    apply binary_round_aux_neg.
  - destruct (SFdiv_core_binary prec emax (Zpos p) 0 (10 ^ (- e)) 0)
      as [[q e'] l].
    apply binary_round_aux_neg.
Qed.

(** A minus sign before an unsigned literal negates it. *)
Lemma scan_signed_decimal_minus (c : N) (u : jsstr) :
  ((c =? ch "+")%N || (c =? ch "-")%N) = false ->
  NumLit.scan_signed_decimal (ch "-" :: c :: u)
  = match NumLit.scan_signed_decimal (c :: u) with
    | Some (x, r) => Some (neg x, r)
    | None => None
    end.
Proof.
  intros Hc. apply orb_false_elim in Hc. destruct Hc as [Hplus Hminus].
  unfold NumLit.scan_signed_decimal, NumLit.scan_sign.
  rewrite Hplus, Hminus.
  change ((ch "-" =? ch "+")%N) with false.
  change ((ch "-" =? ch "-")%N) with true. cbv iota.
  destruct (startsWith (str "Infinity") (c :: u)); [reflexivity|].
  destruct (NumLit.scan_decimal (c :: u)) as [[[m e] r]|]; [|reflexivity].
  rewrite (of_decimal_neg false). reflexivity.
Qed.

Lemma bare_no_symbol (d : jsstr) :
  forallb (fun c => negb (CsvParser.is_symbol c)) (Laws.bare d) = true.
Proof.
  unfold Laws.bare, remove_all.
  induction d as [|c d IH]; simpl; [reflexivity|].
  destruct (CsvParser.is_symbol c) eqn:Hc; simpl; [exact IH|].
  rewrite Hc, IH. reflexivity.
Qed.

Lemma bare_plain (d : jsstr) :
  Laws.plain d = true ->
  CsvParser.replace_parens (Laws.bare d) = Laws.bare d.
Proof.
  unfold Laws.plain, Laws.bare, remove_all, CsvParser.replace_parens.
  induction d as [|c d IH]; [reflexivity|]. cbn [forallb filter].
  intros H. apply andb_prop in H. destruct H as [Hc Hd].
  apply negb_true_iff, orb_false_elim in Hc. destruct Hc as [Hopen Hclose].
  destruct (CsvParser.is_symbol c); cbn [negb]; [exact (IH Hd)|].
  cbn [flat_map]. rewrite Hopen, Hclose. cbn [app].
  rewrite (IH Hd). reflexivity.
Qed.

Lemma replace_parens_app (a b : jsstr) :
  CsvParser.replace_parens (a ++ b)
  = CsvParser.replace_parens a ++ CsvParser.replace_parens b.
Proof. apply flat_map_app. Qed.

Lemma bare_parenthesised (d : jsstr) :
  Laws.plain d = true ->
  CsvParser.replace_parens (Laws.bare (str "(" ++ d ++ str ")"))
  = ch "-" :: Laws.bare d.
Proof.
  intros Hd.
  assert (Hb : Laws.bare (str "(" ++ d ++ str ")")
               = str "(" ++ Laws.bare d ++ str ")")
    by (unfold Laws.bare, remove_all; rewrite !filter_app; reflexivity).
  rewrite Hb, !replace_parens_app, (bare_plain d Hd).
  cbn. rewrite app_nil_r. reflexivity.
Qed.

(** X15 — [parseAmount] reads an amount in parentheses as a negative one:
    for a text without parentheses that, once [$], [,] and white space are
    dropped, is an unsigned number, the amount of the text in parentheses is
    the negation of the amount of the text, which is what [parseFloat] reads
    off the bare text.  The result is never NaN: an empty, absent or
    unreadable amount is 0. *)
Theorem parseAmount_accounting {E : Engine} (d : jsstr) :
  Laws.plain d = true ->
  Laws.unsigned_amount d = true ->
  CsvParser.parseAmount (JStr (str "(" ++ d ++ str ")"))
  = neg (CsvParser.parseAmount (JStr d))
  /\ CsvParser.parseAmount (JStr d) = NumLit.parseFloat (Laws.bare d)
  /\ (forall v, is_nan (CsvParser.parseAmount v) = false)
  /\ (forall v, truthy v = false -> CsvParser.parseAmount v = pzero).
Proof.
  intros Hplain Hunsigned.
  unfold Laws.unsigned_amount in Hunsigned.
  apply andb_prop in Hunsigned. destruct Hunsigned as [Hsign Hread].
  apply negb_true_iff in Hread.
  assert (Hd : CsvParser.parseAmount (JStr d)
               = NumLit.parseFloat (Laws.bare d)).
  { unfold CsvParser.parseAmount.
    destruct d as [|c d]; [discriminate|].
    cbn [truthy is_empty negb ToString]. cbv zeta.
    fold (Laws.bare (c :: d)). rewrite (bare_plain _ Hplain), Hread.
    reflexivity. }
  split; [|split; [exact Hd|split]].
  - rewrite Hd. unfold CsvParser.parseAmount.
    cbn [str list_ascii_of_string map app truthy is_empty negb ToString].
    cbv zeta.
    change (ch "(" :: d ++ [ch ")"]) with (str "(" ++ d ++ str ")").
    fold (Laws.bare (str "(" ++ d ++ str ")")).
    rewrite (bare_parenthesised d Hplain).
    pose proof (bare_no_symbol d) as Hbare.
    destruct (Laws.bare d) as [|c u]; [discriminate|].
    apply negb_true_iff in Hsign.
    assert (Hminus : NumLit.parseFloat (ch "-" :: c :: u)
                     = neg (NumLit.parseFloat (c :: u))).
    { unfold NumLit.parseFloat.
      cbn [forallb] in Hbare. apply andb_prop in Hbare.
      destruct Hbare as [Hc _]. apply negb_true_iff in Hc.
      unfold CsvParser.is_symbol in Hc.
      apply orb_false_elim in Hc. destruct Hc as [_ Hspace].
      cbn [trimStart]. rewrite Hspace.
      change (is_space (ch "-")) with false. cbv iota.
      rewrite (scan_signed_decimal_minus c u Hsign).
      destruct (NumLit.scan_signed_decimal (c :: u)) as [[x r]|];
        reflexivity. }
    rewrite Hminus, neg_nan, Hread. reflexivity.
  - clear. intros v. unfold CsvParser.parseAmount.
    destruct (negb (truthy v)); [reflexivity|]. cbv zeta.
    destruct (is_nan (NumLit.parseFloat _)) eqn:Hn; [reflexivity | exact Hn].
  - intros v Hv. unfold CsvParser.parseAmount. rewrite Hv. reflexivity.
Qed.

(** "($1,234.56)" is -1234.56. *)
Lemma parseAmount_accounting_witness :
  Laws.plain (str "$1,234.56") = true
  /\ Laws.unsigned_amount (str "$1,234.56") = true
  /\ CsvParser.parseAmount (E := Host.engine) (txt "($1,234.56)")
     = of_decimal true 123456 (-2).
Proof.
  split; [reflexivity|]. split; [vm_compute; reflexivity|].
  destruct (parseAmount_accounting (E := Host.engine) (str "$1,234.56"))
    as (Hneg & Hpos & _).
  - reflexivity.
  - vm_compute. reflexivity.
  - change (txt "($1,234.56)")
      with (JStr (str "(" ++ str "$1,234.56" ++ str ")")).
    rewrite Hneg, Hpos. vm_compute. reflexivity.
Defined.

(** ** The accounts of a batch *)

Lemma lt_units_asym (s : jsstr) :
  forall t, CsvParser.lt_units s t = true -> CsvParser.lt_units t s = false.
Proof.
  induction s as [|a s IH]; intros [|b t]; simpl; try reflexivity;
    try discriminate.
  intros H. apply orb_prop in H. destruct H as [H | H].
  - apply N.ltb_lt in H.
    assert (Hba : (b <? a)%N = false) by (apply N.ltb_ge; lia).
    assert (Heq : (b =? a)%N = false) by (apply N.eqb_neq; lia).
    rewrite Hba, Heq. reflexivity.
  - apply andb_prop in H. destruct H as [Heq H].
    apply N.eqb_eq in Heq. subst b.
    rewrite N.ltb_irrefl, (IH t H), andb_false_r. reflexivity.
Qed.

Lemma lt_units_trans (s : jsstr) :
  forall t u,
    CsvParser.lt_units s t = true -> CsvParser.lt_units t u = true ->
    CsvParser.lt_units s u = true.
Proof.
  induction s as [|a s IH]; intros [|b t] [|c u]; simpl; try reflexivity;
    try discriminate.
  intros H1 H2.
  apply orb_prop in H1. apply orb_prop in H2.
  destruct H1 as [H1 | H1]; destruct H2 as [H2 | H2].
  - apply N.ltb_lt in H1. apply N.ltb_lt in H2.
    assert (Hac : (a <? c)%N = true) by (apply N.ltb_lt; lia).
    rewrite Hac. reflexivity.
  - apply N.ltb_lt in H1. apply andb_prop in H2. destruct H2 as [H2 _].
    apply N.eqb_eq in H2. subst c.
    assert (Hab : (a <? b)%N = true) by (apply N.ltb_lt; lia).
    rewrite Hab. reflexivity.
  - apply andb_prop in H1. destruct H1 as [H1 _].
    apply N.eqb_eq in H1. subst b. rewrite H2. reflexivity.
  - apply andb_prop in H1. destruct H1 as [H1 H1'].
    apply andb_prop in H2. destruct H2 as [H2 H2'].
    apply N.eqb_eq in H1. apply N.eqb_eq in H2. subst b c.
    rewrite N.eqb_refl, (IH t u H1' H2'). apply orb_true_r.
Qed.

(** Among truthy values, the keys a [Set] holds apart are different
    values. *)
Lemma same_value_zero_truthy (a b : JsVal) :
  truthy a = true -> ActualClient.same_value_zero a b = true -> a = b.
Proof.
  destruct a as [| | x | x | s]; destruct b as [| | y | y | t]; simpl;
    try discriminate.
  - intros _ H. destruct x, y; try discriminate; reflexivity.
  - intros Ht H. apply orb_prop in H. destruct H as [H | H].
    + apply andb_prop in H. destruct H as [Hx _].
      rewrite Hx, orb_true_r in Ht. discriminate.
    + destruct (num_eqb_true _ _ H) as [[Hx _] | ->]; [|reflexivity].
      rewrite Hx in Ht. discriminate.
  - intros _ H. apply Str_eqb_eq in H. subst t. reflexivity.
Qed.

Section UniqueAccounts.
Context {E : Engine}.
Import CsvParser.

Lemma sorts_before_defined (x y : JsVal) :
  truthy x = true -> truthy y = true ->
  sorts_before x y = lt_units (ToString x) (ToString y).
Proof. destruct x, y; try discriminate; reflexivity. Qed.

Lemma In_insert_sorted (v x : JsVal) (l : list JsVal) :
  In v (insert_sorted x l) <-> v = x \/ In v l.
Proof.
  induction l as [|y l IH]; simpl.
  - split; intros [H | H]; auto.
  - destruct (sorts_before x y); simpl; rewrite ?IH;
      intuition congruence.
Qed.

Lemma NoDup_insert_sorted (x : JsVal) (l : list JsVal) :
  ~ In x l -> NoDup l -> NoDup (insert_sorted x l).
Proof.
  induction l as [|y l IH]; simpl; intros Hx Hl.
  - constructor; [exact Hx | constructor].
  - destruct (sorts_before x y).
    + constructor; [exact Hx | exact Hl].
    + inversion Hl as [|? ? Hy Hl']; subst.
      constructor.
      * rewrite In_insert_sorted. intros [-> | H]; [|contradiction].
        apply Hx. left. reflexivity.
      * apply IH; [|exact Hl']. intros H. apply Hx. right. exact H.
Qed.

Lemma ascending_insert_sorted (x : JsVal) (l : list JsVal) :
  truthy x = true -> Forall (fun v => truthy v = true) l ->
  Laws.ascending l -> Laws.ascending (insert_sorted x l).
Proof.
  unfold Laws.ascending. intros Hx Hall Hl.
  induction Hl as [|y l Hy Hl IH]; simpl.
  - constructor; constructor.
  - inversion Hall as [|? ? Hty Hall']; subst.
    rewrite (sorts_before_defined x y Hx Hty).
    destruct (lt_units (ToString x) (ToString y)) eqn:Hxy.
    + constructor; [|constructor; assumption].
      constructor; [apply lt_units_asym; exact Hxy|].
      apply Forall_forall. intros z Hz.
      rewrite Forall_forall in Hy. specialize (Hy z Hz).
      destruct (lt_units (ToString z) (ToString x)) eqn:Hzx; [|reflexivity].
      rewrite (lt_units_trans _ _ _ Hzx Hxy) in Hy. discriminate.
    + constructor; [|apply IH; exact Hall'].
      apply Forall_forall. intros z Hz. apply In_insert_sorted in Hz.
      destruct Hz as [-> | Hz]; [exact Hxy|].
      rewrite Forall_forall in Hy. apply Hy. exact Hz.
Qed.

Lemma NoDup_insert_sorted_app (x : JsVal) (l sorted : list JsVal) :
  NoDup (sorted ++ x :: l) -> NoDup (insert_sorted x sorted ++ l).
Proof.
  induction sorted as [|y sorted IH]; simpl; [auto|].
  intros Hnd. destruct (sorts_before x y).
  - change (y :: sorted ++ x :: l) with ((y :: sorted) ++ x :: l) in Hnd.
    apply NoDup_remove in Hnd. destruct Hnd as [Hnd Hx].
    simpl. constructor; assumption.
  - inversion Hnd as [|? ? Hy Hnd']; subst. simpl. constructor.
    + intros H. apply Hy. apply in_app_iff in H. apply in_app_iff.
      destruct H as [H | H]; [|right; right; exact H].
      apply In_insert_sorted in H. destruct H as [-> | H].
      * right. left. reflexivity.
      * left. exact H.
    + apply IH. exact Hnd'.
Qed.

Lemma NoDup_snoc (x : JsVal) (s : list JsVal) :
  ~ In x s -> NoDup s -> NoDup (s ++ [x]).
Proof.
  induction s as [|y s IH]; simpl; intros Hx Hnd.
  - constructor; [exact Hx | constructor].
  - inversion Hnd as [|? ? Hy Hnd']; subst. constructor.
    + intros H. apply in_app_iff in H. destruct H as [H | [H | []]].
      * contradiction.
      * apply Hx. left. symmetry. exact H.
    + apply IH; [|exact Hnd']. intros H. apply Hx. right. exact H.
Qed.

(** The sort rearranges, and puts in order. *)
Lemma sort_sorts (l : list JsVal) :
  forall sorted,
    Forall (fun v => truthy v = true) (sorted ++ l) ->
    NoDup (sorted ++ l) -> Laws.ascending sorted ->
    let out := fold_left (fun sorted x => insert_sorted x sorted) l sorted in
    (forall v, In v out <-> In v (sorted ++ l))
    /\ NoDup out /\ Laws.ascending out.
Proof.
  induction l as [|x l IH]; intros sorted Hall Hnd Hasc; cbv zeta.
  - simpl. rewrite app_nil_r in *. repeat split; auto.
  - cbn [fold_left].
    assert (Hx : truthy x = true).
    { rewrite Forall_forall in Hall. apply Hall, in_or_app. right. left.
      reflexivity. }
    assert (Hsorted : Forall (fun v => truthy v = true) sorted).
    { rewrite Forall_forall in *. intros v Hv. apply Hall, in_or_app.
      left. exact Hv. }
    assert (Hperm : forall v, In v (insert_sorted x sorted ++ l)
                              <-> In v (sorted ++ x :: l)).
    { intros v. rewrite !in_app_iff, In_insert_sorted. simpl.
      intuition congruence. }
    destruct (IH (insert_sorted x sorted)) as (Hin & Hnd' & Hasc').
    + rewrite Forall_forall in *. intros v Hv. apply Hall, Hperm, Hv.
    + apply NoDup_insert_sorted_app. exact Hnd.
    + apply ascending_insert_sorted; assumption.
    + split; [|split; assumption].
      intros v. rewrite Hin. apply Hperm.
Qed.

Lemma Set_add_spec (x : JsVal) (s : list JsVal) :
  truthy x = true ->
  (forall v, In v (Set_add x s) <-> In v s \/ v = x)
  /\ (NoDup s -> NoDup (Set_add x s)).
Proof.
  intros Hx. unfold Set_add.
  destruct (existsb (ActualClient.same_value_zero x) s) eqn:Hex.
  - apply existsb_exists in Hex. destruct Hex as (y & Hy & Hxy).
    apply (same_value_zero_truthy x y Hx) in Hxy. subst y.
    split; [|auto]. intros v. split; [auto|].
    intros [H | ->]; assumption.
  - assert (Hnotin : ~ In x s).
    { intros H.
      assert (Hex' : existsb (ActualClient.same_value_zero x) s = true).
      { apply existsb_exists. exists x. split; [exact H|].
        apply same_value_zero_refl. }
      congruence. }
    split.
    + intros v. rewrite in_app_iff. simpl. intuition congruence.
    + intros Hnd. apply NoDup_snoc; assumption.
Qed.

Lemma collect_accounts (ts : list WsTransaction) :
  forall s,
    Forall (fun v => truthy v = true) s -> NoDup s ->
    let out :=
      fold_left
        (fun accounts t =>
           if truthy (account t) then Set_add (account t) accounts
           else accounts)
        ts s in
    (forall v, In v out
               <-> In v s \/ (truthy v = true /\ In v (List.map account ts)))
    /\ NoDup out
    /\ Forall (fun v => truthy v = true) out.
Proof.
  induction ts as [|t ts IH]; intros s Hall Hnd; cbv zeta.
  - simpl. split; [|split; assumption].
    intros v. split; [auto|]. intros [H | [_ []]]. exact H.
  - cbn [fold_left List.map].
    destruct (truthy (account t)) eqn:Ht.
    + destruct (Set_add_spec (account t) s Ht) as [Hin Hnd'].
      destruct (IH (Set_add (account t) s)) as (Hin' & Hnd'' & Hall').
      * rewrite Forall_forall in *. intros v Hv. apply Hin in Hv.
        destruct Hv as [Hv | ->]; [apply Hall; exact Hv | exact Ht].
      * apply Hnd', Hnd.
      * split; [|split; assumption].
        intros v. rewrite Hin', Hin. simpl. split.
        -- intros [[H | ->] | [Hv H]]; auto.
        -- intros [H | [Hv [<- | H]]]; auto.
    + destruct (IH s Hall Hnd) as (Hin' & Hnd'' & Hall').
      split; [|split; assumption].
      intros v. rewrite Hin'. simpl. split.
      * intros [H | [Hv H]]; auto.
      * intros [H | [Hv [<- | H]]]; auto. congruence.
Qed.

End UniqueAccounts.

(** X16 — [getUniqueAccounts] returns each account of the batch once: its
    result holds exactly the truthy [account] values of the transactions,
    none of them twice, in ascending order of their string forms; empty and
    absent accounts are left out. *)
Theorem getUniqueAccounts_sorted_unique {E : Engine}
        (transactions : list WsTransaction) :
  (forall v,
     In v (CsvParser.getUniqueAccounts transactions)
     <-> truthy v = true /\ In v (List.map account transactions))
  /\ NoDup (CsvParser.getUniqueAccounts transactions)
  /\ Laws.ascending (CsvParser.getUniqueAccounts transactions).
Proof.
  unfold CsvParser.getUniqueAccounts, CsvParser.sort. cbv zeta.
  destruct (collect_accounts transactions [] (Forall_nil _) (NoDup_nil _))
    as (Hin & Hnd & Hall).
  cbv zeta in Hin, Hnd, Hall.
  set (accounts := fold_left _ transactions []) in *.
  destruct (sort_sorts accounts []) as (Hin' & Hnd' & Hasc').
  - exact Hall.
  - exact Hnd.
  - constructor.
  - cbv zeta in Hin', Hnd', Hasc'. split; [|split; assumption].
    intros v. rewrite Hin'. cbn [app]. rewrite Hin.
    split; [intros [[] | H]; exact H | auto].
Qed.

(** ** The filter of the import *)

(** X17 — On a transaction [parseTransaction] returned,
    [shouldIncludeTransaction] does not throw, the type it lower-cases being
    a string or absent; the transaction is left out exactly when its
    lower-cased type is one of market sell, market buy, fractional buy,
    dividend reinvested and funds converted: the whole type, not a part of
    it. *)
Theorem parsed_transactions_filter {E : Engine} {H : ParserRows.Host}
        (rawData : option ParserRows.RawData) (t : ParserRows.Obj) :
  ParserRows.parseTransaction rawData = Some t ->
  exists included,
    TransformerBatch.shouldIncludeTransaction (ParserRows.as_record t)
    = Ok included
    /\ (included = false
        <-> In (toLowerCase (text_of (ParserRows.get (str "type") t)))
               TransformerBatch.excludedTypes).
Proof.
  intros Hp.
  pose proof (parseTransaction_entries rawData t Hp) as Hok.
  assert (Htype : is_text (ParserRows.get (str "type") t) = true)
    by (apply get_text; [exact Hok | reflexivity]).
  unfold TransformerBatch.shouldIncludeTransaction.
  change (type (ParserRows.as_record t)) with (ParserRows.get (str "type") t).
  rewrite (call_toLowerCase_text _ Htype). cbn [bind].
  eexists. split; [reflexivity|].
  rewrite negb_false_iff, existsb_exists. split.
  - intros (x & Hx & Heq). apply Str_eqb_eq in Heq. subst x. exact Hx.
  - intros Hin. eexists. split; [exact Hin | apply Str_eqb_refl].
Qed.

(** A purchase of shares is left out. *)
Lemma parsed_transactions_filter_witness :
  exists t,
    ParserRows.parseTransaction (E := Host.engine) (H := NodeHost.host)
      (Some Laws.share_purchase) = Some t
    /\ ParserRows.get (str "type") t = txt "Market buy"
    /\ TransformerBatch.shouldIncludeTransaction (E := Host.engine)
         (ParserRows.as_record t) = Ok false.
Proof.
  destruct (ParserRows.parseTransaction (E := Host.engine)
              (H := NodeHost.host) (Some Laws.share_purchase))
    as [t|] eqn:Ht; [|discriminate].
  destruct (parsed_transactions_filter (E := Host.engine)
              (H := NodeHost.host) _ t Ht) as (included & Hrun & Hiff).
  exists t. vm_compute in Ht. injection Ht as <-.
  split; [reflexivity|]. split; [reflexivity|].
  rewrite Hrun. f_equal. apply Hiff. vm_compute. tauto.
Defined.
